(** * Streaming audio playback pipeline of the Prompt DJ control surface

    A shallow embedding of [src/utils.ts] (PCM codec and audio buffer
    builder) and of the playback scheduler and the throttled senders of
    [src/index.tsx], with the properties of the specification stated and
    proved (or refuted) over it. *)

From Stdlib Require Import ZArith QArith Qround Qabs Qpower Lia Lqa Bool String.
From Stdlib Require Import Ascii.
From Stdlib Require Import Strings.Byte DecimalString.
From stdpp Require Import base list strings gmap.

Local Open Scope Z_scope.

(** ** JavaScript numbers

    A JavaScript [number] is an IEEE double.  The arithmetic the two source
    files perform on the values below is exact in doubles: a multiplication
    or division by a power of two ([* 32768], [/ 32768.0], [/ 2]), a
    comparison, a truncation, and one division of a small integer by the
    channel count whose only observed results are [=== 0] and its integer
    part.  Finite values are therefore rationals; the two infinities and NaN
    are kept because [byteLength / 2 / numChannels] produces them. *)
Module Js.

Inductive number : Type :=
| Num (q : Q)
| PosInf
| NegInf
| NaN.

Definition ofZ (z : Z) : number := Num (inject_Z z).

(** [a < b] on rationals, as a boolean. *)
Definition Qlt_bool (a b : Q) : bool := negb (Qle_bool b a).

(** [x * y] *)
Definition mul (x y : number) : number :=
  match x, y with
  | NaN, _ | _, NaN => NaN
  | Num a, Num b => Num (a * b)
  | Num a, PosInf | PosInf, Num a =>
      if Qeq_bool a 0 then NaN else if Qlt_bool 0 a then PosInf else NegInf
  | Num a, NegInf | NegInf, Num a =>
      if Qeq_bool a 0 then NaN else if Qlt_bool 0 a then NegInf else PosInf
  | PosInf, PosInf | NegInf, NegInf => PosInf
  | PosInf, NegInf | NegInf, PosInf => NegInf
  end.

(** [x / y]; the divisors of the source are never a negative zero. *)
Definition div (x y : number) : number :=
  match x, y with
  | NaN, _ | _, NaN => NaN
  | Num a, Num b =>
      if Qeq_bool b 0
      then (if Qeq_bool a 0 then NaN else if Qlt_bool 0 a then PosInf else NegInf)
      else Num (a / b)
  | Num _, (PosInf | NegInf) => Num 0
  | PosInf, Num b => if Qlt_bool b 0 then NegInf else PosInf
  | NegInf, Num b => if Qlt_bool b 0 then PosInf else NegInf
  | (PosInf | NegInf), (PosInf | NegInf) => NaN
  end.

(** [x === y] on numbers. *)
Definition strict_eq (x y : number) : bool :=
  match x, y with
  | Num a, Num b => Qeq_bool a b
  | PosInf, PosInf | NegInf, NegInf => true
  | _, _ => false
  end.

(** [x < y] *)
Definition lt (x y : number) : bool :=
  match x, y with
  | NaN, _ | _, NaN => false
  | Num a, Num b => Qlt_bool a b
  | NegInf, (Num _ | PosInf) => true
  | Num _, PosInf => true
  | _, _ => false
  end.

(** [Math.min(x, y)] and [Math.max(x, y)] *)
Definition min (x y : number) : number :=
  match x, y with
  | NaN, _ | _, NaN => NaN
  | _, _ => if lt y x then y else x
  end.

Definition max (x y : number) : number :=
  match x, y with
  | NaN, _ | _, NaN => NaN
  | _, _ => if lt x y then y else x
  end.

(** Integer part of a rational, rounding toward zero (the [truncate] of
    ECMAScript's integer conversions). *)
Definition truncate (q : Q) : Z := Z.quot (Qnum q) (Z.pos (Qden q)).

(** [ToInt16], applied when a number is stored into an [Int16Array]. *)
Definition toInt16 (x : number) : Z :=
  match x with
  | Num q => (truncate q + 32768) mod 65536 - 32768
  | _ => 0
  end.

(** Conversion to a Web IDL [unsigned long] (no [EnforceRange], no [Clamp]),
    applied to the first two arguments of [createBuffer]. *)
Definition toUint32 (x : number) : Z :=
  match x with
  | Num q => truncate q mod 4294967296
  | _ => 0
  end.

(** Exceptions the modelled platform calls can raise. *)
Inductive exn : Type :=
| NotSupportedError
| IndexSizeError
| RangeError
| InvalidCharacterError.

(** How a call ends: with a value, or with a thrown exception (for an
    [async] function: the promise fulfilled or rejected). *)
Inductive completion (A : Type) : Type :=
| Normal (a : A)
| Throw (e : exn).
Arguments Normal {A} a.
Arguments Throw {A} e.

(** A computation that writes console lines and may throw. *)
Definition M (A : Type) : Type := (list string * completion A)%type.

Definition warn (line : string) : M unit := ([line], Normal tt).
Definition lift {A} (c : completion A) : M A := ([], c).
Definition bind {A B} (m : M A) (k : A -> M B) : M B :=
  match m with
  | (w, Normal a) => let '(w', r) := k a in (w ++ w', r)
  | (w, Throw e) => (w, Throw e)
  end.

(** [ToIndex], applied to the length given to a typed-array constructor. *)
Definition toIndex (x : number) : completion nat :=
  match x with
  | Num q =>
      let i := truncate q in
      if (i <? 0) || (9007199254740991 <? i) then Throw RangeError
      else Normal (Z.to_nat i)
  | NaN => Normal 0%nat
  | PosInf | NegInf => Throw RangeError
  end.

(** Number of iterations of [for (let j = 0; j < bound; j++)].  With an
    infinite bound the loop would not end; the one loop of the source runs
    under [numChannels > 1], where its bound is finite
    (see [bufferLength_finite]). *)
Definition iterations (bound : number) : nat :=
  match bound with
  | Num q => Z.to_nat (Qceiling q)
  | _ => 0%nat
  end.

End Js.

Declare Scope js_scope.
Delimit Scope js_scope with js.
Notation "'let*' x ':=' m 'in' k" := (Js.bind m (fun x => k))
  (at level 10, x name, m at level 100, k at level 200) : js_scope.

(** ** PCM codec and audio buffer builder ([src/utils.ts]) *)
Module Utils.
Import Js.
Local Open Scope js_scope.

(** *** Typed arrays

    A [Uint8Array] is a list of bytes, an [Int16Array] a list of integers
    in [-32768, 32767], a [Float32Array] a list of numbers.  Views over a
    shared [ArrayBuffer] use the byte order of the host, little-endian on
    every platform the page runs on.  The byte arrays of the source are
    whole buffers ([byteOffset] is 0): [decode] allocates the array it
    returns. *)
Definition byteToZ (b : byte) : Z := Z.of_N (Byte.to_N b).
Definition byteOfZ (z : Z) : byte :=
  default x00 (Byte.of_N (Z.to_N (z mod 256))).

(** [new Uint8Array(int16.buffer)] *)
Definition Uint8Array_of_buffer (int16 : list Z) : list byte :=
  flat_map (fun v => let u := v mod 65536 in
                     [byteOfZ (u mod 256); byteOfZ (u / 256)]) int16.

(** One element of an [Int16Array] view: two bytes, low byte first, read
    as a two's-complement integer. *)
Definition int16le (b0 b1 : byte) : Z :=
  let u := byteToZ b0 + 256 * byteToZ b1 in
  if u <? 32768 then u else u - 65536.

(** [new Int16Array(data.buffer, data.byteOffset, length)] *)
Fixpoint Int16Array_of_buffer (data : list byte) (length : nat) : list Z :=
  match length, data with
  | S n, b0 :: b1 :: rest => int16le b0 b1 :: Int16Array_of_buffer rest n
  | _, _ => []
  end.

(** [new Float32Array(length)]: zero-filled. *)
Definition Float32Array_new (length : number) : completion (list number) :=
  match toIndex length with
  | Normal n => Normal (replicate n (Num 0))
  | Throw e => Throw e
  end.

(** [a[k]] read from a [Float32Array] and stored into another one: an index
    out of range reads [undefined], which is stored as NaN. *)
Definition Float32Array_get (a : list number) (k : nat) : number :=
  default NaN (a !! k).

(** *** Base64 ([btoa] and [atob])

    A binary string is the list of its char codes. *)
Definition base64Alphabet : string :=
  "ABCDEFGHIJKLMNOPQRSTUVWXYZabcdefghijklmnopqrstuvwxyz0123456789+/".

Definition base64Char (sextet : Z) : ascii :=
  default "="%char (String.get (Z.to_nat sextet) base64Alphabet).

Fixpoint btoa (binary : list Z) : string :=
  match binary with
  | [] => EmptyString
  | [a] =>
      String (base64Char (a / 4))
        (String (base64Char (a mod 4 * 16)) "==")
  | [a; b] =>
      String (base64Char (a / 4))
        (String (base64Char (a mod 4 * 16 + b / 16))
           (String (base64Char (b mod 16 * 4)) "="))
  | a :: b :: c :: rest =>
      String (base64Char (a / 4))
        (String (base64Char (a mod 4 * 16 + b / 16))
           (String (base64Char (b mod 16 * 4 + c / 64))
              (String (base64Char (c mod 64)) (btoa rest))))
  end.

(** [encode]: the bytes become the char codes of a binary string, which
    [btoa] encodes. *)
Definition encode (bytes : list byte) : string :=
  let binary := map byteToZ bytes in
  btoa binary.

(** ASCII whitespace: tab, line feed, form feed, carriage return, space. *)
Definition isWhitespace (c : ascii) : bool :=
  let n := nat_of_ascii c in
  (n =? 9)%nat || (n =? 10)%nat || (n =? 12)%nat || (n =? 13)%nat
  || (n =? 32)%nat.

Fixpoint indexFrom (c : ascii) (alphabet : list ascii) (i : Z) : option Z :=
  match alphabet with
  | [] => None
  | a :: rest => if Ascii.eqb c a then Some i else indexFrom c rest (i + 1)
  end.

Definition base64Sextet (c : ascii) : option Z :=
  indexFrom c (list_ascii_of_string base64Alphabet) 0.

(** One or two [=] at the very end are removed. *)
Fixpoint removePadding (data : list ascii) : list ascii :=
  match data with
  | [] => []
  | c :: rest =>
      if Ascii.eqb c "="
         && match rest with
            | [] => true
            | [d] => Ascii.eqb d "="
            | _ => false
            end
      then []
      else c :: removePadding rest
  end.

Fixpoint bytesOfSextets (sextets : list Z) : list Z :=
  match sextets with
  | a :: b :: c :: d :: rest =>
      (a * 4 + b / 16) :: (b mod 16 * 16 + c / 4) :: (c mod 4 * 64 + d)
      :: bytesOfSextets rest
  | [a; b; c] => [a * 4 + b / 16; b mod 16 * 16 + c / 4]
  | [a; b] => [a * 4 + b / 16]
  | _ => []
  end.

(** [atob]: the forgiving base64 decoding of the HTML standard. *)
Definition atob (data : string) : completion (list Z) :=
  let data :=
    List.filter (fun c => negb (isWhitespace c)) (list_ascii_of_string data) in
  let data :=
    if (length data mod 4 =? 0)%nat then removePadding data else data in
  if (length data mod 4 =? 1)%nat then Throw InvalidCharacterError
  else
    match mapM base64Sextet data with
    | None => Throw InvalidCharacterError
    | Some sextets => Normal (bytesOfSextets sextets)
    end.

(** [decode]: the char codes of the binary string [atob] returns. *)
Definition decode (base64 : string) : completion (list byte) :=
  match atob base64 with
  | Throw e => Throw e
  | Normal binaryString => Normal (map byteOfZ binaryString)
  end.

(** *** createBlob *)
Record Blob : Type := { data : string; mimeType : string }.

(** The value stored by [int16[i] = Math.max(-32768, Math.min(32767,
    data[i] * 32768))]. *)
Definition quantize (sample : number) : Z :=
  toInt16 (max (ofZ (-32768)) (min (ofZ 32767) (mul sample (ofZ 32768)))).

Definition int16_of_samples (data : list number) : list Z :=
  map quantize data.

Definition createBlob (data : list number) : Blob :=
  let int16 := int16_of_samples data in
  {| data := encode (Uint8Array_of_buffer int16);
     mimeType := "audio/pcm;rate=16000" |}.

(** *** The Web Audio objects [decodeAudioData] uses

    An [AudioContext] renders in quanta of 128 sample frames at its own
    sample rate; [currentTime] is the number of frames rendered so far
    divided by that rate.  [createBuffer] accepts a channel count up to an
    implementation limit (at least 32) and a sample rate within an
    implementation range (at least 8000 to 96000 Hz). *)
Record AudioContext : Type := {
  ctxSampleRate : positive;
  currentFrame : N;
  maxNumberOfChannels : Z;
  minSampleRate : Q;
  maxSampleRate : Q
}.

Definition currentTime (ctx : AudioContext) : Q :=
  Qmake (Z.of_N (currentFrame ctx)) (ctxSampleRate ctx).

Record AudioBuffer : Type := {
  buf_sampleRate : Q;
  buf_length : nat;
  buf_channels : list (list number)
}.

Definition numberOfChannels (b : AudioBuffer) : nat := length (buf_channels b).

(** [buffer.duration], in seconds. *)
Definition duration (b : AudioBuffer) : Q :=
  inject_Z (Z.of_nat (buf_length b)) / buf_sampleRate b.

(** [buffer.getChannelData(c)] *)
Definition getChannelData (b : AudioBuffer) (c : nat) : option (list number) :=
  buf_channels b !! c.

(** [ctx.createBuffer(numberOfChannels, length, sampleRate)]: throws a
    [NotSupportedError] when an argument is zero or outside its nominal
    range, and otherwise returns a zero-initialised (silent) buffer. *)
Definition createBuffer (ctx : AudioContext)
    (numberOfChannels length : number) (sampleRate : Q)
    : completion AudioBuffer :=
  let c := toUint32 numberOfChannels in
  let l := toUint32 length in
  if (c =? 0) || (maxNumberOfChannels ctx <? c) || (l =? 0)
     || Qlt_bool sampleRate (minSampleRate ctx)
     || Qlt_bool (maxSampleRate ctx) sampleRate
  then Throw NotSupportedError
  else Normal {| buf_sampleRate := sampleRate;
                 buf_length := Z.to_nat l;
                 buf_channels := replicate (Z.to_nat c)
                               (replicate (Z.to_nat l) (Num 0)) |}.

(** [buffer.copyToChannel(source, channelNumber)]: copies as many frames
    as fit; throws an [IndexSizeError] for a channel the buffer lacks. *)
Definition copyToChannel (buffer : AudioBuffer) (source : list number)
    (channelNumber : nat) : completion AudioBuffer :=
  match buf_channels buffer !! channelNumber with
  | None => Throw IndexSizeError
  | Some old =>
      let k := Nat.min (length source) (length old) in
      Normal {| buf_sampleRate := buf_sampleRate buffer;
                buf_length := buf_length buffer;
                buf_channels :=
                  <[channelNumber := take k source ++ drop k old]>
                    (buf_channels buffer) |}
  end.

(** [for (let i = 0; i < n; i++) body], where the body may throw. *)
Fixpoint for_each {S : Type} (indices : list nat)
    (body : nat -> S -> completion S) (s : S) : completion S :=
  match indices with
  | [] => Normal s
  | i :: rest =>
      match body i s with
      | Normal s' => for_each rest body s'
      | Throw e => Throw e
      end
  end.

(** *** decodeAudioData *)

(** A context with the limits every implementation supports, at the
    sample rate of the page. *)
Definition minimalContext : AudioContext :=
  {| ctxSampleRate := 48000; currentFrame := 0; maxNumberOfChannels := 32;
     minSampleRate := 8000; maxSampleRate := 96000 |}.

(** The inner loop: [channelData[j] = dataFloat32[j * numChannels + i]] for
    [j = 0; j < bufferLength; j++].  A store past the end of [channelData]
    does nothing. *)
Definition fillChannel (dataFloat32 : list number) (numChannels : nat)
    (bufferLength : number) (i : nat) (channelData : list number)
    : list number :=
  fold_left
    (fun cd j => <[j := Float32Array_get dataFloat32 (j * numChannels + i)]> cd)
    (seq 0 (iterations bufferLength)) channelData.

(** The body of the outer loop, for channel [i]. *)
Definition extractChannel (dataFloat32 : list number) (numChannels : nat)
    (bufferLength : number) (i : nat) (buffer : AudioBuffer)
    : completion AudioBuffer :=
  match Float32Array_new bufferLength with
  | Throw e => Throw e
  | Normal channelData =>
      copyToChannel buffer
        (fillChannel dataFloat32 numChannels bufferLength i channelData) i
  end.

(** The loop [dataFloat32[i] = dataInt16[i] / 32768.0]: the decoding half of
    the codec (the specification's [decodeSamples], once the bytes are
    viewed as 16-bit integers). *)
Definition float32_of_int16 (dataInt16 : list Z) : list number :=
  map (fun v => div (ofZ v) (Num 32768)) dataInt16.

Definition decodeAudioData (data : list byte) (ctx : AudioContext)
    (sampleRate : Q) (numChannels : Z) : M AudioBuffer :=
  let length := Z.of_nat (length data) in
  let byteLength := if length mod 2 =? 0 then length else length - 1 in
  let bufferLength := div (div (ofZ byteLength) (ofZ 2)) (ofZ numChannels) in
  if strict_eq bufferLength (ofZ 0) then
    let* _ := warn "Received empty or malformed audio data for decoding." in
    lift (createBuffer ctx
            (ofZ (if 0 <? numChannels then numChannels else 1)) (ofZ 1)
            sampleRate)
  else
    let* buffer := lift (createBuffer ctx (ofZ numChannels) bufferLength
                           sampleRate) in
    let dataInt16 := Int16Array_of_buffer data (Z.to_nat (byteLength / 2)) in
    let dataFloat32 := float32_of_int16 dataInt16 in
    if numChannels =? 1 then
      lift (copyToChannel buffer dataFloat32 0)
    else if 1 <? numChannels then
      lift (for_each (seq 0 (Z.to_nat numChannels))
              (extractChannel dataFloat32 (Z.to_nat numChannels) bufferLength)
              buffer)
    else
      let* _ := warn ("Invalid number of channels: "
                      ++ NilZero.string_of_int (Z.to_int numChannels)
                      ++ ". Cannot process audio data.") in
      lift (createBuffer ctx (ofZ 1) (ofZ 1) sampleRate).

(** The wire samples of a byte input: its 16-bit view, an odd trailing
    byte dropped. *)
Definition wireSamples (data : list byte) : list Z :=
  Int16Array_of_buffer data (length data / 2).

(** The specification's [decodeSamples]: the wire samples mapped to floats,
    as [decodeAudioData] does before it fills the channels. *)
Definition decodeSamples (data : list byte) : list number :=
  float32_of_int16 (wireSamples data).

(** The specification's [encodeSamples]: the bytes [createBlob] hands to
    [encode]. *)
Definition encodeSamples (data : list number) : list byte :=
  Uint8Array_of_buffer (int16_of_samples data).

(** The sextets [btoa] encodes a binary string into, and the padding it
    appends. *)
Fixpoint sextetsOf (binary : list Z) : list Z :=
  match binary with
  | [] => []
  | [a] => [a / 4; a mod 4 * 16]
  | [a; b] => [a / 4; a mod 4 * 16 + b / 16; b mod 16 * 4]
  | a :: b :: c :: rest =>
      a / 4 :: (a mod 4 * 16 + b / 16) :: (b mod 16 * 4 + c / 64) :: c mod 64
      :: sextetsOf rest
  end.

Definition sextet (s : Z) : Prop := 0 <= s < 64.

Fixpoint paddingOf (binary : list Z) : list ascii :=
  match binary with
  | [] => []
  | [_] => ["="%char; "="%char]
  | [_; _] => ["="%char]
  | _ :: _ :: _ :: rest => paddingOf rest
  end.

(** The range of an [Int16Array] element. *)
Definition is_int16 (v : Z) : Prop := -32768 <= v <= 32767.

(** A buffer as [createBuffer] makes it and the channel loop keeps it:
    every channel has [buf_length] frames. *)
Definition rectangular (buf : AudioBuffer) : Prop :=
  Forall (fun chan => length chan = buf_length buf) (buf_channels buf).

(** The frame count [decodeAudioData] computes, for a channel count other
    than zero. *)
Definition frameCount (data : list byte) (numChannels : Z) : Q :=
  (inject_Z (2 * Z.of_nat (length data / 2)) / inject_Z 2
   / inject_Z numChannels)%Q.

(** The quantiser as the specification words it, for comparison with
    [quantize]: [round(clamp(s, -1, 1) * 32768)], clamped to
    [-32768, 32767], with [round] rounding to the nearest integer (halves
    up, as [Math.round]). *)
Definition spec_clamp (s : Q) : Q :=
  (if Qlt_bool s (-1) then -1 else if Qlt_bool 1 s then 1 else s)%Q.

Definition spec_round (x : Q) : Z := Qfloor (x + (1 # 2))%Q.

Definition spec_quantize (s : Q) : Z :=
  Z.max (-32768) (Z.min 32767 (spec_round (spec_clamp s * 32768)%Q)).

End Utils.

(** ** The playback scheduler and the session callbacks ([src/index.tsx])

    Of the [PromptDj] component: the session callbacks [onmessage],
    [onerror] and [onclose], the transport controls [pauseAudio],
    [loadAudio] and [stopAudio] (where the play/pause button, a reset and a
    failed send end up), and the throttled senders [setSessionPrompts] and
    [updateSettings].  Gain automation, recording and rendering are left
    out; they touch none of the fields below.

    Times on the audio clock are in seconds, as exact rationals: the sum
    [nextStartTime += audioBuffer.duration] is taken without the rounding
    of doubles, which is enough for what one event does; the module
    [Doubles] below takes it with the rounding, for the properties of
    whole runs of buffers.  Readings of [Date.now()] and timer delays are
    in milliseconds. *)
Module Scheduler.
Import Js Utils.

Inductive PlaybackState : Type := stopped | playing | loading | paused.

Definition PlaybackState_eqb (a b : PlaybackState) : bool :=
  match a, b with
  | stopped, stopped | playing, playing | loading, loading
  | paused, paused => true
  | _, _ => false
  end.

Record Prompt : Type := {
  promptId : string;
  color : string;
  text : string;
  weight : Q
}.

(** A generation config is an object of numeric settings. *)
Definition LiveMusicGenerationConfig : Type := list (string * Q).

Record SettingsControllerState : Type := {
  musicGenerationConfig : LiveMusicGenerationConfig;
  showSpectrogram : bool
}.

(** The calls made on the [LiveMusicSession]. *)
Inductive SessionCommand : Type :=
| Play
| Pause
| Stop
| SetWeightedPrompts (weightedPrompts : list Prompt)
| SetMusicGenerationConfig (config : LiveMusicGenerationConfig).

(** The closure [onmessage] hands to [setTimeout]. *)
Inductive TimerCallback : Type :=
| LoadingToPlaying.     (* if (playbackState === 'loading') playbackState = 'playing' *)

Record Timer : Type := { callback : TimerCallback; delay : Q  (* milliseconds *) }.

(** A buffer source connected to a gain node and started at [when]. *)
Record Started : Type := {
  destination : nat;
  when : Q;
  buffer : AudioBuffer
}.

(** The fields of the [PromptDj] component the modelled methods read and
    write, and the calls they make on their collaborators. *)
Record PromptDj : Type := {
  audioContext : AudioContext;
  outputNode : nat;   (* identity of the current gain node *)
  nextStartTime : Q;
  playbackState : PlaybackState;
  prompts : list Prompt;
  filteredPrompts : gset string;
  session : bool;   (* whether [this.session] is set *)
  connectionError : bool;
  displaySpectrogram : bool;
  timers : list Timer;   (* pending [setTimeout] callbacks *)
  started : list Started;   (* the [source.start] calls so far, in order *)
  console : list string;
  toasts : list string;   (* [toastMessage.show] calls *)
  sent : list SessionCommand;   (* commands sent on the session *)
  setSessionPrompts_lastCall : Z;   (* [lastCall] of each throttle closure *)
  updateSettings_lastCall : Z
}.

(** Field updates. *)
Definition set_audioContext (v : AudioContext) (dj : PromptDj) : PromptDj :=
  {| audioContext := v; outputNode := outputNode dj;
     nextStartTime := nextStartTime dj; playbackState := playbackState dj;
     prompts := prompts dj; filteredPrompts := filteredPrompts dj;
     session := session dj; connectionError := connectionError dj;
     displaySpectrogram := displaySpectrogram dj; timers := timers dj;
     started := started dj; console := console dj; toasts := toasts dj;
     sent := sent dj;
     setSessionPrompts_lastCall := setSessionPrompts_lastCall dj;
     updateSettings_lastCall := updateSettings_lastCall dj |}.
Definition set_outputNode (v : nat) (dj : PromptDj) : PromptDj :=
  {| audioContext := audioContext dj; outputNode := v;
     nextStartTime := nextStartTime dj; playbackState := playbackState dj;
     prompts := prompts dj; filteredPrompts := filteredPrompts dj;
     session := session dj; connectionError := connectionError dj;
     displaySpectrogram := displaySpectrogram dj; timers := timers dj;
     started := started dj; console := console dj; toasts := toasts dj;
     sent := sent dj;
     setSessionPrompts_lastCall := setSessionPrompts_lastCall dj;
     updateSettings_lastCall := updateSettings_lastCall dj |}.
Definition set_nextStartTime (v : Q) (dj : PromptDj) : PromptDj :=
  {| audioContext := audioContext dj; outputNode := outputNode dj;
     nextStartTime := v; playbackState := playbackState dj;
     prompts := prompts dj; filteredPrompts := filteredPrompts dj;
     session := session dj; connectionError := connectionError dj;
     displaySpectrogram := displaySpectrogram dj; timers := timers dj;
     started := started dj; console := console dj; toasts := toasts dj;
     sent := sent dj;
     setSessionPrompts_lastCall := setSessionPrompts_lastCall dj;
     updateSettings_lastCall := updateSettings_lastCall dj |}.
Definition set_playbackState (v : PlaybackState) (dj : PromptDj) : PromptDj :=
  {| audioContext := audioContext dj; outputNode := outputNode dj;
     nextStartTime := nextStartTime dj; playbackState := v;
     prompts := prompts dj; filteredPrompts := filteredPrompts dj;
     session := session dj; connectionError := connectionError dj;
     displaySpectrogram := displaySpectrogram dj; timers := timers dj;
     started := started dj; console := console dj; toasts := toasts dj;
     sent := sent dj;
     setSessionPrompts_lastCall := setSessionPrompts_lastCall dj;
     updateSettings_lastCall := updateSettings_lastCall dj |}.
Definition set_prompts (v : list Prompt) (dj : PromptDj) : PromptDj :=
  {| audioContext := audioContext dj; outputNode := outputNode dj;
     nextStartTime := nextStartTime dj; playbackState := playbackState dj;
     prompts := v; filteredPrompts := filteredPrompts dj;
     session := session dj; connectionError := connectionError dj;
     displaySpectrogram := displaySpectrogram dj; timers := timers dj;
     started := started dj; console := console dj; toasts := toasts dj;
     sent := sent dj;
     setSessionPrompts_lastCall := setSessionPrompts_lastCall dj;
     updateSettings_lastCall := updateSettings_lastCall dj |}.
Definition set_filteredPrompts (v : gset string) (dj : PromptDj) : PromptDj :=
  {| audioContext := audioContext dj; outputNode := outputNode dj;
     nextStartTime := nextStartTime dj; playbackState := playbackState dj;
     prompts := prompts dj; filteredPrompts := v; session := session dj;
     connectionError := connectionError dj;
     displaySpectrogram := displaySpectrogram dj; timers := timers dj;
     started := started dj; console := console dj; toasts := toasts dj;
     sent := sent dj;
     setSessionPrompts_lastCall := setSessionPrompts_lastCall dj;
     updateSettings_lastCall := updateSettings_lastCall dj |}.
Definition set_session (v : bool) (dj : PromptDj) : PromptDj :=
  {| audioContext := audioContext dj; outputNode := outputNode dj;
     nextStartTime := nextStartTime dj; playbackState := playbackState dj;
     prompts := prompts dj; filteredPrompts := filteredPrompts dj;
     session := v; connectionError := connectionError dj;
     displaySpectrogram := displaySpectrogram dj; timers := timers dj;
     started := started dj; console := console dj; toasts := toasts dj;
     sent := sent dj;
     setSessionPrompts_lastCall := setSessionPrompts_lastCall dj;
     updateSettings_lastCall := updateSettings_lastCall dj |}.
Definition set_connectionError (v : bool) (dj : PromptDj) : PromptDj :=
  {| audioContext := audioContext dj; outputNode := outputNode dj;
     nextStartTime := nextStartTime dj; playbackState := playbackState dj;
     prompts := prompts dj; filteredPrompts := filteredPrompts dj;
     session := session dj; connectionError := v;
     displaySpectrogram := displaySpectrogram dj; timers := timers dj;
     started := started dj; console := console dj; toasts := toasts dj;
     sent := sent dj;
     setSessionPrompts_lastCall := setSessionPrompts_lastCall dj;
     updateSettings_lastCall := updateSettings_lastCall dj |}.
Definition set_displaySpectrogram (v : bool) (dj : PromptDj) : PromptDj :=
  {| audioContext := audioContext dj; outputNode := outputNode dj;
     nextStartTime := nextStartTime dj; playbackState := playbackState dj;
     prompts := prompts dj; filteredPrompts := filteredPrompts dj;
     session := session dj; connectionError := connectionError dj;
     displaySpectrogram := v; timers := timers dj; started := started dj;
     console := console dj; toasts := toasts dj; sent := sent dj;
     setSessionPrompts_lastCall := setSessionPrompts_lastCall dj;
     updateSettings_lastCall := updateSettings_lastCall dj |}.
Definition set_timers (v : list Timer) (dj : PromptDj) : PromptDj :=
  {| audioContext := audioContext dj; outputNode := outputNode dj;
     nextStartTime := nextStartTime dj; playbackState := playbackState dj;
     prompts := prompts dj; filteredPrompts := filteredPrompts dj;
     session := session dj; connectionError := connectionError dj;
     displaySpectrogram := displaySpectrogram dj; timers := v;
     started := started dj; console := console dj; toasts := toasts dj;
     sent := sent dj;
     setSessionPrompts_lastCall := setSessionPrompts_lastCall dj;
     updateSettings_lastCall := updateSettings_lastCall dj |}.
Definition set_started (v : list Started) (dj : PromptDj) : PromptDj :=
  {| audioContext := audioContext dj; outputNode := outputNode dj;
     nextStartTime := nextStartTime dj; playbackState := playbackState dj;
     prompts := prompts dj; filteredPrompts := filteredPrompts dj;
     session := session dj; connectionError := connectionError dj;
     displaySpectrogram := displaySpectrogram dj; timers := timers dj;
     started := v; console := console dj; toasts := toasts dj;
     sent := sent dj;
     setSessionPrompts_lastCall := setSessionPrompts_lastCall dj;
     updateSettings_lastCall := updateSettings_lastCall dj |}.
Definition set_console (v : list string) (dj : PromptDj) : PromptDj :=
  {| audioContext := audioContext dj; outputNode := outputNode dj;
     nextStartTime := nextStartTime dj; playbackState := playbackState dj;
     prompts := prompts dj; filteredPrompts := filteredPrompts dj;
     session := session dj; connectionError := connectionError dj;
     displaySpectrogram := displaySpectrogram dj; timers := timers dj;
     started := started dj; console := v; toasts := toasts dj;
     sent := sent dj;
     setSessionPrompts_lastCall := setSessionPrompts_lastCall dj;
     updateSettings_lastCall := updateSettings_lastCall dj |}.
Definition set_toasts (v : list string) (dj : PromptDj) : PromptDj :=
  {| audioContext := audioContext dj; outputNode := outputNode dj;
     nextStartTime := nextStartTime dj; playbackState := playbackState dj;
     prompts := prompts dj; filteredPrompts := filteredPrompts dj;
     session := session dj; connectionError := connectionError dj;
     displaySpectrogram := displaySpectrogram dj; timers := timers dj;
     started := started dj; console := console dj; toasts := v;
     sent := sent dj;
     setSessionPrompts_lastCall := setSessionPrompts_lastCall dj;
     updateSettings_lastCall := updateSettings_lastCall dj |}.
Definition set_sent (v : list SessionCommand) (dj : PromptDj) : PromptDj :=
  {| audioContext := audioContext dj; outputNode := outputNode dj;
     nextStartTime := nextStartTime dj; playbackState := playbackState dj;
     prompts := prompts dj; filteredPrompts := filteredPrompts dj;
     session := session dj; connectionError := connectionError dj;
     displaySpectrogram := displaySpectrogram dj; timers := timers dj;
     started := started dj; console := console dj; toasts := toasts dj;
     sent := v; setSessionPrompts_lastCall := setSessionPrompts_lastCall dj;
     updateSettings_lastCall := updateSettings_lastCall dj |}.
Definition set_setSessionPrompts_lastCall (v : Z) (dj : PromptDj) : PromptDj :=
  {| audioContext := audioContext dj; outputNode := outputNode dj;
     nextStartTime := nextStartTime dj; playbackState := playbackState dj;
     prompts := prompts dj; filteredPrompts := filteredPrompts dj;
     session := session dj; connectionError := connectionError dj;
     displaySpectrogram := displaySpectrogram dj; timers := timers dj;
     started := started dj; console := console dj; toasts := toasts dj;
     sent := sent dj; setSessionPrompts_lastCall := v;
     updateSettings_lastCall := updateSettings_lastCall dj |}.
Definition set_updateSettings_lastCall (v : Z) (dj : PromptDj) : PromptDj :=
  {| audioContext := audioContext dj; outputNode := outputNode dj;
     nextStartTime := nextStartTime dj; playbackState := playbackState dj;
     prompts := prompts dj; filteredPrompts := filteredPrompts dj;
     session := session dj; connectionError := connectionError dj;
     displaySpectrogram := displaySpectrogram dj; timers := timers dj;
     started := started dj; console := console dj; toasts := toasts dj;
     sent := sent dj;
     setSessionPrompts_lastCall := setSessionPrompts_lastCall dj;
     updateSettings_lastCall := v |}.

Definition log (line : string) (dj : PromptDj) : PromptDj :=
  set_console (console dj ++ [line]) dj.
Definition show (message : string) (dj : PromptDj) : PromptDj :=
  set_toasts (toasts dj ++ [message]) dj.
Definition send (command : SessionCommand) (dj : PromptDj) : PromptDj :=
  set_sent (sent dj ++ [command]) dj.

Definition sampleRate : Q := 48000.
Definition bufferTime : Q := 2.

(** The component as its constructor leaves it. *)
Definition init (ctx : AudioContext) (initialPrompts : list Prompt) : PromptDj :=
  {| audioContext := ctx; outputNode := 0%nat; nextStartTime := 0;
     playbackState := stopped; prompts := initialPrompts;
     filteredPrompts := ∅; session := false; connectionError := true;
     displaySpectrogram := true; timers := []; started := [];
     console := []; toasts := []; sent := [];
     setSessionPrompts_lastCall := 0; updateSettings_lastCall := 0 |}.

(** *** Inbound messages *)
Record FilteredPrompt : Type := {
  filteredText : string;             (* [filteredPrompt.text] *)
  filteredReason : string
}.

(** A server message.  Each audio chunk is given by its [data], the
    base64 text of its bytes. *)
Record LiveMusicServerMessage : Type := {
  setupComplete : bool;
  filteredPrompt : option FilteredPrompt;
  audioChunks : option (list string)
}.

(** The callback armed by the first buffer of a run. *)
Definition runTimer (cb : TimerCallback) (dj : PromptDj) : PromptDj :=
  match cb with
  | LoadingToPlaying =>
      if PlaybackState_eqb (playbackState dj) loading
      then set_playbackState playing dj
      else dj
  end.

(** [setTimeout(cb, ms)] *)
Definition setTimeout (cb : TimerCallback) (ms : Q) (dj : PromptDj) : PromptDj :=
  set_timers (timers dj ++ [{| callback := cb; delay := ms |}]) dj.

(** The specification's [onSegmentDecoded]: what [onmessage] does with a
    decoded buffer, from [createBufferSource] to the end of the callback. *)
Definition onSegmentDecoded (audioBuffer : AudioBuffer) (dj : PromptDj)
    : PromptDj :=
  let now := currentTime (audioContext dj) in
  let dj :=
    if Qeq_bool (nextStartTime dj) 0 then
      setTimeout LoadingToPlaying (bufferTime * 1000)
        (set_nextStartTime (now + bufferTime) dj)
    else dj in
  let dj :=
    if Qlt_bool (nextStartTime dj) now then
      set_nextStartTime (now + bufferTime)
        (set_playbackState loading
           (log "Audio buffer underrun" dj))
    else dj in
  let dj :=
    set_started (started dj ++ [{| destination := outputNode dj;
                                   when := nextStartTime dj;
                                   buffer := audioBuffer |}]) dj in
  set_nextStartTime (nextStartTime dj + duration audioBuffer) dj.

(** [onmessage].  The callback is asynchronous, but its only [await] is on
    [decodeAudioData], which never suspends: the rest of the callback runs
    before any other event is handled.  A thrown exception rejects the
    promise of the callback and ends it there. *)
Definition onmessage (e : LiveMusicServerMessage) (dj : PromptDj) : PromptDj :=
  let dj := log "Received message from the server: %s\n" dj in
  let dj := if setupComplete e then set_connectionError false dj else dj in
  let dj :=
    match filteredPrompt e with
    | Some fp =>
        show (filteredReason fp)
          (set_filteredPrompts (filteredPrompts dj ∪ {[ filteredText fp ]}) dj)
    | None => dj
    end in
  match audioChunks e with
  | None => dj
  | Some chunks =>
      match playbackState dj with
      | paused | stopped => dj
      | _ =>
          match chunks with
          | [] => dj                  (* [audioChunks[0]] is undefined: TypeError *)
          | chunk :: _ =>
              match decode chunk with
              | Throw _ => dj
              | Normal bytes =>
                  let '(lines, result) :=
                    decodeAudioData bytes (audioContext dj) sampleRate 2 in
                  let dj := set_console (console dj ++ lines) dj in
                  match result with
                  | Throw _ => dj
                  | Normal audioBuffer => onSegmentDecoded audioBuffer dj
                  end
              end
          end
      end
  end.

(** *** Transport controls *)
Definition sessionUsable (dj : PromptDj) : bool :=
  session dj && negb (connectionError dj).

(** A fresh gain node replaces [outputNode]; the sources started so far
    stay connected to the old, disconnected one. *)
Definition replaceOutputNode (dj : PromptDj) : PromptDj :=
  set_outputNode (S (outputNode dj)) dj.

Definition pauseAudio (dj : PromptDj) : PromptDj :=
  let dj := if sessionUsable dj then send Pause dj else dj in
  let dj := set_playbackState paused dj in
  let dj := replaceOutputNode dj in
  set_nextStartTime 0 dj.

Definition loadAudio (dj : PromptDj) : PromptDj :=
  let dj := if sessionUsable dj then send Play dj else dj in
  set_playbackState loading dj.

Definition stopAudio (dj : PromptDj) : PromptDj :=
  let dj := if sessionUsable dj then send Stop dj else dj in
  let dj := set_playbackState stopped dj in
  let dj := set_nextStartTime 0 dj in
  replaceOutputNode dj.

Definition onerror (dj : PromptDj) : PromptDj :=
  let dj := log "Error occurred:" dj in
  let dj := set_connectionError true dj in
  let dj := stopAudio dj in
  show "Connection error. Please try restarting audio." dj.

Definition onclose (dj : PromptDj) : PromptDj :=
  let dj := log "Connection closed." dj in
  let dj := set_connectionError true dj in
  let dj :=
    match playbackState dj with
    | stopped | paused => dj
    | _ => stopAudio dj
    end in
  show "Connection closed. Please try restarting audio." dj.

(** *** Throttled senders *)

(** [throttle(func, delay)]: the returned closure, given the value of its
    [lastCall] and the reading [now] of [Date.now()]; it returns the new
    [lastCall]. *)
Definition throttle {A : Type} (func : A -> PromptDj -> PromptDj) (delay : Z)
    (lastCall now : Z) (args : A) (dj : PromptDj) : Z * PromptDj :=
  let timeSinceLastCall := now - lastCall in
  if delay <=? timeSinceLastCall then (now, func args dj)
  else (lastCall, dj).

(** The prompts a send carries: those not filtered and of weight other
    than zero. *)
Definition promptsToSend (filtered : gset string) (prompts : list Prompt)
    : list Prompt :=
  List.filter
    (fun p => negb (bool_decide (text p ∈ filtered))
              && negb (Qeq_bool (weight p) 0))
    prompts.

(** The function throttled as [setSessionPrompts], up to the [await] of the
    send; a send that is rejected later runs [setWeightedPromptsRejected]. *)
Definition sendSessionPrompts (_ : unit) (dj : PromptDj) : PromptDj :=
  if negb (session dj) || connectionError dj then
    log "Session not available or connection error, skipping setSessionPrompts." dj
  else
    send (SetWeightedPrompts (promptsToSend (filteredPrompts dj) (prompts dj)))
      dj.

(** The [catch] branch of [setSessionPrompts], with the message of the
    error. *)
Definition setWeightedPromptsRejected (message : string) (dj : PromptDj)
    : PromptDj :=
  let dj :=
    show (if String.eqb message "" then "Error setting prompts." else message)
      dj in
  pauseAudio dj.

Definition setSessionPrompts (now : Z) (dj : PromptDj) : PromptDj :=
  let '(lastCall, dj) :=
    throttle sendSessionPrompts 200 (setSessionPrompts_lastCall dj) now tt dj in
  set_setSessionPrompts_lastCall lastCall dj.

(** The function throttled as [updateSettings], up to the [await] of the
    send; a send that is rejected later runs
    [setMusicGenerationConfigRejected]. *)
Definition sendSettings (e : SettingsControllerState) (dj : PromptDj)
    : PromptDj :=
  let dj := set_displaySpectrogram (showSpectrogram e) dj in
  let musicConfig := musicGenerationConfig e in
  if negb (session dj) || connectionError dj then dj
  else send (SetMusicGenerationConfig musicConfig) dj.

Definition setMusicGenerationConfigRejected (message : string)
    (dj : PromptDj) : PromptDj :=
  let dj :=
    show (if String.eqb message "" then "Error updating settings." else message)
      dj in
  log "Error setting music generation config:" dj.

Definition updateSettings (now : Z) (e : SettingsControllerState)
    (dj : PromptDj) : PromptDj :=
  let '(lastCall, dj) :=
    throttle sendSettings 200 (updateSettings_lastCall dj) now e dj in
  set_updateSettings_lastCall lastCall dj.

(** *** Events

    Everything happens on one thread, one event at a time.  A pending timer
    may fire at any later point; the audio clock advances by whole render
    quanta between events. *)
Inductive Event : Type :=
| OnMessage (e : LiveMusicServerMessage)
| OnError
| OnClose
| TimerFires (k : nat)                       (* the [k]-th pending timer *)
| Render (quanta : N)
| PauseAudio
| LoadAudio
| StopAudio
| PromptsEdited (now : Z) (newPrompts : list Prompt)
| SettingsChanged (now : Z) (e : SettingsControllerState)
| PromptsRejected (message : string)
| SettingsRejected (message : string).

Definition advance (quanta : N) (ctx : AudioContext) : AudioContext :=
  {| ctxSampleRate := ctxSampleRate ctx;
     currentFrame := (currentFrame ctx + 128 * quanta)%N;
     maxNumberOfChannels := maxNumberOfChannels ctx;
     minSampleRate := minSampleRate ctx;
     maxSampleRate := maxSampleRate ctx |}.

Definition step (ev : Event) (dj : PromptDj) : PromptDj :=
  match ev with
  | OnMessage e => onmessage e dj
  | OnError => onerror dj
  | OnClose => onclose dj
  | TimerFires k =>
      match timers dj !! k with
      | Some t => runTimer (callback t) (set_timers (delete k (timers dj)) dj)
      | None => dj
      end
  | Render quanta => set_audioContext (advance quanta (audioContext dj)) dj
  | PauseAudio => pauseAudio dj
  | LoadAudio => loadAudio dj
  | StopAudio => stopAudio dj
  | PromptsEdited now newPrompts =>
      setSessionPrompts now (set_prompts newPrompts dj)
  | SettingsChanged now e => updateSettings now e dj
  | PromptsRejected message => setWeightedPromptsRejected message dj
  | SettingsRejected message => setMusicGenerationConfigRejected message dj
  end.

Definition run (evs : list Event) (dj : PromptDj) : PromptDj :=
  fold_left (fun dj ev => step ev dj) evs dj.

(** The component once [connectToSession] has succeeded. *)
Definition connected (dj : PromptDj) : PromptDj :=
  set_connectionError false (set_session true dj).

(** *** Vocabulary for the properties of runs *)

(** A message that carries one audio chunk and nothing else. *)
Definition audioMessage (chunk : string) : LiveMusicServerMessage :=
  {| setupComplete := false; filteredPrompt := None;
     audioChunks := Some [chunk] |}.


(** The component after the user has pressed play on a fresh page. *)
Definition freshlyLoading : PromptDj := loadAudio (init minimalContext []).

(** The states in which decoded audio is accepted. *)
Definition accepting (dj : PromptDj) : bool :=
  match playbackState dj with
  | loading | playing => true
  | paused | stopped => false
  end.

(** The buffer [onmessage] hands to the scheduler for message [e], if the
    message carries a chunk that decodes. *)
Definition decodedBuffer (e : LiveMusicServerMessage) (dj : PromptDj)
    : option AudioBuffer :=
  match audioChunks e with
  | Some (chunk :: _) =>
      match decode chunk with
      | Normal bytes =>
          match decodeAudioData bytes (audioContext dj) sampleRate 2 with
          | (_, Normal audioBuffer) => Some audioBuffer
          | (_, Throw _) => None
          end
      | Throw _ => None
      end
  | _ => None
  end.

(** An underrun: the cursor is initialised and behind the audio clock. *)
Definition underrun (dj : PromptDj) : bool :=
  negb (Qeq_bool (nextStartTime dj) 0)
  && Qlt_bool (nextStartTime dj) (currentTime (audioContext dj)).

(** The throttle as a filter over a burst of calls, each with the reading
    of [Date.now()] at which it is made: a call passes when at least [delay]
    milliseconds separate it from the last call that passed. *)
Fixpoint passing {A : Type} (delay lastCall : Z) (calls : list (Z * A))
    : list (Z * A) :=
  match calls with
  | [] => []
  | (now, a) :: rest =>
      if delay <=? now - lastCall
      then (now, a) :: passing delay now rest
      else passing delay lastCall rest
  end.

(** Readings at least [delay] apart from one another and from [lastCall]. *)
Fixpoint spaced (delay lastCall : Z) (times : list Z) : Prop :=
  match times with
  | [] => True
  | t :: rest => delay <= t - lastCall ∧ spaced delay t rest
  end.

(** A burst of prompt edits, and a burst of settings changes. *)
Definition promptEdits (calls : list (Z * list Prompt)) : list Event :=
  map (fun c => PromptsEdited (fst c) (snd c)) calls.

Definition settingsChanges (calls : list (Z * SettingsControllerState))
    : list Event :=
  map (fun c => SettingsChanged (fst c) (snd c)) calls.

(** A prompt of the page, at a given weight. *)
Definition bossaNova (weight : Q) : Prompt :=
  {| promptId := "prompt-0"; color := "#9900ff"; text := "Bossa Nova";
     weight := weight |}.

(** What the specification asks of the throttle: once a burst of prompt
    edits is over, the last command sent carries the most recent prompts. *)
Definition latest_prompts_sent (dj : PromptDj) : Prop :=
  last (sent dj)
  = Some (SetWeightedPrompts (promptsToSend (filteredPrompts dj) (prompts dj))).

(** The part of the component the scheduler reads and writes. *)
Definition schedule (dj : PromptDj) :=
  (audioContext dj, outputNode dj, nextStartTime dj, playbackState dj,
   timers dj, started dj).




End Scheduler.

(** ** Double arithmetic

    [binary64 x] is the double nearest to the real number [x], a tie going
    to the even significand: the result JavaScript gives for a sum or a
    quotient whose exact value is [x].  A double other than zero is an
    integer of at most 53 bits times a power of two, the exponent at least
    -1074 (the subnormals); [exponent x] is the exponent of the doubles
    next to [x].  The exponent is not bounded above: a value of 2^1024 or
    more, which JavaScript turns into an infinity, is rounded like any
    other.  The audio clock counts seconds and stays far below. *)
Module Binary64.

Definition pow2 (k : Z) : Q := Qpower 2 k.

(** The integer part of the binary logarithm of a positive rational. *)
Definition ilog2 (x : Q) : Z :=
  let k := Z.log2 (Qnum x) - Z.log2 (Z.pos (Qden x)) in
  if Qle_bool (pow2 k) x then k else k - 1.

Definition roundTiesToEven (x : Q) : Z :=
  let below := Qfloor x in
  match (x - inject_Z below ?= 1 # 2)%Q with
  | Lt => below
  | Gt => below + 1
  | Eq => if Z.even below then below else below + 1
  end.

Definition exponent (x : Q) : Z := Z.max (-1074) (ilog2 (Qabs x) - 52).

Definition binary64 (x : Q) : Q :=
  if Qeq_bool x 0 then 0%Q
  else Qred (inject_Z (roundTiesToEven (x / pow2 (exponent x)))
             * pow2 (exponent x)).


End Binary64.

(** ** The scheduler on doubles

    [AudioContext.currentTime], [AudioBuffer.duration] and the field
    [nextStartTime] are doubles, and [onmessage] adds and compares them as
    such.  Over one buffer the rounding moves a start time by less than
    the last place; over a run of buffers it decides which branch is
    taken: the sum [nextStartTime += audioBuffer.duration] can round below
    the exact end of the buffer, and the next buffer then meets an underrun
    where the exact cursor is level with the clock.  This module repeats
    [onmessage] with every quotient and sum rounded, for the properties of
    whole runs; the other events are those of [Scheduler].

    [currentTime] is the double nearest to the frames rendered divided by
    the sample rate, and [duration] the double nearest to the length
    divided by the sample rate.  The timer delay [bufferTime * 1000] is
    2000, exactly. *)
Module Doubles.
Import Js Utils Scheduler Binary64.

Definition currentTime (ctx : AudioContext) : Q :=
  binary64 (Utils.currentTime ctx).

Definition duration (b : AudioBuffer) : Q := binary64 (Utils.duration b).

(** [onmessage] from [if (this.nextStartTime === 0)] on. *)
Definition onSegmentDecoded (audioBuffer : AudioBuffer) (dj : PromptDj)
    : PromptDj :=
  let now := currentTime (audioContext dj) in
  let dj :=
    if Qeq_bool (nextStartTime dj) 0 then
      setTimeout LoadingToPlaying (bufferTime * 1000)
        (set_nextStartTime (binary64 (now + bufferTime)) dj)
    else dj in
  let dj :=
    if Qlt_bool (nextStartTime dj) now then
      set_nextStartTime (binary64 (now + bufferTime))
        (set_playbackState loading
           (log "Audio buffer underrun" dj))
    else dj in
  let dj :=
    set_started (started dj ++ [{| destination := outputNode dj;
                                   when := nextStartTime dj;
                                   buffer := audioBuffer |}]) dj in
  set_nextStartTime (binary64 (nextStartTime dj + duration audioBuffer)) dj.

Definition onmessage (e : LiveMusicServerMessage) (dj : PromptDj) : PromptDj :=
  let dj := log "Received message from the server: %s\n" dj in
  let dj := if setupComplete e then set_connectionError false dj else dj in
  let dj :=
    match filteredPrompt e with
    | Some fp =>
        show (filteredReason fp)
          (set_filteredPrompts (filteredPrompts dj ∪ {[ filteredText fp ]}) dj)
    | None => dj
    end in
  match audioChunks e with
  | None => dj
  | Some chunks =>
      match playbackState dj with
      | paused | stopped => dj
      | _ =>
          match chunks with
          | [] => dj                  (* [audioChunks[0]] is undefined: TypeError *)
          | chunk :: _ =>
              match decode chunk with
              | Throw _ => dj
              | Normal bytes =>
                  let '(lines, result) :=
                    decodeAudioData bytes (audioContext dj) sampleRate 2 in
                  let dj := set_console (console dj ++ lines) dj in
                  match result with
                  | Throw _ => dj
                  | Normal audioBuffer => onSegmentDecoded audioBuffer dj
                  end
              end
          end
      end
  end.

Definition step (ev : Event) (dj : PromptDj) : PromptDj :=
  match ev with
  | OnMessage e => onmessage e dj
  | _ => Scheduler.step ev dj
  end.

Definition run (evs : list Event) (dj : PromptDj) : PromptDj :=
  fold_left (fun dj ev => step ev dj) evs dj.

(** *** Vocabulary for the properties of runs *)

(** An underrun: the cursor is initialised and behind the audio clock. *)
Definition underrun (dj : PromptDj) : bool :=
  negb (Qeq_bool (nextStartTime dj) 0)
  && Qlt_bool (nextStartTime dj) (currentTime (audioContext dj)).







End Doubles.

(** ** Prompt presets and colours ([src/index.tsx], top level)

    [getUnusedRandomColor], and the branch of [getStoredPrompts] that
    builds the prompts of a page with nothing stored.  The other branch
    goes through [JSON.parse] and is left out. *)
Module Presets.
Import Scheduler.

Definition PROMPT_TEXT_PRESETS : list string :=
  ["Bossa Nova"; "Minimal Techno"; "Drum and Bass"; "Post Punk"; "Shoegaze";
   "Funk"; "Chiptune"; "Lush Strings"; "Sparkling Arpeggios";
   "Staccato Rhythms"; "Punchy Kick"; "Dubstep"; "K Pop"; "Neo Soul";
   "Trip Hop"; "Thrash"]%string.

Definition COLORS : list string :=
  ["#9900ff"; "#5200ff"; "#ff25f6"; "#2af6de"; "#ffdd28"; "#3dffab";
   "#d8ff3e"; "#d9b2ff"]%string.

(** [Math.floor(Math.random() * n)], for the value [random] that
    [Math.random()] returns: a number at least 0 and less than 1.  The
    product is taken exactly; its rounding to a double stays below [n]. *)
Definition randomIndex (random : Q) (n : nat) : nat :=
  Z.to_nat (Qfloor (random * inject_Z (Z.of_nat n))).

(** [usedColors.includes(c)] *)
Definition includes (usedColors : list string) (c : string) : bool :=
  existsb (String.eqb c) usedColors.

(** [getUnusedRandomColor]; [None] is [undefined], what an array read out
    of range gives. *)
Definition getUnusedRandomColor (random : Q) (usedColors : list string)
    : option string :=
  let availableColors :=
    List.filter (fun c => negb (includes usedColors c)) COLORS in
  if (length availableColors =? 0)%nat then
    COLORS !! randomIndex random (length COLORS)
  else
    availableColors !! randomIndex random (length availableColors).

(** The template literal [`prompt-${i}`]. *)
Definition promptIdOf (i : nat) : string :=
  "prompt-" ++ NilZero.string_of_uint (Nat.to_uint i).

Definition set_weight (v : Q) (p : Prompt) : Prompt :=
  {| promptId := promptId p; color := color p; text := text p; weight := v |}.

(** The loop of [getStoredPrompts] that fills [defaultPrompts], from
    iteration [i] on, [n] iterations to go.  [random i] is the value
    [Math.random()] returns in iteration [i].  [None]: a text or a colour
    read as [undefined], which a [Prompt] does not hold. *)
Fixpoint defaultPromptsFrom (shuffledPresetTexts : list string)
    (random : nat -> Q) (i n : nat) (usedColors : list string)
    (defaultPrompts : list Prompt) : option (list Prompt) :=
  match n with
  | O => Some defaultPrompts
  | S n' =>
      match shuffledPresetTexts !! i,
            getUnusedRandomColor (random i) usedColors with
      | Some text, Some color =>
          defaultPromptsFrom shuffledPresetTexts random (S i) n'
            (usedColors ++ [color])
            (defaultPrompts
             ++ [{| promptId := promptIdOf i; color := color; text := text;
                    weight := 0 |}])
      | _, _ => None
      end
  end.

(** [promptsToActivate[i].weight = 1].  The array [promptsToActivate] holds
    the objects of [defaultPrompts] in another order; [order !! i] is the
    index in [defaultPrompts] of its [i]-th element, so the assignment
    shows in [defaultPrompts]. *)
Definition activate (order : list nat) (defaultPrompts : list Prompt)
    (i : nat) : list Prompt :=
  match order !! i with
  | Some k => alter (set_weight 1) k defaultPrompts
  | None => defaultPrompts
  end.

(** [getStoredPrompts] when nothing is stored: the prompts of the map it
    returns, in insertion order.  The two [sort] calls with a random
    comparator are given by their results: [shuffledPresetTexts], and the
    [order] of [promptsToActivate]. *)
Definition presetPrompts (shuffledPresetTexts : list string)
    (random : nat -> Q) (order : list nat) : option (list Prompt) :=
  let numDefaultPrompts := Nat.min 4 (length PROMPT_TEXT_PRESETS) in
  match defaultPromptsFrom shuffledPresetTexts random 0 numDefaultPrompts
          [] [] with
  | None => None
  | Some defaultPrompts =>
      let numToActivate := Nat.min 2 (length defaultPrompts) in
      Some (fold_left (activate order) (seq 0 numToActivate) defaultPrompts)
  end.

(** A draw of [Math.random()]. *)
Definition unit_interval (random : Q) : Prop := (0 <= random < 1)%Q.

End Presets.

(** ** The prompt handlers and the transport buttons ([src/index.tsx])

    [this.prompts] is a [Map] from prompt ids to prompts.  Every map the
    page builds holds each prompt under its own [promptId]
    ([getStoredPrompts], [handleAddPrompt], [handlePromptChanged]); it is
    kept as the list of its values in insertion order, the [prompts] field
    of the scheduler. *)
Module Controls.
Import Js Utils Scheduler Presets.

(** [m.get(key)], [m.has(key)], [m.set(key, value)] and [m.delete(key)]. *)
Definition Map_get (key : string) (m : list Prompt) : option Prompt :=
  List.find (fun p => String.eqb (promptId p) key) m.

Definition Map_has (key : string) (m : list Prompt) : bool :=
  existsb (fun p => String.eqb (promptId p) key) m.

Fixpoint Map_set (key : string) (value : Prompt) (m : list Prompt)
    : list Prompt :=
  match m with
  | [] => [value]
  | p :: rest =>
      if String.eqb (promptId p) key then value :: rest
      else p :: Map_set key value rest
  end.

Definition Map_delete (key : string) (m : list Prompt) : list Prompt :=
  List.filter (fun p => negb (String.eqb (promptId p) key)) m.

(** The callers of [connectToSession]. *)
Inductive Caller : Type := FirstUpdated | HandlePlayPause | HandleReset.

(** The component with what the handlers add to the scheduler's fields.
    An [async] handler that is suspended at an [await] is kept until the
    awaited promise settles. *)
Record Page : Type := {
  dj : PromptDj;
  nextPromptId : nat;
  connecting : list Caller;   (* calls suspended in [connectToSession] *)
  adding : nat;   (* [handleAddPrompt] calls awaiting [updateComplete] *)
  resumeTimers : nat;   (* pending timers of [handleReset] *)
  contextResets : list nat;   (* [session.resetContext()] calls: for each,
                                 the number of commands sent before it *)
  promptsChanged : list (list Prompt)   (* [prompts-changed] details, each
                                           as it is when dispatched *)
}.

Definition with_dj (f : PromptDj -> PromptDj) (pg : Page) : Page :=
  {| dj := f (dj pg); nextPromptId := nextPromptId pg;
     connecting := connecting pg; adding := adding pg;
     resumeTimers := resumeTimers pg; contextResets := contextResets pg;
     promptsChanged := promptsChanged pg |}.

Definition set_connecting (v : list Caller) (pg : Page) : Page :=
  {| dj := dj pg; nextPromptId := nextPromptId pg; connecting := v;
     adding := adding pg; resumeTimers := resumeTimers pg;
     contextResets := contextResets pg; promptsChanged := promptsChanged pg |}.

Definition set_adding (v : nat) (pg : Page) : Page :=
  {| dj := dj pg; nextPromptId := nextPromptId pg;
     connecting := connecting pg; adding := v;
     resumeTimers := resumeTimers pg; contextResets := contextResets pg;
     promptsChanged := promptsChanged pg |}.

Definition set_resumeTimers (v : nat) (pg : Page) : Page :=
  {| dj := dj pg; nextPromptId := nextPromptId pg;
     connecting := connecting pg; adding := adding pg; resumeTimers := v;
     contextResets := contextResets pg; promptsChanged := promptsChanged pg |}.

(** The constructor: [nextPromptId = this.prompts.size]. *)
Definition construct (ctx : AudioContext) (initialPrompts : list Prompt)
    : Page :=
  {| dj := init ctx initialPrompts; nextPromptId := length initialPrompts;
     connecting := []; adding := 0; resumeTimers := 0; contextResets := [];
     promptsChanged := [] |}.

Definition dispatchPromptsChange (pg : Page) : Page :=
  {| dj := dj pg; nextPromptId := nextPromptId pg;
     connecting := connecting pg; adding := adding pg;
     resumeTimers := resumeTimers pg; contextResets := contextResets pg;
     promptsChanged := promptsChanged pg ++ [prompts (dj pg)] |}.

(** *** Prompt handlers

    [now] is the reading of [Date.now()] in the throttled
    [setSessionPrompts]. *)
Definition handlePromptChanged (now : Z) (detail : Prompt) (pg : Page)
    : Page :=
  match Map_get (promptId detail) (prompts (dj pg)) with
  | None => with_dj (log "prompt not found") pg
  | Some prompt =>
      let prompt :=
        {| promptId := promptId prompt; color := color prompt;
           text := text detail; weight := weight detail |} in
      let newPrompts := Map_set (promptId detail) prompt (prompts (dj pg)) in
      let pg := with_dj (set_prompts newPrompts) pg in
      let pg := with_dj (setSessionPrompts now) pg in
      dispatchPromptsChange pg
  end.

(** [handleAddPrompt] up to [await this.updateComplete]; [randomText] and
    [randomColor] are the two values [Math.random()] returns.  [None]: a
    text or a colour read as [undefined]. *)
Definition handleAddPrompt (now : Z) (randomText randomColor : Q) (pg : Page)
    : option Page :=
  let newPromptId := promptIdOf (nextPromptId pg) in
  let usedColors := map color (prompts (dj pg)) in
  match PROMPT_TEXT_PRESETS
          !! randomIndex randomText (length PROMPT_TEXT_PRESETS),
        getUnusedRandomColor randomColor usedColors with
  | Some text, Some color =>
      let newPrompt :=
        {| promptId := newPromptId; color := color; text := text;
           weight := 0 |} in
      let newPrompts := Map_set newPromptId newPrompt (prompts (dj pg)) in
      let d := setSessionPrompts now (set_prompts newPrompts (dj pg)) in
      Some {| dj := d; nextPromptId := S (nextPromptId pg);
              connecting := connecting pg; adding := S (adding pg);
              resumeTimers := resumeTimers pg;
              contextResets := contextResets pg;
              promptsChanged := promptsChanged pg |}
  | _, _ => None
  end.

(** The rest of [handleAddPrompt]: the new prompt is scrolled to and
    focused, then the change is dispatched. *)
Definition handleAddPrompt_updated (pg : Page) : Page :=
  match adding pg with
  | O => pg
  | S n => dispatchPromptsChange (set_adding n pg)
  end.

Definition handlePromptRemoved (now : Z) (promptIdToRemove : string)
    (pg : Page) : Page :=
  if Map_has promptIdToRemove (prompts (dj pg)) then
    let newPrompts := Map_delete promptIdToRemove (prompts (dj pg)) in
    let pg := with_dj (set_prompts newPrompts) pg in
    let pg := with_dj (setSessionPrompts now) pg in
    dispatchPromptsChange pg
  else
    with_dj
      (log ("Attempted to remove non-existent prompt ID: " ++ promptIdToRemove))
      pg.

(** *** Connecting

    [connectToSession] is suspended at [await ai.live.music.connect(...)];
    when the promise settles, the rest of it and the rest of its caller
    run in the same turn. *)
Definition suspend (caller : Caller) (pg : Page) : Page :=
  set_connecting (connecting pg ++ [caller]) pg.

(** [connectToSession] from the point where [connect] has settled:
    fulfilled ([ok]), or rejected (the [catch] branch). *)
Definition connectToSession_settled (ok : bool) (dj : PromptDj) : PromptDj :=
  if ok then set_connectionError false (set_session true dj)
  else
    let dj := log "Failed to connect to session:" dj in
    let dj := set_connectionError true dj in
    let dj := show "Failed to connect to music generation service." dj in
    set_playbackState stopped dj.

Definition firstUpdated (pg : Page) : Page := suspend FirstUpdated pg.

(** *** Transport buttons

    Both handlers start with [await this.audioContext.resume()] when the
    context is suspended; what follows runs as one step, at the click or
    when that promise is fulfilled. *)
Definition handlePlayPause (pg : Page) : Page :=
  match playbackState (dj pg) with
  | playing => with_dj pauseAudio pg
  | paused | stopped =>
      if connectionError (dj pg) || negb (session (dj pg)) then
        suspend HandlePlayPause (with_dj (set_playbackState loading) pg)
      else with_dj loadAudio pg
  | loading => with_dj stopAudio pg
  end.

(** [defaultConfig] of the settings controller. *)
Definition defaultConfig : LiveMusicGenerationConfig :=
  [("temperature"%string, 11 # 10); ("topK"%string, 40);
   ("guidance"%string, 4)]%Q.

(** [handleReset] from [const wasPlaying] on.  [resetToDefaults] dispatches
    [settings-changed] with the defaults, which [updateSettings] handles
    at once; [now] is its reading of [Date.now()]. *)
Definition handleReset_connected (now : Z) (pg : Page) : Page :=
  let wasPlaying :=
    match playbackState (dj pg) with
    | playing | loading => true
    | paused | stopped => false
    end in
  let pg := with_dj pauseAudio pg in
  let resets :=
    if sessionUsable (dj pg)
    then contextResets pg ++ [length (sent (dj pg))]
    else contextResets pg in
  let d :=
    updateSettings now
      {| musicGenerationConfig := defaultConfig; showSpectrogram := true |}
      (dj pg) in
  {| dj := d; nextPromptId := nextPromptId pg; connecting := connecting pg;
     adding := adding pg;
     resumeTimers :=
       if wasPlaying then S (resumeTimers pg) else resumeTimers pg;
     contextResets := resets; promptsChanged := promptsChanged pg |}.

Definition handleReset (now : Z) (pg : Page) : Page :=
  if connectionError (dj pg) || negb (session (dj pg)) then
    suspend HandleReset (with_dj (set_playbackState loading) pg)
  else handleReset_connected now pg.

(** The timer of [handleReset]:
    [if (this.playbackState === 'paused') this.loadAudio()]. *)
Definition resumeIfPaused (dj : PromptDj) : PromptDj :=
  if PlaybackState_eqb (playbackState dj) paused then loadAudio dj else dj.

(** What a caller of [connectToSession] does once it has returned. *)
Definition resume (caller : Caller) (now : Z) (pg : Page) : Page :=
  match caller with
  | FirstUpdated => with_dj (setSessionPrompts now) pg
  | HandlePlayPause =>
      if connectionError (dj pg) then with_dj (set_playbackState stopped) pg
      else with_dj loadAudio (with_dj (setSessionPrompts now) pg)
  | HandleReset =>
      if connectionError (dj pg) then with_dj (set_playbackState stopped) pg
      else handleReset_connected now pg
  end.

(** *** Everything the page reacts to *)
Inductive Action : Type :=
| FirstUpdate
| ConnectSettles (k : nat) (ok : bool) (now : Z)   (* the [k]-th pending call *)
| SessionMessage (e : LiveMusicServerMessage)
| SessionError
| SessionClose
| BufferTimerFires (k : nat)
| ResumeTimerFires
| Rendered (quanta : N)
| PromptChanged (now : Z) (detail : Prompt)
| AddPromptClicked (now : Z) (randomText randomColor : Q)
| AddPromptUpdated
| PromptRemoved (now : Z) (promptIdToRemove : string)
| PlayPauseClicked
| ResetClicked (now : Z)
| SettingsEdited (now : Z) (e : SettingsControllerState)
| SendPromptsRejected (message : string)
| SendSettingsRejected (message : string).

Definition act (a : Action) (pg : Page) : Page :=
  match a with
  | FirstUpdate => firstUpdated pg
  | ConnectSettles k ok now =>
      match connecting pg !! k with
      | Some caller =>
          let pg := set_connecting (delete k (connecting pg)) pg in
          resume caller now (with_dj (connectToSession_settled ok) pg)
      | None => pg
      end
  | SessionMessage e => with_dj (step (OnMessage e)) pg
  | SessionError => with_dj (step OnError) pg
  | SessionClose => with_dj (step OnClose) pg
  | BufferTimerFires k => with_dj (step (TimerFires k)) pg
  | ResumeTimerFires =>
      match resumeTimers pg with
      | O => pg
      | S n => with_dj resumeIfPaused (set_resumeTimers n pg)
      end
  | Rendered quanta => with_dj (step (Render quanta)) pg
  | PromptChanged now detail => handlePromptChanged now detail pg
  | AddPromptClicked now randomText randomColor =>
      (* a click whose draws are outside [0, 1) does not occur *)
      default pg (handleAddPrompt now randomText randomColor pg)
  | AddPromptUpdated => handleAddPrompt_updated pg
  | PromptRemoved now promptIdToRemove =>
      handlePromptRemoved now promptIdToRemove pg
  | PlayPauseClicked => handlePlayPause pg
  | ResetClicked now => handleReset now pg
  | SettingsEdited now e => with_dj (step (SettingsChanged now e)) pg
  | SendPromptsRejected message => with_dj (step (PromptsRejected message)) pg
  | SendSettingsRejected message =>
      with_dj (step (SettingsRejected message)) pg
  end.

Definition interact (actions : list Action) (pg : Page) : Page :=
  fold_left (fun pg a => act a pg) actions pg.

(** The actions that run a prompt handler. *)
Definition edits_prompts (a : Action) : bool :=
  match a with
  | PromptChanged _ _ | AddPromptClicked _ _ _ | PromptRemoved _ _ => true
  | _ => false
  end.

(** A connection attempt that succeeds. *)
Definition connects (a : Action) : bool :=
  match a with
  | ConnectSettles _ true _ => true
  | _ => false
  end.

(** A connection attempt that fails: the [catch] branch of
    [connectToSession] runs. *)
Definition connect_fails (a : Action) : bool :=
  match a with
  | ConnectSettles _ false _ => true
  | _ => false
  end.

End Controls.

(** ** The settings panel ([SettingsController] of [src/index.tsx]) *)
Module Settings.

(** What a property of the config object, or the local [value] of
    [handleInputChange], holds. *)
Inductive value : Type :=
| Undefined
| Number (n : Js.number)
| Str (s : string)
| Boolean (b : bool).

(** A plain object: its own properties, in creation order. *)
Definition object : Type := list (string * value).

(** [key in o], for a key that [Object.prototype] does not define. *)
Definition has_key (key : string) (o : object) : bool :=
  existsb (fun kv => String.eqb (fst kv) key) o.

(** [o[key]] *)
Definition get (key : string) (o : object) : value :=
  match List.find (fun kv => String.eqb (fst kv) key) o with
  | Some kv => snd kv
  | None => Undefined
  end.

(** [o[key] = v] *)
Fixpoint put (key : string) (v : value) (o : object) : object :=
  match o with
  | [] => [(key, v)]
  | kv :: rest =>
      if String.eqb (fst kv) key then (key, v) :: rest
      else kv :: put key v rest
  end.

(** [Boolean(v)] *)
Definition toBoolean (v : value) : bool :=
  match v with
  | Undefined => false
  | Number (Js.Num q) => negb (Qeq_bool q 0)
  | Number Js.NaN => false
  | Number _ => true
  | Str s => negb (String.eqb s "")
  | Boolean b => b
  end.

(** [a ?? b] *)
Definition nullish (a b : value) : value :=
  match a with
  | Undefined => b
  | _ => a
  end.

Definition is_undefined (v : value) : bool :=
  match v with
  | Undefined => true
  | _ => false
  end.

(** The inputs [render] attaches [handleInputChange] to, with their [id]
    and [type] attributes. *)
Inductive Input : Type :=
| temperature | guidance | topK | seed | bpm | density | auto_density
| brightness | auto_brightness | scale | muteBass | muteDrums
| onlyBassAndDrums | showSpectrogramBox.

Inductive InputType : Type := range | number | checkbox | select_one.

Definition id (i : Input) : string :=
  match i with
  | temperature => "temperature"
  | guidance => "guidance"
  | topK => "topK"
  | seed => "seed"
  | bpm => "bpm"
  | density => "density"
  | auto_density => "auto-density"
  | brightness => "brightness"
  | auto_brightness => "auto-brightness"
  | scale => "scale"
  | muteBass => "muteBass"
  | muteDrums => "muteDrums"
  | onlyBassAndDrums => "onlyBassAndDrums"
  | showSpectrogramBox => "showSpectrogram"
  end.

Definition type (i : Input) : InputType :=
  match i with
  | temperature | guidance | topK | density | brightness => range
  | seed | bpm => number
  | scale => select_one
  | auto_density | auto_brightness | muteBass | muteDrums
  | onlyBassAndDrums | showSpectrogramBox => checkbox
  end.

(** The target of an input event: the element, its [value] with what
    [Number(target.value)] makes of it, its [checked] flag, and whether the
    selected option of a [select] is disabled. *)
Record Target : Type := {
  input : Input;
  target_value : string;
  target_number : Js.number;
  checked : bool;
  selectedOptionDisabled : bool
}.

Record SettingsController : Type := {
  config : object;
  showAdvanced : bool;
  autoDensity : bool;
  lastDefinedDensity : value;
  autoBrightness : bool;
  lastDefinedBrightness : value;
  showSpectrogram : bool;
  dispatched : list (object * bool)   (* [settings-changed] details:
                                         config and [showSpectrogram] *)
}.

Definition defaultConfig : object :=
  [("temperature"%string, Number (Js.Num (11 # 10)));
   ("topK"%string, Number (Js.Num 40));
   ("guidance"%string, Number (Js.Num 4))].

(** The panel as its field initialisers leave it. *)
Definition initial : SettingsController :=
  {| config := defaultConfig; showAdvanced := false; autoDensity := true;
     lastDefinedDensity := Undefined; autoBrightness := true;
     lastDefinedBrightness := Undefined; showSpectrogram := true;
     dispatched := [] |}.

Definition dispatchSettingsChange (sc : SettingsController)
    : SettingsController :=
  {| config := config sc; showAdvanced := showAdvanced sc;
     autoDensity := autoDensity sc;
     lastDefinedDensity := lastDefinedDensity sc;
     autoBrightness := autoBrightness sc;
     lastDefinedBrightness := lastDefinedBrightness sc;
     showSpectrogram := showSpectrogram sc;
     dispatched := dispatched sc ++ [(config sc, showSpectrogram sc)] |}.

Definition resetToDefaults (sc : SettingsController) : SettingsController :=
  dispatchSettingsChange
    {| config := defaultConfig; showAdvanced := showAdvanced sc;
       autoDensity := true; lastDefinedDensity := Undefined;
       autoBrightness := true; lastDefinedBrightness := Undefined;
       showSpectrogram := true; dispatched := dispatched sc |}.

(** [handleInputChange].  [updateSliderBackground] only sets a style
    property of the slider and is left out. *)
Definition handleInputChange (target : Target) (sc : SettingsController)
    : SettingsController :=
  let key := id (input target) in
  let value :=
    match type (input target) with
    | range | number =>
        if String.eqb (target_value target) "" then Undefined
        else Number (target_number target)
    | checkbox => Boolean (checked target)
    | select_one =>
        if selectedOptionDisabled target then Undefined
        else Str (target_value target)
    end in
  let newConfig := config sc in
  dispatchSettingsChange
    (if String.eqb key "showSpectrogram" then
       {| config := newConfig; showAdvanced := showAdvanced sc;
          autoDensity := autoDensity sc;
          lastDefinedDensity := lastDefinedDensity sc;
          autoBrightness := autoBrightness sc;
          lastDefinedBrightness := lastDefinedBrightness sc;
          showSpectrogram := toBoolean value; dispatched := dispatched sc |}
     else if String.eqb key "auto-density" then
       let auto := toBoolean value in
       {| config :=
            put "density"
              (if auto then Undefined
               else nullish (lastDefinedDensity sc) (Number (Js.Num (1 # 2))))
              newConfig;
          showAdvanced := showAdvanced sc; autoDensity := auto;
          lastDefinedDensity := lastDefinedDensity sc;
          autoBrightness := autoBrightness sc;
          lastDefinedBrightness := lastDefinedBrightness sc;
          showSpectrogram := showSpectrogram sc; dispatched := dispatched sc |}
     else if String.eqb key "auto-brightness" then
       let auto := toBoolean value in
       {| config :=
            put "brightness"
              (if auto then Undefined
               else nullish (lastDefinedBrightness sc)
                      (Number (Js.Num (1 # 2))))
              newConfig;
          showAdvanced := showAdvanced sc; autoDensity := autoDensity sc;
          lastDefinedDensity := lastDefinedDensity sc; autoBrightness := auto;
          lastDefinedBrightness := lastDefinedBrightness sc;
          showSpectrogram := showSpectrogram sc; dispatched := dispatched sc |}
     else if has_key key newConfig then
       let newConfig := put key value newConfig in
       {| config := newConfig; showAdvanced := showAdvanced sc;
          autoDensity := autoDensity sc;
          lastDefinedDensity :=
            if negb (is_undefined (get "density" newConfig))
               && String.eqb key "density"
            then get "density" newConfig else lastDefinedDensity sc;
          autoBrightness := autoBrightness sc;
          lastDefinedBrightness :=
            if negb (is_undefined (get "brightness" newConfig))
               && String.eqb key "brightness"
            then get "brightness" newConfig else lastDefinedBrightness sc;
          showSpectrogram := showSpectrogram sc; dispatched := dispatched sc |}
     else
       {| config := newConfig; showAdvanced := showAdvanced sc;
          autoDensity := autoDensity sc;
          lastDefinedDensity := lastDefinedDensity sc;
          autoBrightness := autoBrightness sc;
          lastDefinedBrightness := lastDefinedBrightness sc;
          showSpectrogram := showSpectrogram sc; dispatched := dispatched sc |}).

Definition toggleAdvancedSettings (sc : SettingsController)
    : SettingsController :=
  {| config := config sc; showAdvanced := negb (showAdvanced sc);
     autoDensity := autoDensity sc;
     lastDefinedDensity := lastDefinedDensity sc;
     autoBrightness := autoBrightness sc;
     lastDefinedBrightness := lastDefinedBrightness sc;
     showSpectrogram := showSpectrogram sc; dispatched := dispatched sc |}.

(** What happens to the panel: an input event of one of its inputs, a
    reset by the page, a click on the advanced-settings toggle. *)
Inductive PanelEvent : Type :=
| InputChanged (target : Target)
| DefaultsRestored
| AdvancedToggled.

Definition handle (ev : PanelEvent) (sc : SettingsController)
    : SettingsController :=
  match ev with
  | InputChanged target => handleInputChange target sc
  | DefaultsRestored => resetToDefaults sc
  | AdvancedToggled => toggleAdvancedSettings sc
  end.

Definition operate (evs : list PanelEvent) (sc : SettingsController)
    : SettingsController :=
  fold_left (fun sc ev => handle ev sc) evs sc.

(** The keys a config of the panel can hold. *)
Definition configKeys : list string :=
  ["temperature"; "topK"; "guidance"; "density"; "brightness"]%string.

(** A slider or number input with a value, and a checkbox. *)
Definition slider (i : Input) (text : string) (n : Js.number) : Target :=
  {| input := i; target_value := text; target_number := n; checked := false;
     selectedOptionDisabled := false |}.

Definition box (i : Input) (on : bool) : Target :=
  {| input := i; target_value := "on"; target_number := Js.NaN;
     checked := on; selectedOptionDisabled := false |}.

End Settings.

(** * Properties *)

(** ** Comparisons on rationals *)
Section QBool.

Lemma Qlt_bool_true (a b : Q) : Js.Qlt_bool a b = true <-> (a < b)%Q.
Proof.
  unfold Js.Qlt_bool. rewrite negb_true_iff, <- not_true_iff_false, Qle_bool_iff.
  split; [apply Qnot_le_lt | apply Qlt_not_le].
Qed.

Lemma Qlt_bool_false (a b : Q) : Js.Qlt_bool a b = false <-> (b <= a)%Q.
Proof.
  unfold Js.Qlt_bool. rewrite negb_false_iff. apply Qle_bool_iff.
Qed.

Lemma Qeq_bool_false (a b : Q) : Qeq_bool a b = false <-> ¬ (a == b)%Q.
Proof.
  rewrite <- not_true_iff_false, Qeq_bool_iff. reflexivity.
Qed.

End QBool.

(** ** Integer conversions *)
Module JsFacts.
Import Js.

Lemma truncate_nonneg (q : Q) : (0 <= q)%Q -> truncate q = Qfloor q.
Proof.
  destruct q as [n d]. unfold truncate, Qfloor, Qle. simpl. intros H.
  apply Z.quot_div_nonneg; lia.
Qed.

Lemma truncate_nonpos (q : Q) : (q <= 0)%Q -> truncate q = Qceiling q.
Proof.
  destruct q as [n d]. unfold truncate, Qceiling, Qfloor, Qle. simpl. intros H.
  rewrite <- (Z.opp_involutive n) at 1.
  rewrite Z.quot_opp_l by lia. f_equal.
  apply Z.quot_div_nonneg; lia.
Qed.

Lemma truncate_Z (z : Z) : truncate (inject_Z z) = z.
Proof. unfold truncate. simpl. apply Z.quot_1_r. Qed.

(** Truncation moves a number toward zero by less than one. *)
Lemma truncate_close (q : Q) :
  (0 <= q -> inject_Z (truncate q) <= q < inject_Z (truncate q) + 1)%Q
  ∧ (q <= 0 -> inject_Z (truncate q) - 1 < q <= inject_Z (truncate q))%Q.
Proof.
  split; intros H.
  - rewrite truncate_nonneg by exact H. split.
    + apply Qfloor_le.
    + pose proof (Qlt_floor q) as Hf. rewrite inject_Z_plus in Hf. exact Hf.
  - rewrite truncate_nonpos by exact H. split.
    + pose proof (Qceiling_lt q) as Hc.
      unfold Z.sub in Hc. rewrite inject_Z_plus in Hc. exact Hc.
    + apply Qle_ceiling.
Qed.

Lemma truncate_monotone (a b : Q) : (a <= b)%Q -> truncate a <= truncate b.
Proof.
  intros Hab.
  destruct (Qlt_le_dec a 0) as [Ha|Ha]; destruct (Qlt_le_dec b 0) as [Hb|Hb].
  - rewrite !truncate_nonpos by lra. now apply Qceiling_resp_le.
  - rewrite (truncate_nonpos a), (truncate_nonneg b) by lra.
    assert (Qceiling a <= 0)
      by (change 0 with (Qceiling 0); apply Qceiling_resp_le; lra).
    assert (0 <= Qfloor b)
      by (change 0 with (Qfloor 0); apply Qfloor_resp_le; lra).
    lia.
  - lra.
  - rewrite !truncate_nonneg by lra. now apply Qfloor_resp_le.
Qed.

Lemma toInt16_in_range (q : Q) :
  -32768 <= truncate q <= 32767 -> toInt16 (Num q) = truncate q.
Proof.
  intros H. unfold toInt16.
  rewrite Z.mod_small by lia. lia.
Qed.

End JsFacts.

(** ** Base64 *)
Module Base64Facts.
Import Js Utils.

Lemma byteToZ_range (b : byte) : 0 <= byteToZ b <= 255.
Proof.
  unfold byteToZ. pose proof (Byte.to_N_bounded b). lia.
Qed.

Lemma byteToZ_byteOfZ (z : Z) : byteToZ (byteOfZ z) = z mod 256.
Proof.
  unfold byteToZ, byteOfZ.
  pose proof (Z.mod_pos_bound z 256 ltac:(lia)) as Hz.
  destruct (Byte.of_N (Z.to_N (z mod 256))) as [b|] eqn:E.
  - apply Byte.to_of_N in E. simpl. rewrite E. lia.
  - apply Byte.of_N_None_iff in E. lia.
Qed.

Lemma list_ind3 {A : Type} (P : list A -> Prop) :
  P [] -> (∀ a, P [a]) -> (∀ a b, P [a; b]) ->
  (∀ a b c l, P l -> P (a :: b :: c :: l)) ->
  ∀ l, P l.
Proof.
  intros H0 H1 H2 H3 l.
  assert (H : P l ∧ (∀ a, P (a :: l)) ∧ (∀ a b, P (a :: b :: l))).
  { induction l as [|x l (IH0 & IH1 & IH2)]; [auto|].
    split; [apply IH1|]. split; [intros a; apply IH2|].
    intros a b. apply H3, IH0. }
  apply H.
Qed.

Example encode_Man :
  encode ["M"%byte; "a"%byte; "n"%byte] = "TWFu"%string
  ∧ encode ["M"%byte; "a"%byte] = "TWE="%string
  ∧ encode ["M"%byte] = "TQ=="%string.
Proof. repeat split; reflexivity. Qed.

(** The 64 characters of the alphabet are distinct, and none is a
    whitespace or the padding character. *)
Lemma base64Char_facts (s : Z) :
  sextet s ->
  base64Sextet (base64Char s) = Some s
  ∧ isWhitespace (base64Char s) = false
  ∧ Ascii.eqb (base64Char s) "=" = false.
Proof.
  intros Hs.
  assert (Hall : forallb
            (fun n => match base64Sextet (base64Char (Z.of_nat n)) with
                      | Some s' => s' =? Z.of_nat n
                      | None => false
                      end
                      && negb (isWhitespace (base64Char (Z.of_nat n)))
                      && negb (Ascii.eqb (base64Char (Z.of_nat n)) "="))
            (seq 0 64) = true) by (vm_compute; reflexivity).
  rewrite forallb_forall in Hall.
  specialize (Hall (Z.to_nat s)).
  rewrite Z2Nat.id in Hall by (unfold sextet in Hs; lia).
  assert (Hin : In (Z.to_nat s) (seq 0 64))
    by (apply in_seq; unfold sextet in Hs; lia).
  specialize (Hall Hin).
  apply andb_true_iff in Hall as [Hall H3].
  apply andb_true_iff in Hall as [H1 H2].
  apply negb_true_iff in H2, H3.
  destruct (base64Sextet (base64Char s)) as [s'|]; [|discriminate].
  apply Z.eqb_eq in H1. subst s'. auto.
Qed.

Lemma sextetsOf_range (l : list Z) :
  Forall (fun x => 0 <= x < 256) l -> Forall sextet (sextetsOf l).
Proof.
  induction l as [| a | a b | a b c l IH] using list_ind3; intros H;
    repeat match goal with
           | H : Forall _ (_ :: _) |- _ => inversion H; clear H; subst
           end;
    cbn [sextetsOf];
    repeat (constructor; [unfold sextet; Z.div_mod_to_equations; lia|]);
    try constructor; try (apply IH; assumption).
Qed.

Lemma btoa_chars (l : list Z) :
  list_ascii_of_string (btoa l) = map base64Char (sextetsOf l) ++ paddingOf l.
Proof.
  induction l as [| a | a b | a b c l IH] using list_ind3; try reflexivity.
  cbn [btoa sextetsOf paddingOf list_ascii_of_string map app].
  rewrite IH. reflexivity.
Qed.

Lemma bytesOfSextets_sextetsOf (l : list Z) :
  Forall (fun x => 0 <= x < 256) l -> bytesOfSextets (sextetsOf l) = l.
Proof.
  induction l as [| a | a b | a b c l IH] using list_ind3; intros H;
    repeat match goal with
           | H : Forall _ (_ :: _) |- _ => inversion H; clear H; subst
           end;
    cbn [sextetsOf bytesOfSextets].
  - reflexivity.
  - f_equal. Z.div_mod_to_equations. lia.
  - f_equal; [|f_equal]; Z.div_mod_to_equations; lia.
  - rewrite IH by assumption.
    f_equal; [|f_equal; [|f_equal]]; Z.div_mod_to_equations; lia.
Qed.

(** The length of the encoding: whole groups of four characters; without
    the padding, never one character more than whole groups. *)
Lemma sextetsOf_length (l : list Z) :
  ∃ k : nat,
    (length (sextetsOf l) + length (paddingOf l) = 4 * k)%nat
    ∧ (length (sextetsOf l) = 4 * k - length (paddingOf l))%nat
    ∧ (length (paddingOf l) <= 2)%nat
    ∧ ((length (paddingOf l) <= length (sextetsOf l))%nat ∨ l = []).
Proof.
  induction l as [| a | a b | a b c l (k & H1 & H2 & H3 & H4)] using list_ind3.
  - exists 0%nat. simpl. repeat split; lia.
  - exists 1%nat. simpl. repeat split; lia.
  - exists 1%nat. simpl. repeat split; lia.
  - exists (S k). cbn [sextetsOf paddingOf length].
    split; [lia|]. split; [lia|]. split; [lia|].
    left. destruct H4 as [H4| ->]; simpl; lia.
Qed.

Lemma removePadding_chars (sx : list Z) (pad : list ascii) :
  Forall sextet sx ->
  pad = [] ∨ pad = ["="%char] ∨ pad = ["="%char; "="%char] ->
  removePadding (map base64Char sx ++ pad) = map base64Char sx.
Proof.
  intros Hsx Hpad. induction Hsx as [|s sx Hs _ IH].
  - destruct Hpad as [-> | [-> | ->]]; reflexivity.
  - destruct (base64Char_facts s Hs) as (_ & _ & Heq).
    cbn [map app removePadding]. rewrite Heq. cbn [andb]. rewrite IH.
    reflexivity.
Qed.

Lemma paddingOf_cases (l : list Z) :
  paddingOf l = [] ∨ paddingOf l = ["="%char]
  ∨ paddingOf l = ["="%char; "="%char].
Proof.
  induction l as [| a | a b | a b c l IH] using list_ind3; simpl; auto.
Qed.

Lemma filter_whitespace (sx : list Z) (pad : list ascii) :
  Forall sextet sx ->
  pad = [] ∨ pad = ["="%char] ∨ pad = ["="%char; "="%char] ->
  List.filter (fun c => negb (isWhitespace c)) (map base64Char sx ++ pad)
  = map base64Char sx ++ pad.
Proof.
  intros Hsx Hpad. induction Hsx as [|s sx Hs _ IH].
  - destruct Hpad as [-> | [-> | ->]]; reflexivity.
  - destruct (base64Char_facts s Hs) as (_ & Hws & _).
    cbn [map app List.filter]. rewrite Hws. cbn [negb]. rewrite IH.
    reflexivity.
Qed.

Lemma mapM_base64Sextet (sx : list Z) :
  Forall sextet sx -> mapM base64Sextet (map base64Char sx) = Some sx.
Proof.
  induction 1 as [|s sx Hs _ IH]; [reflexivity|].
  destruct (base64Char_facts s Hs) as (Hsx & _).
  cbn [map mapM]. rewrite Hsx. simpl. rewrite IH. reflexivity.
Qed.

Lemma byteOfZ_byteToZ (b : byte) : byteOfZ (byteToZ b) = b.
Proof.
  unfold byteOfZ. rewrite Z.mod_small by (pose proof (byteToZ_range b); lia).
  unfold byteToZ. rewrite N2Z.id, Byte.of_to_N. reflexivity.
Qed.

(** Decoding the base64 encoding of a byte array gives it back. *)
Theorem decode_encode_bytes (bytes : list byte) :
  decode (encode bytes) = Normal bytes.
Proof.
  unfold decode, encode, atob.
  set (l := map byteToZ bytes).
  assert (Hl : Forall (fun x => 0 <= x < 256) l).
  { subst l. induction bytes; constructor; [|assumption].
    pose proof (byteToZ_range a). lia. }
  pose proof (sextetsOf_range l Hl) as Hsx.
  pose proof (paddingOf_cases l) as Hpad.
  destruct (sextetsOf_length l) as (k & Hlen & Hlen' & Hp2 & Hp).
  rewrite btoa_chars, filter_whitespace by assumption.
  replace (length (map base64Char (sextetsOf l) ++ paddingOf l) mod 4 =? 0)%nat
    with true.
  2:{ symmetry. apply Nat.eqb_eq.
      rewrite length_app, length_map, Hlen, Nat.mul_comm.
      apply Nat.Div0.mod_mul. }
  rewrite removePadding_chars by assumption.
  replace (length (map base64Char (sextetsOf l)) mod 4 =? 1)%nat with false.
  2:{ symmetry. apply Nat.eqb_neq. rewrite length_map.
      assert (Hr : ∃ r k' : nat,
                 (r = 0 ∨ r = 2 ∨ r = 3)%nat
                 ∧ length (sextetsOf l) = (r + k' * 4)%nat).
      { destruct Hpad as [E | [E | E]]; rewrite E in Hlen', Hp;
          cbn [length] in Hlen', Hp.
        - exists 0%nat, k. split; [auto|lia].
        - destruct Hp as [Hp|Hnil]; [|rewrite Hnil in E; discriminate].
          exists 3%nat, (k - 1)%nat. split; [auto|lia].
        - destruct Hp as [Hp|Hnil]; [|rewrite Hnil in E; discriminate].
          exists 2%nat, (k - 1)%nat. split; [auto|lia]. }
      destruct Hr as (r & k' & Hr & ->).
      rewrite Nat.Div0.mod_add, Nat.mod_small by lia. lia. }
  rewrite mapM_base64Sextet by assumption.
  rewrite bytesOfSextets_sextetsOf by assumption.
  subst l. rewrite map_map. f_equal. clear.
  induction bytes as [|b bytes IH]; [reflexivity|].
  simpl. rewrite byteOfZ_byteToZ, IH. reflexivity.
Qed.

End Base64Facts.

(** ** The PCM codec *)
Module CodecFacts.
Import Js Utils JsFacts Base64Facts.

(** An [Int16Array] element written through the byte view and read back. *)
Lemma int16le_bytes (v : Z) :
  -32768 <= v <= 32767 ->
  int16le (byteOfZ (v mod 65536 mod 256)) (byteOfZ (v mod 65536 / 256)) = v.
Proof.
  intros Hv. unfold int16le. rewrite !byteToZ_byteOfZ.
  assert (Hu : 0 <= v mod 65536 < 65536) by (apply Z.mod_pos_bound; lia).
  rewrite Z.mod_mod by lia.
  rewrite (Z.mod_small (v mod 65536 / 256)) by
    (split; [apply Z.div_pos; lia | apply Z.div_lt_upper_bound; lia]).
  assert (Hd : v mod 65536 mod 256 + 256 * (v mod 65536 / 256) = v mod 65536).
  { rewrite (Z.div_mod (v mod 65536) 256) at 3 by lia. lia. }
  rewrite Hd.
  destruct (Z.ltb_spec (v mod 65536) 32768) as [Hlt|Hge].
  - destruct (Z.le_gt_cases 0 v) as [Hp|Hn].
    + rewrite Z.mod_small; lia.
    + assert (v mod 65536 = v + 65536); [|lia].
      symmetry. apply Z.mod_unique with (q := -1); lia.
  - destruct (Z.le_gt_cases 0 v) as [Hp|Hn].
    + rewrite Z.mod_small in Hge; lia.
    + assert (v mod 65536 = v + 65536); [|lia].
      symmetry. apply Z.mod_unique with (q := -1); lia.
Qed.

Lemma Int16Array_of_Uint8Array (l : list Z) :
  Forall is_int16 l ->
  Int16Array_of_buffer (Uint8Array_of_buffer l) (length l) = l.
Proof.
  induction 1 as [|v l Hv _ IH]; [reflexivity|].
  simpl. rewrite int16le_bytes by exact Hv.
  f_equal. exact IH.
Qed.

Lemma Uint8Array_of_buffer_length (l : list Z) :
  length (Uint8Array_of_buffer l) = (2 * length l)%nat.
Proof.
  induction l as [|v l IH]; simpl; [reflexivity | rewrite IH; lia].
Qed.

Lemma Uint8Array_of_buffer_lookup (l : list Z) (i : nat) (v : Z) :
  l !! i = Some v ->
  Uint8Array_of_buffer l !! (2 * i)%nat = Some (byteOfZ (v mod 65536 mod 256))
  ∧ Uint8Array_of_buffer l !! (2 * i + 1)%nat
    = Some (byteOfZ (v mod 65536 / 256)).
Proof.
  revert i. induction l as [|w l IH]; intros i Hi; [discriminate|].
  destruct i as [|i].
  - injection Hi as ->. split; reflexivity.
  - simpl in Hi. destruct (IH i Hi) as [H0 H1].
    replace (2 * S i)%nat with (S (S (2 * i))) by lia.
    replace (S (S (2 * i)) + 1)%nat with (S (S (2 * i + 1))) by lia.
    split; assumption.
Qed.

(** What [createBlob] stores for a finite sample. *)
Lemma quantize_finite (q : Q) :
  quantize (Num q) =
  if Qlt_bool (q * 32768) 32767
  then (if Qlt_bool (-32768) (q * 32768) then truncate (q * 32768) else -32768)
  else 32767.
Proof.
  unfold quantize, mul, min, max, ofZ, lt.
  change (inject_Z 32768) with 32768%Q. change (inject_Z 32767) with 32767%Q.
  change (inject_Z (-32768)) with (-32768)%Q.
  destruct (Qlt_bool (q * 32768) 32767) eqn:Hhi.
  - destruct (Qlt_bool (-32768) (q * 32768)) eqn:Hlo.
    + apply Qlt_bool_true in Hhi, Hlo.
      apply toInt16_in_range.
      pose proof (truncate_monotone (-32768) (q * 32768) ltac:(lra)) as H1.
      pose proof (truncate_monotone (q * 32768) 32767 ltac:(lra)) as H2.
      change (-32768)%Q with (inject_Z (-32768)) in H1.
      change 32767%Q with (inject_Z 32767) in H2.
      rewrite truncate_Z in H1, H2. lia.
    + reflexivity.
  - assert (Hlo : Qlt_bool (-32768) 32767 = true) by reflexivity.
    rewrite Hlo. reflexivity.
Qed.

Lemma quantize_int16 (x : number) : is_int16 (quantize x).
Proof.
  unfold is_int16, quantize, toInt16.
  destruct (max _ _); [|lia..].
  pose proof (Z.mod_pos_bound (truncate q + 32768) 65536 ltac:(lia)). lia.
Qed.

Lemma Qdiv_32768 (x : Q) : (x / 32768 == x * (1 # 32768))%Q.
Proof. reflexivity. Qed.

(** The quantisation error of a sample in [-1, 1]. *)
Lemma quantize_error (q : Q) :
  (-1 <= q <= 1)%Q ->
  (Qabs (inject_Z (quantize (Num q)) / 32768 - q) <= 1 # 32768)%Q.
Proof.
  intros [Hlo Hhi]. rewrite quantize_finite, Qdiv_32768.
  apply Qabs_Qle_condition.
  destruct (Qlt_bool (q * 32768) 32767) eqn:H1.
  - destruct (Qlt_bool (-32768) (q * 32768)) eqn:H2.
    + destruct (truncate_close (q * 32768)) as [Hp Hn].
      set (t := inject_Z (truncate (q * 32768))) in *.
      destruct (Qlt_le_dec (q * 32768) 0) as [Hneg|Hpos].
      * specialize (Hn ltac:(lra)). split; lra.
      * specialize (Hp Hpos). split; lra.
    + apply Qlt_bool_false in H2.
      change (inject_Z (-32768)) with (-32768)%Q. split; lra.
  - apply Qlt_bool_false in H1.
    change (inject_Z 32767) with 32767%Q. split; lra.
Qed.

Lemma float32_of_int16_finite (l : list Z) :
  float32_of_int16 l = map (fun v => Num (inject_Z v / 32768)) l.
Proof. reflexivity. Qed.

Lemma decode_encode (data : list number) :
  decodeSamples (encodeSamples data)
  = map (fun s => Num (inject_Z (quantize s) / 32768)) data.
Proof.
  unfold decodeSamples, wireSamples, encodeSamples.
  rewrite Uint8Array_of_buffer_length.
  replace (2 * length (int16_of_samples data) / 2)%nat
    with (length (int16_of_samples data))
    by (rewrite Nat.mul_comm, Nat.div_mul; lia).
  rewrite Int16Array_of_Uint8Array.
  - unfold int16_of_samples. rewrite float32_of_int16_finite, map_map.
    reflexivity.
  - unfold int16_of_samples.
    induction data; constructor; auto using quantize_int16.
Qed.

(** Samples that are not finite. *)
Lemma quantize_nonfinite :
  quantize NaN = 0 ∧ quantize PosInf = 32767 ∧ quantize NegInf = -32768.
Proof. repeat split; reflexivity. Qed.

Lemma truncate_floor_ceiling (x : Q) :
  truncate x = if Qlt_bool x 0 then Qceiling x else Qfloor x.
Proof.
  destruct (Qlt_bool x 0) eqn:H.
  - apply Qlt_bool_true in H. apply truncate_nonpos. lra.
  - apply Qlt_bool_false in H. apply truncate_nonneg. exact H.
Qed.

(** C5, as stated, fails: the sample 7/131072 scales to 1.75, which
    [createBlob] stores as 1 (the fraction is cut off), whereas rounding
    gives 2. *)
Lemma createBlob_does_not_round :
  quantize (Num (7 # 131072)) <> spec_quantize (7 # 131072)
  ∧ quantize (Num (7 # 131072)) = 1
  ∧ spec_quantize (7 # 131072) = 2
  ∧ encodeSamples [Num (7 # 131072)] = [x01; x00].
Proof. split; [discriminate|]. repeat split; reflexivity. Qed.

(** C5, amended: [createBlob] maps every finite sample [q] to the 16-bit
    integer obtained by limiting [q * 32768] to [-32768, 32767] and cutting
    off the fraction (toward zero: the floor of a non-negative value, the
    ceiling of a negative one), and stores these integers two bytes each,
    low byte first, in two's complement, in the bytes it base64-encodes
    (and [decode] recovers from the blob). *)
Theorem createBlob_truncates (samples : list Q) (i : nat) (q : Q) :
  samples !! i = Some q ->
  let x := (q * 32768)%Q in
  let v := quantize (Num q) in
  let bytes := encodeSamples (map Num samples) in
  v = (if Qlt_bool x 32767
       then (if Qlt_bool (-32768) x then truncate x else -32768)
       else 32767)
  ∧ truncate x = (if Qlt_bool x 0 then Qceiling x else Qfloor x)
  ∧ -32768 <= v <= 32767
  ∧ (∃ b0 b1 : byte,
        bytes !! (2 * i)%nat = Some b0 ∧ bytes !! (2 * i + 1)%nat = Some b1
        ∧ byteToZ b0 + 256 * byteToZ b1 = v mod 65536
        ∧ int16le b0 b1 = v)
  ∧ length bytes = (2 * length samples)%nat
  ∧ data (createBlob (map Num samples)) = encode bytes
  ∧ decode (data (createBlob (map Num samples))) = Normal bytes.
Proof.
  intros Hi x v bytes.
  pose proof (quantize_int16 (Num q)) as Hv. fold v in Hv.
  split; [apply quantize_finite|].
  split; [apply truncate_floor_ceiling|].
  split; [exact Hv|].
  split; [|split].
  - assert (Hq : int16_of_samples (map Num samples) !! i = Some v).
    { unfold int16_of_samples. rewrite map_map.
      change (map (fun s => quantize (Num s)) samples)
        with ((fun s => quantize (Num s)) <$> samples).
      rewrite list_lookup_fmap, Hi. reflexivity. }
    destruct (Uint8Array_of_buffer_lookup _ _ _ Hq) as [H0 H1].
    exists (byteOfZ (v mod 65536 mod 256)), (byteOfZ (v mod 65536 / 256)).
    split; [exact H0|]. split; [exact H1|]. split.
    + rewrite !byteToZ_byteOfZ.
      assert (Hu : 0 <= v mod 65536 < 65536) by (apply Z.mod_pos_bound; lia).
      rewrite Z.mod_mod by lia.
      rewrite (Z.mod_small (v mod 65536 / 256)) by
        (split; [apply Z.div_pos; lia | apply Z.div_lt_upper_bound; lia]).
      rewrite (Z.div_mod (v mod 65536) 256) at 3 by lia. lia.
    + apply int16le_bytes. exact Hv.
  - unfold bytes, encodeSamples. rewrite Uint8Array_of_buffer_length.
    unfold int16_of_samples. rewrite !length_map. reflexivity.
  - split; [reflexivity|]. apply decode_encode_bytes.
Qed.

Lemma createBlob_truncates_witness :
  quantize (Num (-7 # 131072)) = -1
  ∧ encodeSamples (map Num [1; -7 # 131072]%Q) !! 2%nat = Some xff.
Proof.
  pose proof (createBlob_truncates [1; -7 # 131072]%Q 1 (-7 # 131072)%Q
                eq_refl) as H.
  split; [exact (proj1 H) | reflexivity].
Defined.

(** For samples in [-1, 1], decoding the encoded samples gives back as
    many samples, each within 1/32768 of the original. *)
Lemma decodeSamples_encodeSamples_error (samples : list Q) :
  Forall (fun q => -1 <= q <= 1)%Q samples ->
  Forall2 (fun q r => ∃ q' : Q, r = Num q' ∧ (Qabs (q' - q) <= 1 # 32768)%Q)
    samples (decodeSamples (encodeSamples (map Num samples))).
Proof.
  intros H. rewrite decode_encode, map_map.
  induction H as [|q l Hq _ IH]; constructor; [|exact IH].
  eexists. split; [reflexivity|]. apply quantize_error. exact Hq.
Qed.

End CodecFacts.

(** ** The audio buffer builder *)
Module BufferFacts.
Import Js Utils JsFacts Base64Facts CodecFacts.

Lemma toUint32_range (x : number) : 0 <= toUint32 x < 4294967296.
Proof.
  destruct x; simpl; [apply Z.mod_pos_bound|..]; lia.
Qed.

(** What a successful [createBuffer] returns, and when it succeeds. *)
Lemma createBuffer_Normal (ctx : AudioContext) (a b : number) (rate : Q)
    (buf : AudioBuffer) :
  createBuffer ctx a b rate = Normal buf ->
  buf = {| buf_sampleRate := rate;
           buf_length := Z.to_nat (toUint32 b);
           buf_channels := replicate (Z.to_nat (toUint32 a))
                             (replicate (Z.to_nat (toUint32 b)) (Num 0)) |}
  ∧ 1 <= toUint32 a <= maxNumberOfChannels ctx
  ∧ 1 <= toUint32 b
  ∧ (minSampleRate ctx <= rate <= maxSampleRate ctx)%Q.
Proof.
  unfold createBuffer. intros H.
  pose proof (toUint32_range a). pose proof (toUint32_range b).
  destruct (toUint32 a =? 0) eqn:Ha; [discriminate|].
  destruct (maxNumberOfChannels ctx <? toUint32 a) eqn:Hm; [discriminate|].
  destruct (toUint32 b =? 0) eqn:Hb; [discriminate|].
  destruct (Qlt_bool rate (minSampleRate ctx)) eqn:Hlo; [discriminate|].
  destruct (Qlt_bool (maxSampleRate ctx) rate) eqn:Hhi; [discriminate|].
  simpl in H. injection H as <-.
  apply Qlt_bool_false in Hlo, Hhi.
  repeat split; try assumption; lia.
Qed.

Lemma createBuffer_accepts (ctx : AudioContext) (a b : number) (rate : Q) :
  1 <= toUint32 a <= maxNumberOfChannels ctx ->
  1 <= toUint32 b ->
  (minSampleRate ctx <= rate <= maxSampleRate ctx)%Q ->
  createBuffer ctx a b rate =
  Normal {| buf_sampleRate := rate;
            buf_length := Z.to_nat (toUint32 b);
            buf_channels := replicate (Z.to_nat (toUint32 a))
                              (replicate (Z.to_nat (toUint32 b)) (Num 0)) |}.
Proof.
  intros Ha Hb [Hlo Hhi]. unfold createBuffer.
  replace (toUint32 a =? 0) with false by (symmetry; apply Z.eqb_neq; lia).
  replace (maxNumberOfChannels ctx <? toUint32 a) with false
    by (symmetry; apply Z.ltb_ge; lia).
  replace (toUint32 b =? 0) with false by (symmetry; apply Z.eqb_neq; lia).
  apply Qlt_bool_false in Hlo, Hhi. rewrite Hlo, Hhi. reflexivity.
Qed.

Lemma createBuffer_rectangular (ctx : AudioContext) (a b : number) (rate : Q)
    (buf : AudioBuffer) :
  createBuffer ctx a b rate = Normal buf -> rectangular buf.
Proof.
  intros H. apply createBuffer_Normal in H as (-> & _).
  unfold rectangular. simpl. apply Forall_replicate, length_replicate.
Qed.

Lemma copyToChannel_Normal (buf : AudioBuffer) (source : list number)
    (c : nat) (buf' : AudioBuffer) :
  copyToChannel buf source c = Normal buf' ->
  ∃ old, buf_channels buf !! c = Some old
  ∧ buf_sampleRate buf' = buf_sampleRate buf
  ∧ buf_length buf' = buf_length buf
  ∧ buf_channels buf' =
      <[c := take (Nat.min (length source) (length old)) source
             ++ drop (Nat.min (length source) (length old)) old]>
        (buf_channels buf).
Proof.
  unfold copyToChannel. intros H.
  destruct (buf_channels buf !! c) as [old|]; [|discriminate].
  injection H as <-. exists old. repeat split.
Qed.

Lemma copyToChannel_rectangular (buf : AudioBuffer) (source : list number)
    (c : nat) (buf' : AudioBuffer) :
  rectangular buf -> copyToChannel buf source c = Normal buf' ->
  rectangular buf'.
Proof.
  intros Hr H. apply copyToChannel_Normal in H as (old & Hold & _ & Hl & Hc).
  unfold rectangular in *. rewrite Hc, Hl.
  apply Forall_insert; [exact Hr|].
  rewrite Forall_lookup in Hr. specialize (Hr _ _ Hold).
  rewrite length_app, length_take, length_drop. lia.
Qed.

(** The inner loop: entry [j] of the filled array, for [j] within both the
    loop bound and the array. *)
Section FillChannel.
Context {A : Type} (g : nat -> A).

Let fill (m : nat) (cd : list A) : list A :=
  fold_left (fun cd j => <[j := g j]> cd) (seq 0 m) cd.

Lemma fill_length (m : nat) (cd : list A) : length (fill m cd) = length cd.
Proof.
  unfold fill. induction m as [|m IH]; [reflexivity|].
  rewrite seq_S, fold_left_app. simpl. rewrite length_insert. exact IH.
Qed.

Lemma fill_lookup (m : nat) (cd : list A) (j : nat) :
  (j < m)%nat -> (j < length cd)%nat -> fill m cd !! j = Some (g j).
Proof.
  induction m as [|m IH]; intros Hm Hl; [lia|].
  unfold fill. rewrite seq_S, fold_left_app. simpl. fold (fill m cd).
  destruct (decide (j = m)) as [->|Hne].
  - apply list_lookup_insert_eq. rewrite fill_length. exact Hl.
  - rewrite list_lookup_insert_ne by congruence. apply IH; lia.
Qed.
End FillChannel.

Lemma fillChannel_length (df : list number) (n : nat) (bl : number) (i : nat)
    (cd : list number) :
  length (fillChannel df n bl i cd) = length cd.
Proof. unfold fillChannel. apply fill_length. Qed.

Lemma fillChannel_lookup (df : list number) (n : nat) (bl : number) (i : nat)
    (cd : list number) (j : nat) :
  (j < iterations bl)%nat -> (j < length cd)%nat ->
  fillChannel df n bl i cd !! j = Some (Float32Array_get df (j * n + i)).
Proof.
  unfold fillChannel.
  apply (fill_lookup (fun j => Float32Array_get df (j * n + i))).
Qed.

(** The outer loop over the channels [k, k + m). *)
Lemma for_each_extractChannel (df : list number) (n : nat) (bl : number)
    (m : nat) :
  ∀ (k : nat) (buf buf' : AudioBuffer),
    rectangular buf ->
    for_each (seq k m) (extractChannel df n bl) buf = Normal buf' ->
    buf_sampleRate buf' = buf_sampleRate buf
    ∧ buf_length buf' = buf_length buf
    ∧ rectangular buf'
    ∧ length (buf_channels buf') = length (buf_channels buf)
    ∧ (∀ c, (c < k ∨ k + m <= c)%nat ->
            buf_channels buf' !! c = buf_channels buf !! c)
    ∧ (∀ c, (k <= c < k + m)%nat ->
         ∃ cd chan, Float32Array_new bl = Normal cd
           ∧ buf_channels buf' !! c = Some chan
           ∧ ∀ j, (j < Nat.min (length cd) (buf_length buf))%nat ->
                  chan !! j = fillChannel df n bl c cd !! j).
Proof.
  induction m as [|m IH]; intros k buf buf' Hr H.
  - injection H as <-. repeat split; auto. intros c Hc. lia.
  - simpl in H.
    destruct (extractChannel df n bl k buf) as [buf1|e] eqn:E; [|discriminate].
    unfold extractChannel in E.
    destruct (Float32Array_new bl) as [cd|e] eqn:Ecd; [|discriminate].
    pose proof (copyToChannel_rectangular _ _ _ _ Hr E) as Hr1.
    apply copyToChannel_Normal in E as (old & Hold & Hs1 & Hl1 & Hc1).
    destruct (IH (S k) buf1 buf' Hr1 H) as (Hs & Hl & Hr' & Hn & Hout & Hin).
    assert (Hlold : length old = buf_length buf).
    { unfold rectangular in Hr. rewrite Forall_lookup in Hr. eauto. }
    repeat split.
    + congruence.
    + congruence.
    + exact Hr'.
    + rewrite Hn, Hc1. apply length_insert.
    + intros c Hc. rewrite Hout by lia. rewrite Hc1.
      apply list_lookup_insert_ne. lia.
    + intros c Hc. destruct (decide (c = k)) as [->|Hne].
      * exists cd. eexists. split; [reflexivity|]. split.
        -- rewrite Hout by lia. rewrite Hc1.
           apply list_lookup_insert_eq. eapply lookup_lt_Some. exact Hold.
        -- intros j Hj. rewrite fillChannel_length, Hlold.
           rewrite fillChannel_length in *.
           rewrite lookup_app_l by (rewrite length_take, fillChannel_length; lia).
           apply lookup_take_lt. lia.
      * destruct (Hin c ltac:(lia)) as (cd' & chan & Hcd' & Hchan & Hj).
        exists cd', chan. rewrite Hl1 in Hj. auto.
Qed.

(** *** The frame count *)

Lemma Int16Array_of_buffer_length (m : nat) :
  ∀ data : list byte, (2 * m <= length data)%nat ->
    length (Int16Array_of_buffer data m) = m.
Proof.
  induction m as [|m IH]; intros data H; [destruct data; reflexivity|].
  destruct data as [|b0 [|b1 rest]]; simpl in H; try lia.
  simpl. f_equal. apply IH. lia.
Qed.

Lemma wireSamples_length (data : list byte) :
  length (wireSamples data) = (length data / 2)%nat.
Proof.
  apply Int16Array_of_buffer_length.
  pose proof (Nat.div_mod_eq (length data) 2). lia.
Qed.

(** [byteLength] is twice the number of wire samples. *)
Lemma byteLength_even (len : nat) :
  (if Z.of_nat len mod 2 =? 0 then Z.of_nat len else Z.of_nat len - 1)
  = 2 * Z.of_nat (len / 2).
Proof.
  rewrite Nat2Z.inj_div. change (Z.of_nat 2) with 2.
  pose proof (Z.div_mod (Z.of_nat len) 2 ltac:(lia)) as Hd.
  pose proof (Z.mod_pos_bound (Z.of_nat len) 2 ltac:(lia)) as Hm.
  destruct (Z.eqb_spec (Z.of_nat len mod 2) 0); lia.
Qed.

(** [byteLength / 2 / numChannels] for a positive channel count: the
    number of wire samples over the channel count. *)
Lemma bufferLength_positive (s : Z) (p : positive) :
  div (div (ofZ (2 * s)) (ofZ 2)) (ofZ (Z.pos p))
  = Num (inject_Z (2 * s) / inject_Z 2 / inject_Z (Z.pos p))
  ∧ (inject_Z (2 * s) / inject_Z 2 / inject_Z (Z.pos p) == s # p)%Q.
Proof.
  split; [reflexivity|].
  rewrite Qmake_Qdiv, inject_Z_mult.
  change (inject_Z 2) with 2%Q. field.
  unfold Qeq. simpl. lia.
Qed.

(** With a channel count other than zero the frame count is finite. *)
Lemma bufferLength_finite (s n : Z) :
  n <> 0 ->
  div (div (ofZ (2 * s)) (ofZ 2)) (ofZ n)
  = Num (inject_Z (2 * s) / inject_Z 2 / inject_Z n).
Proof.
  intros Hn. unfold div, ofZ.
  change (Qeq_bool (inject_Z 2) 0) with false. cbv iota.
  destruct (Qeq_bool (inject_Z n) 0) eqn:E; [|reflexivity].
  apply Qeq_bool_iff in E. unfold Qeq in E. simpl in E. lia.
Qed.

Lemma truncate_frames (s : Z) (p : positive) (q : Q) :
  0 <= s -> (q == s # p)%Q ->
  truncate q = s / Z.pos p ∧ truncate q <= Qceiling q.
Proof.
  intros Hs Hq.
  assert (H0 : (0 <= q)%Q).
  { rewrite Hq. unfold Qle. simpl. lia. }
  rewrite truncate_nonneg by exact H0. split.
  - rewrite (Qfloor_comp _ _ Hq). reflexivity.
  - rewrite Zle_Qle.
    apply Qle_trans with q; [apply Qfloor_le|apply Qle_ceiling].
Qed.

(** *** [decodeAudioData], case by case *)

Lemma decodeAudioData_nonzero (data : list byte) (ctx : AudioContext)
    (rate : Q) (n : Z) :
  n <> 0 ->
  decodeAudioData data ctx rate n =
  if Qeq_bool (frameCount data n) 0 then
    Js.bind (warn "Received empty or malformed audio data for decoding.")
      (fun _ => lift (createBuffer ctx (ofZ (if 0 <? n then n else 1))
                        (ofZ 1) rate))
  else
    Js.bind (lift (createBuffer ctx (ofZ n) (Num (frameCount data n)) rate))
      (fun buffer =>
         if n =? 1 then lift (copyToChannel buffer (decodeSamples data) 0)
         else if 1 <? n then
           lift (for_each (seq 0 (Z.to_nat n))
                   (extractChannel (decodeSamples data) (Z.to_nat n)
                      (Num (frameCount data n)))
                   buffer)
         else
           Js.bind (warn ("Invalid number of channels: "
                          ++ NilZero.string_of_int (Z.to_int n)
                          ++ ". Cannot process audio data."))
             (fun _ => lift (createBuffer ctx (ofZ 1) (ofZ 1) rate))).
Proof.
  intros Hn. unfold decodeAudioData.
  rewrite byteLength_even, bufferLength_finite by exact Hn.
  fold (frameCount data n).
  replace (Z.to_nat (2 * Z.of_nat (length data / 2) / 2))
    with (length data / 2)%nat
    by (rewrite Z.mul_comm, Z.div_mul by lia; lia).
  reflexivity.
Qed.

Lemma frameCount_positive (data : list byte) (p : positive) :
  (frameCount data (Z.pos p) == Z.of_nat (length data / 2) # p)%Q.
Proof. apply bufferLength_positive. Qed.

Lemma frameCount_zero (data : list byte) (n : Z) :
  n <> 0 ->
  Qeq_bool (frameCount data n) 0 = true <-> (length data < 2)%nat.
Proof.
  intros Hn. rewrite Qeq_bool_iff.
  assert (Hn' : ¬ (inject_Z n == 0)%Q) by (unfold Qeq; simpl; lia).
  assert (Hf : (inject_Z (Z.of_nat (length data / 2))
                == frameCount data n * inject_Z n)%Q).
  { unfold frameCount. rewrite inject_Z_mult.
    change (inject_Z 2) with 2%Q. field. exact Hn'. }
  pose proof (Nat.div_mod_eq (length data) 2) as Hd.
  pose proof (Nat.mod_upper_bound (length data) 2 ltac:(lia)) as Hm.
  split; intros H.
  - rewrite H, Qmult_0_l in Hf. unfold Qeq in Hf.
    cbn [Qnum Qden inject_Z] in Hf. lia.
  - unfold frameCount. rewrite Nat.div_small by lia.
    change (inject_Z (2 * Z.of_nat 0)) with 0%Q. field. exact Hn'.
Qed.

Lemma decodeSamples_lookup (data : list byte) (k : nat) (v : Z) :
  wireSamples data !! k = Some v ->
  Float32Array_get (decodeSamples data) k = Num (inject_Z v / 32768).
Proof.
  intros H. unfold Float32Array_get, decodeSamples.
  rewrite float32_of_int16_finite.
  change (map ?f ?l) with (f <$> l). rewrite list_lookup_fmap, H.
  reflexivity.
Qed.

Lemma Float32Array_new_Normal (q : Q) (cd : list number) :
  Float32Array_new (Num q) = Normal cd ->
  cd = replicate (Z.to_nat (truncate q)) (Num 0).
Proof.
  unfold Float32Array_new, toIndex.
  destruct ((truncate q <? 0) || (9007199254740991 <? truncate q));
    [discriminate|].
  intros H. injection H as <-. reflexivity.
Qed.

(** The channels of a successfully decoded multi-channel input. *)
Lemma decodeAudioData_channels (data : list byte) (ctx : AudioContext)
    (rate : Q) (p : positive) (lines : list string) (buf : AudioBuffer) :
  1 < Z.pos p -> (2 <= length data)%nat ->
  decodeAudioData data ctx rate (Z.pos p) = (lines, Normal buf) ->
  lines = []
  ∧ buf_sampleRate buf = rate
  ∧ Z.of_nat (buf_length buf)
    = (Z.of_nat (length data / 2) / Z.pos p) mod 4294967296
  ∧ (1 <= buf_length buf)%nat
  ∧ rectangular buf
  ∧ Z.of_nat (length (buf_channels buf)) = Z.pos p mod 4294967296
  ∧ ∀ c j, (c < Pos.to_nat p)%nat -> (j < buf_length buf)%nat ->
      ∃ chan v, buf_channels buf !! c = Some chan
        ∧ wireSamples data !! (j * Pos.to_nat p + c)%nat = Some v
        ∧ chan !! j = Some (Num (inject_Z v / 32768)).
Proof.
  intros Hp Hlen H. rewrite decodeAudioData_nonzero in H by lia.
  destruct (Qeq_bool (frameCount data (Z.pos p)) 0) eqn:Hz.
  { apply frameCount_zero in Hz; lia. }
  set (q := frameCount data (Z.pos p)) in *.
  destruct (truncate_frames (Z.of_nat (length data / 2)) p q ltac:(lia)
              (frameCount_positive data p)) as [Htr Hceil].
  unfold Js.bind, lift in H.
  destruct (createBuffer ctx (ofZ (Z.pos p)) (Num q) rate) as [buffer|e] eqn:Ecb;
    [|discriminate].
  replace (Z.pos p =? 1) with false in H by (symmetry; apply Z.eqb_neq; lia).
  replace (1 <? Z.pos p) with true in H by (symmetry; apply Z.ltb_lt; lia).
  simpl in H. injection H as <- Hloop.
  pose proof (createBuffer_rectangular _ _ _ _ _ Ecb) as Hrect.
  apply createBuffer_Normal in Ecb as (Hbuffer & Hc & Hl & _).
  apply for_each_extractChannel in Hloop as (Hs & Hlb & Hr & Hn & _ & Hin);
    [|exact Hrect].
  assert (Hbl : Z.of_nat (buf_length buffer) = truncate q mod 4294967296).
  { rewrite Hbuffer. simpl. simpl in Hl. lia. }
  assert (Htq : 0 <= truncate q).
  { rewrite Htr. apply Z.div_pos; lia. }
  assert (Hle : truncate q mod 4294967296 <= truncate q).
  { apply Z.mod_le; lia. }
  split; [reflexivity|]. split; [rewrite Hs, Hbuffer; reflexivity|].
  split; [rewrite Hlb, Hbl, Htr; reflexivity|].
  split; [simpl in Hl; lia|]. split; [exact Hr|].
  split.
  { rewrite Hn, Hbuffer. simpl. rewrite length_replicate.
    unfold ofZ. rewrite truncate_Z. pose proof (toUint32_range (ofZ (Z.pos p))).
    apply Z2Nat.id. apply Z.mod_pos_bound. lia. }
  intros c j Hcp Hj.
  destruct (Hin c ltac:(lia)) as (cd & chan & Hcd & Hchan & Hlook).
  apply Float32Array_new_Normal in Hcd as Hcd'.
  assert (Hlcd : length cd = Z.to_nat (truncate q)).
  { rewrite Hcd'. apply length_replicate. }
  assert (Hk : (j * Pos.to_nat p + c < length (wireSamples data))%nat).
  { rewrite wireSamples_length.
    assert (Hjq : Z.of_nat j < Z.of_nat (length data / 2) / Z.pos p) by lia.
    assert (Hm : Z.pos p * (Z.of_nat (length data / 2) / Z.pos p)
                 <= Z.of_nat (length data / 2))
      by (apply Z.mul_div_le; lia).
    nia. }
  destruct (lookup_lt_is_Some_2 _ _ Hk) as [v Hv].
  exists chan, v. split; [exact Hchan|]. split; [exact Hv|].
  rewrite Hlook by lia.
  rewrite Z2Nat.inj_pos.
  rewrite fillChannel_lookup.
  - f_equal. apply decodeSamples_lookup. exact Hv.
  - simpl. lia.
  - lia.
Qed.

Lemma for_each_extractChannel_succeeds (df : list number) (n : nat)
    (bl : number) (cd : list number) (m : nat) :
  Float32Array_new bl = Normal cd ->
  ∀ (k : nat) (buf : AudioBuffer),
    (k + m <= length (buf_channels buf))%nat ->
    ∃ buf', for_each (seq k m) (extractChannel df n bl) buf = Normal buf'.
Proof.
  intros Hcd. induction m as [|m IH]; intros k buf Hk; [eexists; reflexivity|].
  simpl. unfold extractChannel at 1. rewrite Hcd.
  destruct (lookup_lt_is_Some_2 (buf_channels buf) k ltac:(lia)) as [old Hold].
  unfold copyToChannel. rewrite Hold.
  apply IH. simpl. rewrite length_insert. lia.
Qed.

(** A multi-channel input with at least one whole frame decodes, when the
    context accepts the channel count and the sample rate. *)
Lemma decodeAudioData_multi_succeeds (data : list byte) (ctx : AudioContext)
    (rate : Q) (p : positive) :
  1 < Z.pos p <= maxNumberOfChannels ctx -> Z.pos p < 4294967296 ->
  (minSampleRate ctx <= rate <= maxSampleRate ctx)%Q ->
  Z.pos p <= Z.of_nat (length data / 2) ->
  Z.of_nat (length data / 2) / Z.pos p < 4294967296 ->
  ∃ buf, decodeAudioData data ctx rate (Z.pos p) = ([], Normal buf).
Proof.
  intros Hp Hp32 Hrate Hframe Hsmall.
  rewrite decodeAudioData_nonzero by lia.
  destruct (Qeq_bool (frameCount data (Z.pos p)) 0) eqn:Hz.
  { apply frameCount_zero in Hz; [|lia].
    rewrite Nat.div_small in Hframe by lia. lia. }
  set (q := frameCount data (Z.pos p)) in *.
  destruct (truncate_frames (Z.of_nat (length data / 2)) p q ltac:(lia)
              (frameCount_positive data p)) as [Htr Hceil].
  assert (Hq1 : 1 <= truncate q).
  { rewrite Htr. apply Z.div_le_lower_bound; lia. }
  rewrite createBuffer_accepts; try assumption.
  - unfold Js.bind, lift.
    replace (Z.pos p =? 1) with false by (symmetry; apply Z.eqb_neq; lia).
    replace (1 <? Z.pos p) with true by (symmetry; apply Z.ltb_lt; lia).
    edestruct (for_each_extractChannel_succeeds (decodeSamples data)
                 (Z.to_nat (Z.pos p)) (Num q)) as [buf' Hbuf'].
    + unfold Float32Array_new, toIndex.
      replace ((truncate q <? 0) || (9007199254740991 <? truncate q))
        with false; [reflexivity|].
      symmetry. apply orb_false_iff. split; [apply Z.ltb_ge|apply Z.ltb_ge]; lia.
    + shelve.
    + rewrite Hbuf'. eexists. reflexivity.
  - unfold ofZ, toUint32. rewrite truncate_Z, Z.mod_small; lia.
  - unfold toUint32. rewrite Z.mod_small; lia.
  Unshelve.
  simpl. rewrite length_replicate. unfold ofZ. rewrite truncate_Z.
  rewrite Z.mod_small by lia. lia.
Qed.



(** *** Channel counts and inputs [createBuffer] rejects *)

(** With a channel count of zero the frame count is NaN or infinite, never
    [=== 0]; [createBuffer] is called with zero channels and throws before
    the fallback to a silent mono buffer is reached. *)
Lemma decodeAudioData_zero_channels (data : list byte) (ctx : AudioContext)
    (rate : Q) :
  decodeAudioData data ctx rate 0 = ([], Throw NotSupportedError).
Proof.
  unfold decodeAudioData. rewrite byteLength_even.
  set (s := Z.of_nat (length data / 2)).
  assert (Hbl : div (div (ofZ (2 * s)) (ofZ 2)) (ofZ 0) = NaN
                ∨ div (div (ofZ (2 * s)) (ofZ 2)) (ofZ 0) = PosInf
                ∨ div (div (ofZ (2 * s)) (ofZ 2)) (ofZ 0) = NegInf).
  { unfold div, ofZ. change (Qeq_bool (inject_Z 2) 0) with false.
    change (Qeq_bool (inject_Z 0) 0) with true. cbv iota.
    destruct (Qeq_bool _ 0); [|destruct (Qlt_bool 0 _)]; auto. }
  destruct Hbl as [-> | [-> | ->]]; reflexivity.
Qed.

(** A negative channel count converts to a channel count near 2^32, which
    [createBuffer] rejects as well. *)
Lemma decodeAudioData_negative_channels (data : list byte)
    (ctx : AudioContext) (rate : Q) (n : Z) :
  n < 0 -> maxNumberOfChannels ctx - 4294967296 < n ->
  (2 <= length data)%nat ->
  decodeAudioData data ctx rate n = ([], Throw NotSupportedError).
Proof.
  intros Hn Hmax Hlen. rewrite decodeAudioData_nonzero by lia.
  destruct (Qeq_bool (frameCount data n) 0) eqn:Hz.
  { apply frameCount_zero in Hz; lia. }
  assert (Hcb : createBuffer ctx (ofZ n) (Num (frameCount data n)) rate
                = Throw NotSupportedError).
  { unfold createBuffer.
    destruct (toUint32 (ofZ n) =? 0) eqn:E0; [reflexivity|].
    replace (maxNumberOfChannels ctx <? toUint32 (ofZ n)) with true;
      [reflexivity|].
    symmetry. apply Z.ltb_lt. apply Z.eqb_neq in E0.
    unfold ofZ, toUint32 in *. rewrite truncate_Z in *.
    pose proof (Z.mod_pos_bound n 4294967296 ltac:(lia)) as Hb.
    destruct (Z.le_gt_cases (-4294967296) n) as [Hge|Hlt]; [|lia].
    assert (Hmod : n mod 4294967296 = n + 4294967296 ∨ n = -4294967296).
    { destruct (Z.eq_dec n (-4294967296)) as [->|Hne]; [right; reflexivity|].
      left. symmetry. apply Z.mod_unique with (q := -1); lia. }
    destruct Hmod as [->| ->]; [lia|]. exfalso. apply E0. reflexivity. }
  rewrite Hcb. reflexivity.
Qed.

(** An input shorter than one frame has a frame count strictly between 0
    and 1, which is not [=== 0] and converts to a length of 0. *)
Lemma decodeAudioData_short_frame (data : list byte) (ctx : AudioContext)
    (rate : Q) (p : positive) :
  (2 <= length data)%nat -> Z.of_nat (length data / 2) < Z.pos p ->
  decodeAudioData data ctx rate (Z.pos p) = ([], Throw NotSupportedError).
Proof.
  intros Hlen Hshort. rewrite decodeAudioData_nonzero by lia.
  destruct (Qeq_bool (frameCount data (Z.pos p)) 0) eqn:Hz.
  { apply frameCount_zero in Hz; lia. }
  destruct (truncate_frames (Z.of_nat (length data / 2)) p
              (frameCount data (Z.pos p)) ltac:(lia)
              (frameCount_positive data p)) as [Htr _].
  unfold createBuffer.
  replace (toUint32 (Num (frameCount data (Z.pos p)))) with 0.
  - rewrite !orb_true_r. reflexivity.
  - unfold toUint32. rewrite Htr, Z.div_small by lia. reflexivity.
Qed.

(** An empty input (or a single byte) with a channel count the context
    accepts gives the silent single-frame buffer, and a warning. *)
Lemma decodeAudioData_empty (data : list byte) (ctx : AudioContext)
    (rate : Q) (p : positive) :
  (length data < 2)%nat ->
  Z.pos p <= maxNumberOfChannels ctx -> Z.pos p < 4294967296 ->
  (minSampleRate ctx <= rate <= maxSampleRate ctx)%Q ->
  decodeAudioData data ctx rate (Z.pos p) =
  (["Received empty or malformed audio data for decoding."%string],
   Normal {| buf_sampleRate := rate; buf_length := 1;
             buf_channels := replicate (Pos.to_nat p) [Num 0] |}).
Proof.
  intros Hlen Hmax H32 Hrate. rewrite decodeAudioData_nonzero by lia.
  apply (frameCount_zero data (Z.pos p)) in Hlen; [|lia]. rewrite Hlen.
  change (0 <? Z.pos p) with true. cbv iota.
  rewrite createBuffer_accepts; try assumption.
  - unfold ofZ, toUint32. rewrite !truncate_Z.
    rewrite (Z.mod_small (Z.pos p)) by lia. reflexivity.
  - unfold ofZ, toUint32. rewrite truncate_Z, Z.mod_small; lia.
  - unfold ofZ, toUint32. rewrite truncate_Z. reflexivity.
Qed.

(** C6: [decodeAudioData] does throw.  With zero channels it throws for
    every input, empty or not, in place of the silent mono buffer of its
    last branch; it throws as well for a negative channel count with data,
    and for a stereo input of a single sample, whose frame count of 0.5 is
    neither [=== 0] nor a length [createBuffer] accepts. *)
Theorem decodeAudioData_throws :
  (∀ (data : list byte) (ctx : AudioContext) (rate : Q),
     decodeAudioData data ctx rate 0 = ([], Throw NotSupportedError))
  ∧ decodeAudioData [x01; x00; x02; x00] minimalContext 48000 (-1)
    = ([], Throw NotSupportedError)
  ∧ decodeAudioData [x01; x00] minimalContext 48000 2
    = ([], Throw NotSupportedError).
Proof.
  split; [exact decodeAudioData_zero_channels|].
  split.
  - apply decodeAudioData_negative_channels; simpl; lia.
  - apply (decodeAudioData_short_frame [x01; x00] minimalContext 48000 2);
      simpl; lia.
Qed.

(** A mono input: channel 0 is the decoded sample sequence. *)
Lemma decodeAudioData_mono (data : list byte) (ctx : AudioContext) (rate : Q) :
  (2 <= length data)%nat -> Z.of_nat (length data / 2) < 4294967296 ->
  1 <= maxNumberOfChannels ctx ->
  (minSampleRate ctx <= rate <= maxSampleRate ctx)%Q ->
  decodeAudioData data ctx rate 1 =
  ([], Normal {| buf_sampleRate := rate; buf_length := (length data / 2)%nat;
                 buf_channels := [decodeSamples data] |}).
Proof.
  intros Hlen H32 Hmax Hrate. rewrite decodeAudioData_nonzero by lia.
  destruct (Qeq_bool (frameCount data 1) 0) eqn:Hz.
  { apply frameCount_zero in Hz; lia. }
  destruct (truncate_frames (Z.of_nat (length data / 2)) 1
              (frameCount data 1) ltac:(lia)
              (frameCount_positive data 1%positive)) as [Htr _].
  rewrite Z.div_1_r in Htr.
  assert (Hs : 1 <= Z.of_nat (length data / 2)).
  { pose proof (Nat.div_mod_eq (length data) 2).
    pose proof (Nat.mod_upper_bound (length data) 2 ltac:(lia)). lia. }
  assert (Hu : toUint32 (Num (frameCount data 1)) = Z.of_nat (length data / 2)).
  { unfold toUint32. rewrite Htr, Z.mod_small; lia. }
  rewrite createBuffer_accepts; try assumption;
    [|change (toUint32 (ofZ 1)) with 1; lia|lia].
  rewrite Hu, Nat2Z.id. change (toUint32 (ofZ 1)) with 1.
  assert (Hl : length (decodeSamples data) = (length data / 2)%nat).
  { unfold decodeSamples. rewrite float32_of_int16_finite, length_map.
    apply wireSamples_length. }
  remember (length data / 2)%nat as m eqn:Em.
  unfold Js.bind, lift. simpl.
  unfold copyToChannel. simpl.
  rewrite length_replicate, Hl, Nat.min_id.
  rewrite take_ge by lia.
  rewrite drop_ge by (rewrite length_replicate; lia).
  rewrite app_nil_r. reflexivity.
Qed.

(** C8: for every sample sequence in [-1, 1], the text [createBlob] makes
    of it decodes to the bytes of the 16-bit samples (the specification's
    [encodeSamples]); the floats [decodeAudioData] makes of these bytes,
    each 16-bit integer divided by 32768 (the specification's
    [decodeSamples]), are as many as the samples and each within 1/32768
    of the original; and they are the channel of the buffer that
    [decodeAudioData] returns for one channel, when the sequence is not
    empty and the context accepts its length and the sample rate. *)
Theorem createBlob_decodeAudioData_error (samples : list Q)
    (ctx : AudioContext) (rate : Q) :
  Forall (fun q => -1 <= q <= 1)%Q samples ->
  let bytes := encodeSamples (map Num samples) in
  decode (data (createBlob (map Num samples))) = Normal bytes
  ∧ Forall2 (fun q r => ∃ q' : Q, r = Num q' ∧ (Qabs (q' - q) <= 1 # 32768)%Q)
      samples (decodeSamples bytes)
  ∧ (samples <> [] -> Z.of_nat (length samples) < 4294967296 ->
     1 <= maxNumberOfChannels ctx ->
     (minSampleRate ctx <= rate <= maxSampleRate ctx)%Q ->
     decodeAudioData bytes ctx rate 1 =
     ([], Normal {| buf_sampleRate := rate; buf_length := length samples;
                    buf_channels := [decodeSamples bytes] |})).
Proof.
  intros H bytes.
  split; [apply decode_encode_bytes|].
  split; [apply decodeSamples_encodeSamples_error; exact H|].
  intros Hne H32 Hmax Hrate.
  assert (Hlen : length bytes = (2 * length samples)%nat).
  { unfold bytes, encodeSamples, int16_of_samples.
    rewrite Uint8Array_of_buffer_length, !length_map. reflexivity. }
  assert (Hhalf : (length bytes / 2)%nat = length samples).
  { rewrite Hlen, Nat.mul_comm, Nat.div_mul; lia. }
  rewrite decodeAudioData_mono; try assumption.
  - rewrite Hhalf. reflexivity.
  - rewrite Hlen. destruct samples; [congruence|]. simpl. lia.
  - rewrite Hhalf. exact H32.
Qed.

Lemma createBlob_decodeAudioData_error_witness :
  let samples := [1; -1; 7 # 131072]%Q in
  let bytes := encodeSamples (map Num samples) in
  decode (data (createBlob (map Num samples))) = Normal bytes
  ∧ Forall2 (fun q r => ∃ q' : Q, r = Num q' ∧ (Qabs (q' - q) <= 1 # 32768)%Q)
      samples (decodeSamples bytes)
  ∧ decodeAudioData bytes minimalContext 16000 1 =
    ([], Normal {| buf_sampleRate := 16000; buf_length := 3;
                   buf_channels := [decodeSamples bytes] |}).
Proof.
  intros samples bytes.
  assert (Hs : Forall (fun q => -1 <= q <= 1)%Q samples)
    by (repeat constructor; unfold Qle; simpl; lia).
  destruct (createBlob_decodeAudioData_error samples minimalContext 16000 Hs)
    as (Hd & Herr & Hbuf).
  split; [exact Hd|]. split; [exact Herr|].
  apply Hbuf.
  - discriminate.
  - simpl. lia.
  - simpl. lia.
  - split; unfold Qle; simpl; lia.
Defined.

(** C9: with more than one channel, every frame [j] of every channel [c]
    of the buffer [decodeAudioData] returns is the wire sample at flat index
    [j * numChannels + c] (as a float, over 32768); and it does return such
    a buffer, with as many frames as the input has whole frames, when the
    input holds at least one whole frame and the context accepts the
    channel count and the sample rate. *)
Theorem decodeAudioData_deinterleaves (data : list byte) (ctx : AudioContext)
    (rate : Q) (numChannels : Z) :
  1 < numChannels ->
  (∀ (lines : list string) (buf : AudioBuffer),
     decodeAudioData data ctx rate numChannels = (lines, Normal buf) ->
     ∀ (c j : nat) (v : Z),
       (c < Z.to_nat numChannels)%nat -> (j < buf_length buf)%nat ->
       wireSamples data !! (j * Z.to_nat numChannels + c)%nat = Some v ->
       ∃ chan, getChannelData buf c = Some chan
               ∧ chan !! j = Some (Num (inject_Z v / 32768)))
  ∧ (numChannels <= maxNumberOfChannels ctx -> numChannels < 4294967296 ->
     (minSampleRate ctx <= rate <= maxSampleRate ctx)%Q ->
     numChannels <= Z.of_nat (length data / 2) ->
     Z.of_nat (length data / 2) / numChannels < 4294967296 ->
     ∃ buf, decodeAudioData data ctx rate numChannels = ([], Normal buf)
       ∧ buf_sampleRate buf = rate
       ∧ numberOfChannels buf = Z.to_nat numChannels
       ∧ Z.of_nat (buf_length buf) = Z.of_nat (length data / 2) / numChannels
       ∧ ∀ c j : nat,
           (c < Z.to_nat numChannels)%nat -> (j < buf_length buf)%nat ->
           ∃ chan v, getChannelData buf c = Some chan
             ∧ length chan = buf_length buf
             ∧ wireSamples data !! (j * Z.to_nat numChannels + c)%nat = Some v
             ∧ chan !! j = Some (Num (inject_Z v / 32768))).
Proof.
  intros Hn. destruct numChannels as [|p|p]; try lia.
  rewrite Z2Nat.inj_pos. split.
  - intros lines buf H c j v Hc Hj Hv.
    destruct (Nat.lt_ge_cases (length data) 2) as [Hshort|Hlong].
    + apply lookup_lt_Some in Hv. rewrite wireSamples_length in Hv.
      rewrite Nat.div_small in Hv by exact Hshort. lia.
    + destruct (decodeAudioData_channels _ _ _ _ _ _ Hn Hlong H)
        as (_ & _ & _ & _ & _ & _ & Hch).
      destruct (Hch c j Hc Hj) as (chan & v' & Hchan & Hv' & Hcj).
      exists chan. split; [exact Hchan|]. congruence.
  - intros Hmax H32 Hrate Hframe Hsmall.
    destruct (decodeAudioData_multi_succeeds data ctx rate p) as [buf Hbuf];
      try assumption; [lia|].
    assert (Hlong : (2 <= length data)%nat).
    { destruct (Nat.lt_ge_cases (length data) 2) as [Hshort|Hlong]; [|exact Hlong].
      rewrite Nat.div_small in Hframe by exact Hshort. lia. }
    destruct (decodeAudioData_channels _ _ _ _ _ _ Hn Hlong Hbuf)
      as (_ & Hs & Hl & _ & Hr & Hnc & Hch).
    exists buf. split; [exact Hbuf|]. split; [exact Hs|].
    split; [unfold numberOfChannels; rewrite Z.mod_small in Hnc; lia|].
    split.
    { rewrite Hl. apply Z.mod_small. split; [apply Z.div_pos; lia|lia]. }
    intros c j Hc Hj.
    destruct (Hch c j Hc Hj) as (chan & v & Hchan & Hv & Hcj).
    exists chan, v. repeat split; try assumption.
    unfold rectangular in Hr. rewrite Forall_lookup in Hr. eauto.
Qed.

(** The stereo example of C9: the interleaved input [L0, R0, L1, R1]
    decodes to channel 0 = [L0, L1] and channel 1 = [R0, R1]. *)
Lemma decodeAudioData_stereo (l0 l0' r0 r0' l1 l1' r1 r1' : byte)
    (ctx : AudioContext) (rate : Q) :
  2 <= maxNumberOfChannels ctx ->
  (minSampleRate ctx <= rate <= maxSampleRate ctx)%Q ->
  decodeAudioData [l0; l0'; r0; r0'; l1; l1'; r1; r1'] ctx rate 2 =
  ([], Normal {| buf_sampleRate := rate; buf_length := 2;
                 buf_channels :=
                   [[Num (inject_Z (int16le l0 l0') / 32768);
                     Num (inject_Z (int16le l1 l1') / 32768)];
                    [Num (inject_Z (int16le r0 r0') / 32768);
                     Num (inject_Z (int16le r1 r1') / 32768)]] |}).
Proof.
  intros Hmax Hrate. rewrite decodeAudioData_nonzero by lia.
  change (Qeq_bool (frameCount _ 2) 0) with false. cbv iota.
  rewrite createBuffer_accepts; try assumption.
  - reflexivity.
  - change (toUint32 (ofZ 2)) with 2. lia.
  - vm_compute. discriminate.
Qed.

Lemma decodeAudioData_deinterleaves_witness :
  ∃ buf chan,
    decodeAudioData [x01; x00; x02; x00; x03; x00; xff; xff]
      minimalContext 48000 2 = ([], Normal buf)
    ∧ getChannelData buf 1 = Some chan
    ∧ chan !! 1%nat = Some (Num (inject_Z (-1) / 32768)).
Proof.
  pose proof (decodeAudioData_deinterleaves
                [x01; x00; x02; x00; x03; x00; xff; xff]
                minimalContext 48000 2 ltac:(lia)) as [Hpart Htotal].
  assert (Hrate : (minSampleRate minimalContext <= 48000
                   <= maxSampleRate minimalContext)%Q)
    by (split; unfold Qle; simpl; lia).
  assert (H1 : 2 <= maxNumberOfChannels minimalContext) by (simpl; lia).
  assert (H2 : 2 < 4294967296) by lia.
  assert (H3 : 2 <= Z.of_nat (length [x01; x00; x02; x00; x03; x00; xff; xff]
                                / 2)) by (simpl; lia).
  assert (H4 : Z.of_nat (length [x01; x00; x02; x00; x03; x00; xff; xff] / 2)
               / 2 < 4294967296) by reflexivity.
  destruct (Htotal H1 H2 Hrate H3 H4) as (buf & Hbuf & _ & _ & Hlen & _).
  assert (Hj : (1 < buf_length buf)%nat)
    by (change (Z.of_nat (buf_length buf) = 2) in Hlen; lia).
  assert (Hc : (1 < Z.to_nat 2)%nat) by (simpl; lia).
  destruct (Hpart _ _ Hbuf 1%nat 1%nat (-1) Hc Hj eq_refl)
    as (chan & Hchan & Hcj).
  exists buf, chan. auto.
Defined.

End BufferFacts.

(** ** The scheduler *)
Module SchedulerFacts.
Import Js Utils Scheduler.
Local Open Scope Q_scope.

Lemma currentTime_nonneg (ctx : AudioContext) : 0 <= currentTime ctx.
Proof.
  unfold currentTime, Qle. simpl. lia.
Qed.

Lemma bufferTime_seconds : bufferTime == 2 ∧ bufferTime * 1000 == 2000.
Proof. split; reflexivity. Qed.

(** Where [onSegmentDecoded] places a buffer, in each of its three cases. *)
Lemma onSegmentDecoded_first (audioBuffer : AudioBuffer) (dj : PromptDj) :
  nextStartTime dj == 0 ->
  let now := currentTime (audioContext dj) in
  onSegmentDecoded audioBuffer dj =
  set_nextStartTime (now + bufferTime + duration audioBuffer)
    (set_started (started dj ++ [{| destination := outputNode dj;
                                    when := now + bufferTime;
                                    buffer := audioBuffer |}])
       (setTimeout LoadingToPlaying (bufferTime * 1000)
          (set_nextStartTime (now + bufferTime) dj))).
Proof.
  intros H0 now. unfold onSegmentDecoded. fold now.
  apply Qeq_bool_iff in H0. rewrite H0.
  assert (Hn : Qlt_bool (now + bufferTime) now = false).
  { apply Qlt_bool_false. unfold bufferTime. lra. }
  cbn [nextStartTime setTimeout set_timers set_nextStartTime].
  rewrite Hn. reflexivity.
Qed.

Lemma onSegmentDecoded_underrun (audioBuffer : AudioBuffer) (dj : PromptDj) :
  underrun dj = true ->
  let now := currentTime (audioContext dj) in
  onSegmentDecoded audioBuffer dj =
  set_nextStartTime (now + bufferTime + duration audioBuffer)
    (set_started (started dj ++ [{| destination := outputNode dj;
                                    when := now + bufferTime;
                                    buffer := audioBuffer |}])
       (set_nextStartTime (now + bufferTime)
          (set_playbackState loading (log "Audio buffer underrun" dj)))).
Proof.
  intros Hu now. unfold underrun in Hu.
  apply andb_true_iff in Hu as [H0 Hlt]. apply negb_true_iff in H0.
  subst now. unfold onSegmentDecoded. rewrite H0, Hlt. reflexivity.
Qed.

Lemma onSegmentDecoded_steady (audioBuffer : AudioBuffer) (dj : PromptDj) :
  Qeq_bool (nextStartTime dj) 0 = false -> underrun dj = false ->
  onSegmentDecoded audioBuffer dj =
  set_nextStartTime (nextStartTime dj + duration audioBuffer)
    (set_started (started dj ++ [{| destination := outputNode dj;
                                    when := nextStartTime dj;
                                    buffer := audioBuffer |}]) dj).
Proof.
  unfold underrun. intros H0 Hu. rewrite H0 in Hu. simpl in Hu.
  unfold onSegmentDecoded. rewrite H0, Hu. reflexivity.
Qed.

(** Reduce the field reads of updated components. *)
Ltac fields :=
  cbn [audioContext outputNode nextStartTime playbackState prompts
       filteredPrompts session connectionError displaySpectrogram timers
       started console toasts sent setSessionPrompts_lastCall
       updateSettings_lastCall
       set_audioContext set_outputNode set_nextStartTime set_playbackState
       set_prompts set_filteredPrompts set_session set_connectionError
       set_displaySpectrogram set_timers set_started set_console set_toasts
       set_sent set_setSessionPrompts_lastCall set_updateSettings_lastCall
       log show send setTimeout replaceOutputNode] in *.

(** What [onmessage] does before it reaches the scheduler leaves the
    schedule alone. *)
Lemma onmessage_decoded (e : LiveMusicServerMessage) (dj : PromptDj)
    (audioBuffer : AudioBuffer) :
  accepting dj = true -> decodedBuffer e dj = Some audioBuffer ->
  ∃ dj0, onmessage e dj = onSegmentDecoded audioBuffer dj0
         ∧ schedule dj0 = schedule dj
         ∧ ∃ lines, console dj0
                    = console dj ++ "Received message from the server: %s\n"
                                    :: lines.
Proof.
  unfold accepting, decodedBuffer, onmessage. intros Hacc Hdec.
  destruct (audioChunks e) as [[|chunk chunks]|]; try discriminate.
  destruct (setupComplete e), (filteredPrompt e) as [fp|];
    cbn [playbackState audioContext log show set_console set_toasts
         set_connectionError set_filteredPrompts] in *;
    destruct (playbackState dj); try discriminate;
    destruct (decode chunk) as [bytes|err0]; try discriminate;
    destruct (decodeAudioData bytes (audioContext dj) sampleRate 2)
      as [lines [b|err]]; try discriminate;
    injection Hdec as ->;
    (eexists; split; [reflexivity|]; split; [reflexivity|]);
    exists lines; fields; rewrite <- app_assoc; reflexivity.
Qed.

Lemma onmessage_not_decoded (e : LiveMusicServerMessage) (dj : PromptDj) :
  accepting dj = false ∨ decodedBuffer e dj = None ->
  schedule (onmessage e dj) = schedule dj.
Proof.
  unfold accepting, decodedBuffer, onmessage. intros H.
  destruct (setupComplete e), (filteredPrompt e) as [fp|],
    (audioChunks e) as [[|chunk chunks]|];
    cbn [playbackState audioContext log show set_console set_toasts
         set_connectionError set_filteredPrompts] in *;
    try reflexivity;
    destruct (playbackState dj); try reflexivity;
    try (destruct H; discriminate);
    destruct (decode chunk) as [bytes|err0]; try reflexivity;
    destruct (decodeAudioData bytes (audioContext dj) sampleRate 2)
      as [lines [b|err]]; try reflexivity; destruct H; discriminate.
Qed.




(** *** Events other than a decoded buffer *)

Lemma setSessionPrompts_schedule (now : Z) (dj : PromptDj) :
  schedule (setSessionPrompts now dj) = schedule dj.
Proof.
  unfold setSessionPrompts, throttle, sendSessionPrompts.
  destruct (200 <=? now - setSessionPrompts_lastCall dj); [|reflexivity].
  destruct (negb (session dj) || connectionError dj); reflexivity.
Qed.

Lemma updateSettings_schedule (now : Z) (e : SettingsControllerState)
    (dj : PromptDj) :
  schedule (updateSettings now e dj) = schedule dj.
Proof.
  unfold updateSettings, throttle, sendSettings.
  destruct (200 <=? now - updateSettings_lastCall dj); [|reflexivity].
  fields. destruct (negb (session dj) || connectionError dj); reflexivity.
Qed.

Lemma stopAudio_fields (dj : PromptDj) :
  playbackState (stopAudio dj) = stopped
  ∧ nextStartTime (stopAudio dj) = 0
  ∧ started (stopAudio dj) = started dj
  ∧ timers (stopAudio dj) = timers dj
  ∧ audioContext (stopAudio dj) = audioContext dj.
Proof.
  unfold stopAudio. destruct (sessionUsable dj); repeat split.
Qed.

Lemma pauseAudio_fields (dj : PromptDj) :
  playbackState (pauseAudio dj) = paused
  ∧ nextStartTime (pauseAudio dj) = 0
  ∧ started (pauseAudio dj) = started dj
  ∧ timers (pauseAudio dj) = timers dj
  ∧ audioContext (pauseAudio dj) = audioContext dj.
Proof.
  unfold pauseAudio. destruct (sessionUsable dj); repeat split.
Qed.

Lemma loadAudio_fields (dj : PromptDj) :
  playbackState (loadAudio dj) = loading
  ∧ nextStartTime (loadAudio dj) = nextStartTime dj
  ∧ started (loadAudio dj) = started dj
  ∧ timers (loadAudio dj) = timers dj
  ∧ audioContext (loadAudio dj) = audioContext dj
  ∧ outputNode (loadAudio dj) = outputNode dj.
Proof.
  unfold loadAudio. destruct (sessionUsable dj); repeat split.
Qed.

Lemma runTimer_fields (cb : TimerCallback) (dj : PromptDj) :
  playbackState (runTimer cb dj)
  = (if PlaybackState_eqb (playbackState dj) loading then playing
     else playbackState dj)
  ∧ nextStartTime (runTimer cb dj) = nextStartTime dj
  ∧ started (runTimer cb dj) = started dj
  ∧ timers (runTimer cb dj) = timers dj
  ∧ audioContext (runTimer cb dj) = audioContext dj
  ∧ outputNode (runTimer cb dj) = outputNode dj.
Proof.
  destruct cb. unfold runTimer.
  destruct (PlaybackState_eqb (playbackState dj) loading); repeat split.
Qed.

(** Only a decoded buffer starts a source. *)
Lemma step_started (ev : Event) (dj : PromptDj) :
  (∀ e, ev = OnMessage e -> accepting dj = false ∨ decodedBuffer e dj = None) ->
  started (step ev dj) = started dj.
Proof.
  intros H. destruct ev as [e| | |k|quanta| | | |now ps|now e|msg|msg];
    cbn [step].
  - pose proof (onmessage_not_decoded e dj (H e eq_refl)) as Hs.
    unfold schedule in Hs. congruence.
  - unfold onerror. fields.
    match goal with |- context [stopAudio ?x] =>
      destruct (stopAudio_fields x) as (_ & _ & -> & _) end.
    reflexivity.
  - unfold onclose. fields.
    destruct (playbackState dj); try reflexivity;
      match goal with |- context [stopAudio ?x] =>
        destruct (stopAudio_fields x) as (_ & _ & -> & _) end;
      reflexivity.
  - destruct (timers dj !! k) as [t|]; [|reflexivity].
    destruct (runTimer_fields (callback t) (set_timers (delete k (timers dj)) dj))
      as (_ & _ & -> & _).
    reflexivity.
  - reflexivity.
  - apply pauseAudio_fields.
  - apply loadAudio_fields.
  - apply stopAudio_fields.
  - pose proof (setSessionPrompts_schedule now (set_prompts ps dj)) as Hs.
    unfold schedule in Hs. injection Hs as _ _ _ _ _ Hs. exact Hs.
  - pose proof (updateSettings_schedule now e dj) as Hs.
    unfold schedule in Hs. injection Hs as _ _ _ _ _ Hs. exact Hs.
  - unfold setWeightedPromptsRejected.
    match goal with |- context [pauseAudio ?x] =>
      destruct (pauseAudio_fields x) as (_ & _ & -> & _) end.
    reflexivity.
  - reflexivity.
Qed.

(** C3: an audio message that arrives while the state is [paused] or
    [stopped] is dropped before anything is decoded: no source is started,
    the cursor, the state and the timers stay as they are, and the console
    shows the receipt of the message only (a message that carries audio
    alone leaves no other trace); and no event handled in those two states
    starts a source. *)
Theorem idle_drops_audio (e : LiveMusicServerMessage)
    (chunks : list string) (dj : PromptDj) :
  audioChunks e = Some chunks ->
  playbackState dj = paused ∨ playbackState dj = stopped ->
  let dj' := onmessage e dj in
  started dj' = started dj
  ∧ nextStartTime dj' = nextStartTime dj
  ∧ playbackState dj' = playbackState dj
  ∧ timers dj' = timers dj
  ∧ console dj'
    = console dj ++ ["Received message from the server: %s\n"%string]
  ∧ (∀ ev, started (step ev dj) = started dj)
  ∧ (setupComplete e = false -> filteredPrompt e = None ->
     dj' = log "Received message from the server: %s\n" dj).
Proof.
  intros He Hidle dj'.
  assert (Hacc : accepting dj = false).
  { unfold accepting. destruct Hidle as [-> | ->]; reflexivity. }
  pose proof (onmessage_not_decoded e dj (or_introl Hacc)) as Hs.
  unfold schedule in Hs. injection Hs as _ _ Hns Hst Htm Hsta.
  do 4 (split; [assumption|]). split.
  - subst dj'. unfold onmessage. rewrite He.
    destruct (setupComplete e), (filteredPrompt e); fields;
      destruct Hidle as [-> | ->]; reflexivity.
  - split; [intros ev; apply step_started; auto|].
    intros Hsetup Hfiltered. subst dj'. unfold onmessage.
    rewrite He, Hsetup, Hfiltered. fields.
    destruct Hidle as [-> | ->]; reflexivity.
Qed.

Lemma idle_drops_audio_witness :
  started (onmessage (audioMessage "AQACAA==")
             (init minimalContext [])) = [].
Proof.
  exact (proj1 (idle_drops_audio (audioMessage "AQACAA==")
                  ["AQACAA=="%string] (init minimalContext [])
                  eq_refl (or_intror eq_refl))).
Defined.



(** *** Steady runs *)


(** *** After an underrun *)








End SchedulerFacts.

(** ** Double arithmetic *)
Module Binary64Facts.
Import Binary64.
Local Open Scope Q_scope.







Lemma pow2_sub (a b : Z) : pow2 (a - b) == pow2 a / pow2 b.
Proof. apply Qpower_minus. discriminate. Qed.








(** *** Rounding to an integer *)






(** *** The exponent of the last place *)






(** *** Rounding to a double *)
















(** Some values: the doubles written 0.1 and 2.0106666666666668, a tie at
    53 bits that goes to the even significand, and a tie among the
    subnormals. *)
Lemma binary64_values :
  binary64 (1 # 10) = 3602879701896397 # 36028797018963968
  ∧ binary64 (96512 # 48000) = 4527618825383139 # 2251799813685248
  ∧ binary64 9007199254740993 = 9007199254740992
  ∧ binary64 9007199254740995 = 9007199254740996
  ∧ binary64 (- (1 # 3)) = - (6004799503160661 # 18014398509481984)
  ∧ binary64 ((3 # 2) * pow2 (-1074)) == pow2 (-1073)
  ∧ binary64 ((1 # 2) * pow2 (-1074)) == 0.
Proof. repeat split; vm_compute; reflexivity. Qed.


End Binary64Facts.

(** ** The scheduler on doubles *)
Module DoublesFacts.
Import Js Utils Scheduler Binary64 Binary64Facts SchedulerFacts.
Local Open Scope Q_scope.











(** *** The cursor is a time of the clock

    A double that is not negative; every event keeps it so. *)





(** *** Steady runs *)







(** The rounding decides the branch.  A buffer of 256 frames is the first
    of a run, at frame 256 of the clock; the cursor stands at
    2.0106666666666664 after it, the double below 96512 / 48000.  At frame
    96512 the clock reads 2.0106666666666668, and the next buffer meets an
    underrun; with exact sums the cursor is level with the clock and it
    meets none. *)
Lemma rounding_meets_underrun :
  let audioBuffer := {| buf_sampleRate := 48000; buf_length := 256;
                        buf_channels := [replicate 256 (Num 0);
                                         replicate 256 (Num 0)] |} in
  let dj := step (Render 2) freshlyLoading in
  Doubles.underrun (step (Render 752) (Doubles.onSegmentDecoded audioBuffer dj))
  = true
  ∧ underrun (step (Render 752) (onSegmentDecoded audioBuffer dj)) = false.
Proof. vm_compute. split; reflexivity. Qed.




End DoublesFacts.

(** ** The throttled senders *)
Module ThrottleFacts.
Import Js Utils Scheduler SchedulerFacts.

Lemma spaced_passing {A : Type} (delay : Z) (calls : list (Z * A)) :
  ∀ lastCall, spaced delay lastCall (map fst (passing delay lastCall calls)).
Proof.
  induction calls as [|[now a] rest IH]; intros lastCall; [exact I|].
  cbn [passing]. destruct (Z.leb_spec delay (now - lastCall)) as [H|H].
  - cbn [map fst spaced]. split; [exact H|apply IH].
  - apply IH.
Qed.

(** One throttled call, when the session is usable. *)
Lemma setSessionPrompts_call (now : Z) (ps : list Prompt) (dj : PromptDj) :
  session dj = true -> connectionError dj = false ->
  let dj' := step (PromptsEdited now ps) dj in
  session dj' = true ∧ connectionError dj' = false
  ∧ filteredPrompts dj' = filteredPrompts dj
  ∧ timers dj' = timers dj
  ∧ prompts dj' = ps
  ∧ (if 200 <=? now - setSessionPrompts_lastCall dj
     then setSessionPrompts_lastCall dj' = now
          ∧ sent dj' = sent dj
                       ++ [SetWeightedPrompts
                             (promptsToSend (filteredPrompts dj) ps)]
     else setSessionPrompts_lastCall dj' = setSessionPrompts_lastCall dj
          ∧ sent dj' = sent dj).
Proof.
  intros Hs Hc. cbn [step].
  unfold setSessionPrompts, throttle, sendSessionPrompts. fields.
  destruct (200 <=? now - setSessionPrompts_lastCall dj); fields.
  - rewrite Hs, Hc. fields. repeat split; assumption.
  - repeat split; assumption.
Qed.

Lemma updateSettings_call (now : Z) (e : SettingsControllerState)
    (dj : PromptDj) :
  session dj = true -> connectionError dj = false ->
  let dj' := step (SettingsChanged now e) dj in
  session dj' = true ∧ connectionError dj' = false
  ∧ timers dj' = timers dj
  ∧ (if 200 <=? now - updateSettings_lastCall dj
     then updateSettings_lastCall dj' = now
          ∧ sent dj' = sent dj
                       ++ [SetMusicGenerationConfig (musicGenerationConfig e)]
     else updateSettings_lastCall dj' = updateSettings_lastCall dj
          ∧ sent dj' = sent dj).
Proof.
  intros Hs Hc. cbn [step].
  unfold updateSettings, throttle, sendSettings. fields.
  destruct (200 <=? now - updateSettings_lastCall dj); fields.
  - rewrite Hs, Hc. fields. repeat split; assumption.
  - repeat split; assumption.
Qed.

Lemma promptEdits_sent (calls : list (Z * list Prompt)) :
  ∀ dj : PromptDj,
    session dj = true -> connectionError dj = false ->
    let dj' := run (promptEdits calls) dj in
    sent dj' = sent dj
               ++ map (fun c => SetWeightedPrompts
                                  (promptsToSend (filteredPrompts dj) (snd c)))
                    (passing 200 (setSessionPrompts_lastCall dj) calls)
    ∧ timers dj' = timers dj.
Proof.
  induction calls as [|[now ps] rest IH]; intros dj Hs Hc.
  - simpl. rewrite app_nil_r. auto.
  - cbn [promptEdits map run fold_left fst snd].
    fold (promptEdits rest). fold (run (promptEdits rest)
                                   (step (PromptsEdited now ps) dj)).
    destruct (setSessionPrompts_call now ps dj Hs Hc)
      as (Hs' & Hc' & Hf & Ht & _ & Hcall).
    destruct (IH _ Hs' Hc') as [Hsent Htimers].
    rewrite Hsent, Htimers, Hf, Ht. split; [|reflexivity].
    cbn [passing].
    destruct (200 <=? now - setSessionPrompts_lastCall dj);
      destruct Hcall as [-> ->]; [|reflexivity].
    rewrite <- app_assoc. reflexivity.
Qed.

Lemma settingsChanges_sent (calls : list (Z * SettingsControllerState)) :
  ∀ dj : PromptDj,
    session dj = true -> connectionError dj = false ->
    let dj' := run (settingsChanges calls) dj in
    sent dj' = sent dj
               ++ map (fun c => SetMusicGenerationConfig
                                  (musicGenerationConfig (snd c)))
                    (passing 200 (updateSettings_lastCall dj) calls)
    ∧ timers dj' = timers dj.
Proof.
  induction calls as [|[now e] rest IH]; intros dj Hs Hc.
  - simpl. rewrite app_nil_r. auto.
  - cbn [settingsChanges map run fold_left fst snd].
    fold (settingsChanges rest). fold (run (settingsChanges rest)
                                      (step (SettingsChanged now e) dj)).
    destruct (updateSettings_call now e dj Hs Hc) as (Hs' & Hc' & Ht & Hcall).
    destruct (IH _ Hs' Hc') as [Hsent Htimers].
    rewrite Hsent, Htimers, Ht. split; [|reflexivity].
    cbn [passing].
    destruct (200 <=? now - updateSettings_lastCall dj);
      destruct Hcall as [-> ->]; [|reflexivity].
    rewrite <- app_assoc. reflexivity.
Qed.

(** C7, as stated, fails: of two edits 100 ms apart the first is sent and
    the second, which holds the most recent state, is dropped; nothing is
    left pending that would send it later. *)
Lemma throttle_drops_latest_prompts :
  let dj := run (promptEdits [(1700000000000, [bossaNova 1]);
                              (1700000000100, [bossaNova (1 # 2)])])
              (connected (init minimalContext [])) in
  sent dj = [SetWeightedPrompts [bossaNova 1]]
  ∧ prompts dj = [bossaNova (1 # 2)]
  ∧ timers dj = []
  ∧ ¬ latest_prompts_sent dj.
Proof.
  vm_compute. repeat split. intros H. discriminate H.
Qed.

(** The interval restarts with every call that passes, sent or not: an edit
    made before a session is there sends nothing, and an edit made 100 ms
    later, once connected, is dropped. *)
Lemma throttle_interval_restarts_unsent :
  let dj0 := step (PromptsEdited 1700000000000 [bossaNova 1])
               (init minimalContext []) in
  let dj1 := step (PromptsEdited 1700000000100 [bossaNova (1 # 2)])
               (connected dj0) in
  sent dj0 = [] ∧ setSessionPrompts_lastCall dj0 = 1700000000000
  ∧ sent dj1 = [] ∧ prompts dj1 = [bossaNova (1 # 2)].
Proof. vm_compute. repeat split. Qed.

(** One throttled call in any state: it passes when it comes at least 200 ms
    after the last call that passed, and then restarts the interval
    whether or not a session is there to send to; otherwise it changes
    nothing.  No timer is armed in either case. *)
Lemma setSessionPrompts_any (now : Z) (ps : list Prompt) (dj : PromptDj) :
  let dj' := step (PromptsEdited now ps) dj in
  (if 200 <=? now - setSessionPrompts_lastCall dj
   then setSessionPrompts_lastCall dj' = now
        ∧ sent dj' = sent dj
                     ++ (if sessionUsable dj
                         then [SetWeightedPrompts
                                 (promptsToSend (filteredPrompts dj) ps)]
                         else [])
   else setSessionPrompts_lastCall dj' = setSessionPrompts_lastCall dj
        ∧ sent dj' = sent dj)
  ∧ timers dj' = timers dj.
Proof.
  cbn [step]. unfold setSessionPrompts, throttle, sendSessionPrompts,
    sessionUsable. fields.
  destruct (200 <=? now - setSessionPrompts_lastCall dj); fields.
  - destruct (session dj), (connectionError dj); fields;
      rewrite ?app_nil_r; repeat split; reflexivity.
  - repeat split; reflexivity.
Qed.

Lemma updateSettings_any (now : Z) (e : SettingsControllerState)
    (dj : PromptDj) :
  let dj' := step (SettingsChanged now e) dj in
  (if 200 <=? now - updateSettings_lastCall dj
   then updateSettings_lastCall dj' = now
        ∧ sent dj' = sent dj
                     ++ (if sessionUsable dj
                         then [SetMusicGenerationConfig
                                 (musicGenerationConfig e)]
                         else [])
   else updateSettings_lastCall dj' = updateSettings_lastCall dj
        ∧ sent dj' = sent dj)
  ∧ timers dj' = timers dj.
Proof.
  cbn [step]. unfold updateSettings, throttle, sendSettings, sessionUsable.
  fields.
  destruct (200 <=? now - updateSettings_lastCall dj); fields.
  - destruct (session dj), (connectionError dj); fields;
      rewrite ?app_nil_r; repeat split; reflexivity.
  - repeat split; reflexivity.
Qed.

(** C7, amended: prompt and generation-config updates are throttled to a
    minimum interval of 200 ms.  A call passes when it comes at least
    200 ms after the last call that passed, and is dropped otherwise, with
    nothing queued for it (no timer is armed).  A call that passes
    restarts the interval and, if a session is usable, is sent at once
    with the state of its own call; without a usable session it sends
    nothing and still restarts the interval.  So of a burst of calls made
    while a session is usable, exactly the calls that pass are sent, at
    least 200 ms apart. *)
Theorem throttle_sends_passing_calls (dj : PromptDj)
    (edits : list (Z * list Prompt))
    (changes : list (Z * SettingsControllerState)) :
  session dj = true -> connectionError dj = false ->
  (sent (run (promptEdits edits) dj)
   = sent dj
     ++ map (fun c => SetWeightedPrompts
                        (promptsToSend (filteredPrompts dj) (snd c)))
          (passing 200 (setSessionPrompts_lastCall dj) edits)
   ∧ timers (run (promptEdits edits) dj) = timers dj
   ∧ spaced 200 (setSessionPrompts_lastCall dj)
       (map fst (passing 200 (setSessionPrompts_lastCall dj) edits)))
  ∧ (sent (run (settingsChanges changes) dj)
     = sent dj
       ++ map (fun c => SetMusicGenerationConfig
                          (musicGenerationConfig (snd c)))
            (passing 200 (updateSettings_lastCall dj) changes)
     ∧ timers (run (settingsChanges changes) dj) = timers dj
     ∧ spaced 200 (updateSettings_lastCall dj)
         (map fst (passing 200 (updateSettings_lastCall dj) changes)))
  ∧ ∀ (now : Z) (ps : list Prompt) (e : SettingsControllerState)
      (dj0 : PromptDj),
      let dj1 := step (PromptsEdited now ps) dj0 in
      let dj2 := step (SettingsChanged now e) dj0 in
      ((if 200 <=? now - setSessionPrompts_lastCall dj0
        then setSessionPrompts_lastCall dj1 = now
             ∧ sent dj1 = sent dj0
                          ++ (if sessionUsable dj0
                              then [SetWeightedPrompts
                                      (promptsToSend (filteredPrompts dj0) ps)]
                              else [])
        else setSessionPrompts_lastCall dj1 = setSessionPrompts_lastCall dj0
             ∧ sent dj1 = sent dj0)
       ∧ timers dj1 = timers dj0)
      ∧ ((if 200 <=? now - updateSettings_lastCall dj0
          then updateSettings_lastCall dj2 = now
               ∧ sent dj2 = sent dj0
                            ++ (if sessionUsable dj0
                                then [SetMusicGenerationConfig
                                        (musicGenerationConfig e)]
                                else [])
          else updateSettings_lastCall dj2 = updateSettings_lastCall dj0
               ∧ sent dj2 = sent dj0)
         ∧ timers dj2 = timers dj0).
Proof.
  intros Hs Hc. split; [|split].
  - destruct (promptEdits_sent edits dj Hs Hc) as [H1 H2].
    split; [exact H1|]. split; [exact H2|]. apply spaced_passing.
  - destruct (settingsChanges_sent changes dj Hs Hc) as [H1 H2].
    split; [exact H1|]. split; [exact H2|]. apply spaced_passing.
  - intros now ps e dj0.
    split; [apply setSessionPrompts_any|apply updateSettings_any].
Qed.

Lemma throttle_sends_passing_calls_witness :
  sent (run (promptEdits [(1700000000000, [bossaNova 1]);
                          (1700000000100, [bossaNova (1 # 2)]);
                          (1700000000200, [bossaNova (1 # 4)])])
          (connected (init minimalContext [])))
  = [SetWeightedPrompts [bossaNova 1]; SetWeightedPrompts [bossaNova (1 # 4)]].
Proof.
  exact (proj1 (proj1 (throttle_sends_passing_calls
                         (connected (init minimalContext []))
                         [(1700000000000, [bossaNova 1]);
                          (1700000000100, [bossaNova (1 # 2)]);
                          (1700000000200, [bossaNova (1 # 4)])]
                         [] eq_refl eq_refl))).
Defined.

End ThrottleFacts.

(** ** More on the codec and the buffer builder ([src/utils.ts]) *)
Module WireFacts.
Import Js Utils JsFacts Base64Facts CodecFacts BufferFacts.

Lemma btoa_length (l : list Z) :
  String.length (btoa l) = (4 * ((length l + 2) / 3))%nat.
Proof.
  induction l as [| a | a b | a b c l IH] using list_ind3; try reflexivity.
  cbn [btoa String.length]. rewrite IH. cbn [length].
  replace (S (S (S (length l))) + 2)%nat with ((length l + 2) + 1 * 3)%nat
    by lia.
  rewrite Nat.div_add by lia. lia.
Qed.

Lemma removePadding_keeps (c : ascii) (l : list ascii) :
  In c l -> c <> "="%char -> In c (removePadding l).
Proof.
  intros Hin Hc. induction l as [|d l IH]; [destruct Hin|].
  cbn [removePadding].
  destruct (Ascii.eqb d "=") eqn:Hd.
  - apply Ascii.eqb_eq in Hd. subst d.
    destruct Hin as [Hin|Hin]; [exfalso; apply Hc; symmetry; exact Hin|].
    destruct l as [|e [|f l']].
    + destruct Hin.
    + destruct Hin as [->|[]]. cbn [andb].
      destruct (Ascii.eqb c "=") eqn:Hce.
      * apply Ascii.eqb_eq in Hce. contradiction.
      * right. apply IH. left. reflexivity.
    + cbn [andb]. right. apply IH. exact Hin.
  - cbn [andb]. destruct Hin as [->|Hin]; [left; reflexivity|].
    right. apply IH, Hin.
Qed.

Lemma mapM_base64Sextet_None (c : ascii) (l : list ascii) :
  In c l -> base64Sextet c = None -> mapM base64Sextet l = None.
Proof.
  intros Hin Hc.
  destruct (mapM base64Sextet l) as [sx|] eqn:E; [|reflexivity].
  assert (Hs : is_Some (mapM base64Sextet l)) by (rewrite E; eauto).
  apply mapM_is_Some in Hs. rewrite Forall_forall in Hs.
  apply list_elem_of_In in Hin. apply Hs in Hin.
  unfold compose in Hin. rewrite Hc in Hin. destruct Hin as [? ?].
  discriminate.
Qed.

Lemma int16le_range (b0 b1 : byte) : is_int16 (int16le b0 b1).
Proof.
  unfold is_int16, int16le.
  pose proof (byteToZ_range b0). pose proof (byteToZ_range b1).
  destruct (Z.ltb_spec (byteToZ b0 + 256 * byteToZ b1) 32768); lia.
Qed.

Lemma Int16Array_of_buffer_int16 (data : list byte) (m : nat) :
  Forall is_int16 (Int16Array_of_buffer data m).
Proof.
  revert data. induction m as [|m IH]; intros data.
  - destruct data; constructor.
  - destruct data as [|b0 [|b1 rest]]; try constructor.
    + apply int16le_range.
    + apply IH.
Qed.

Lemma Int16Array_of_buffer_trailing (data : list byte) (b : byte) (m : nat) :
  Nat.even (length data) = true ->
  Int16Array_of_buffer (data ++ [b]) m = Int16Array_of_buffer data m.
Proof.
  revert m.
  assert (H : ∀ k (data : list byte), length data = (2 * k)%nat ->
                ∀ m, Int16Array_of_buffer (data ++ [b]) m
                     = Int16Array_of_buffer data m).
  { induction k as [|k IH]; intros d Hd m.
    - destruct d; [|discriminate]. destruct m; reflexivity.
    - destruct d as [|b0 [|b1 rest]]; try (simpl in Hd; lia).
      destruct m as [|m]; [reflexivity|].
      cbn [app Int16Array_of_buffer]. f_equal. apply IH.
      simpl in Hd. lia. }
  intros m He. apply Nat.even_spec in He as [k Hk]. apply (H k). exact Hk.
Qed.

Lemma quantize_exact (v : Z) :
  is_int16 v -> quantize (div (ofZ v) (Num 32768)) = v.
Proof.
  intros [Hlo Hhi].
  change (div (ofZ v) (Num 32768)) with (Num (inject_Z v / 32768)).
  rewrite quantize_finite.
  assert (E : (inject_Z v / 32768 * 32768 == inject_Z v)%Q) by (field).
  assert (Et : truncate (inject_Z v / 32768 * 32768) = v).
  { rewrite <- (truncate_Z v) at 2.
    apply Z.le_antisymm; apply truncate_monotone; rewrite E; apply Qle_refl. }
  destruct (Qlt_bool (inject_Z v / 32768 * 32768) 32767) eqn:H1.
  - destruct (Qlt_bool (-32768) (inject_Z v / 32768 * 32768)) eqn:H2.
    + exact Et.
    + apply Qlt_bool_false in H2. rewrite E in H2.
      change (-32768)%Q with (inject_Z (-32768)) in H2.
      rewrite <- Zle_Qle in H2. lia.
  - apply Qlt_bool_false in H1. rewrite E in H1.
    change 32767%Q with (inject_Z 32767) in H1.
    rewrite <- Zle_Qle in H1. lia.
Qed.

Lemma Uint8Array_of_Int16Array (k : nat) (data : list byte) :
  length data = (2 * k)%nat ->
  Uint8Array_of_buffer (Int16Array_of_buffer data k) = data.
Proof.
  revert data. induction k as [|k IH]; intros data Hd.
  - destruct data; [reflexivity|discriminate].
  - destruct data as [|b0 [|b1 rest]]; try (simpl in Hd; lia).
    cbn [Int16Array_of_buffer Uint8Array_of_buffer flat_map app].
    fold (Uint8Array_of_buffer (Int16Array_of_buffer rest k)).
    rewrite IH by (simpl in Hd; lia).
    pose proof (byteToZ_range b0) as H0. pose proof (byteToZ_range b1) as H1.
    assert (Hu : int16le b0 b1 mod 65536 = byteToZ b0 + 256 * byteToZ b1).
    { unfold int16le.
      destruct (Z.ltb_spec (byteToZ b0 + 256 * byteToZ b1) 32768).
      - apply Z.mod_small. lia.
      - symmetry. apply Z.mod_unique with (q := -1); lia. }
    rewrite Hu.
    replace ((byteToZ b0 + 256 * byteToZ b1) mod 256) with (byteToZ b0)
      by (apply Z.mod_unique with (q := byteToZ b1); lia).
    replace ((byteToZ b0 + 256 * byteToZ b1) / 256) with (byteToZ b1)
      by (apply Z.div_unique with (r := byteToZ b0); lia).
    rewrite !byteOfZ_byteToZ. reflexivity.
Qed.

(** X1: base64 round trip.  [decode] applied to the text [encode] makes of
    any byte array returns, without throwing, the same bytes. *)
Theorem encode_decode_round_trip (bytes : list byte) :
  decode (encode bytes) = Normal bytes.
Proof. apply decode_encode_bytes. Qed.

(** X2: the text [encode] returns for [n] bytes has [4 * ceil(n / 3)]
    characters: four for every group of three bytes, the last group
    padded. *)
Theorem encode_length (bytes : list byte) :
  String.length (encode bytes) = (4 * ((length bytes + 2) / 3))%nat.
Proof.
  unfold encode. rewrite btoa_length, length_map. reflexivity.
Qed.

(** X3: [decode] throws an [InvalidCharacterError] for a text that holds a
    character which is neither ASCII whitespace, nor a character of the
    base64 alphabet, nor [=]. *)
Theorem decode_rejects_foreign_character (base64 : string) (c : ascii) :
  In c (list_ascii_of_string base64) ->
  isWhitespace c = false -> base64Sextet c = None -> c <> "="%char ->
  decode base64 = Throw InvalidCharacterError.
Proof.
  intros Hin Hws Hsx Hpad. unfold decode, atob.
  set (stripped := List.filter _ _).
  assert (H1 : In c stripped).
  { apply filter_In. split; [exact Hin|]. rewrite Hws. reflexivity. }
  set (unpadded := if (length stripped mod 4 =? 0)%nat
                   then removePadding stripped else stripped).
  assert (H2 : In c unpadded).
  { unfold unpadded. destruct (length stripped mod 4 =? 0)%nat;
      [apply removePadding_keeps|]; assumption. }
  destruct (length unpadded mod 4 =? 1)%nat; [reflexivity|].
  rewrite (mapM_base64Sextet_None c) by assumption. reflexivity.
Qed.

Lemma decode_rejects_foreign_character_witness :
  decode "AB*D" = Throw InvalidCharacterError.
Proof.
  apply (decode_rejects_foreign_character "AB*D" "*"%char).
  - simpl. right. right. left. reflexivity.
  - reflexivity.
  - reflexivity.
  - discriminate.
Defined.

(** X4: quantisation is monotone on numbers, the two infinities included:
    if [x < y] in JavaScript (which fails when either is NaN), then the
    16-bit integer [createBlob] stores for [x] is at most the one it stores
    for [y]. *)
Theorem quantize_monotone (x y : number) :
  Js.lt x y = true -> quantize x <= quantize y.
Proof.
  intros Hlt.
  pose proof (quantize_int16 x) as [Hx1 Hx2].
  pose proof (quantize_int16 y) as [Hy1 Hy2].
  destruct x as [a| | |], y as [b| | |]; try discriminate;
    try (change (quantize PosInf) with 32767; lia);
    try (change (quantize NegInf) with (-32768); lia).
  cbn [Js.lt] in Hlt. apply Qlt_bool_true in Hlt.
  rewrite !quantize_finite in *.
  assert (Hab : (a * 32768 <= b * 32768)%Q) by lra.
  pose proof (truncate_monotone _ _ Hab) as Ht.
  destruct (Qlt_bool (a * 32768) 32767) eqn:A1;
    destruct (Qlt_bool (b * 32768) 32767) eqn:B1;
    destruct (Qlt_bool (-32768) (a * 32768)) eqn:A2;
    destruct (Qlt_bool (-32768) (b * 32768)) eqn:B2;
    try lia;
    repeat match goal with
           | H : Qlt_bool _ _ = true |- _ => apply Qlt_bool_true in H
           | H : Qlt_bool _ _ = false |- _ => apply Qlt_bool_false in H
           end; lra.
Qed.

Lemma quantize_monotone_witness :
  quantize (Num (1 # 4)) <= quantize PosInf.
Proof. apply quantize_monotone. reflexivity. Defined.

(** On a byte array of even length, the 16-bit values [createBlob] makes
    of the floats that [decodeAudioData] reads are the values read. *)
Lemma encodeSamples_decodeSamples (data : list byte) :
  Nat.even (length data) = true ->
  encodeSamples (decodeSamples data) = data.
Proof.
  intros He. apply Nat.even_spec in He as [k Hk].
  unfold encodeSamples, decodeSamples, wireSamples, int16_of_samples,
    float32_of_int16.
  rewrite map_map.
  replace (length data / 2)%nat with k
    by (rewrite Hk, Nat.mul_comm, Nat.div_mul; lia).
  rewrite (map_ext_Forall _ (fun v => v)).
  - rewrite map_id. apply Uint8Array_of_Int16Array, Hk.
  - eapply Forall_impl; [apply Int16Array_of_buffer_int16|].
    intros v Hv. apply quantize_exact, Hv.
Qed.

(** X5: decoding then encoding is the identity on the wire.  From a byte
    array of even length that holds at least one sample, [decodeAudioData],
    asked for one channel, builds a buffer whose channel [createBlob] turns
    into a text that decodes to the same bytes. *)
Theorem decodeAudioData_createBlob (bytes : list byte) (ctx : AudioContext)
    (rate : Q) :
  Nat.even (length bytes) = true -> (2 <= length bytes)%nat ->
  Z.of_nat (length bytes / 2) < 4294967296 ->
  1 <= maxNumberOfChannels ctx ->
  (minSampleRate ctx <= rate <= maxSampleRate ctx)%Q ->
  ∃ channel,
    decodeAudioData bytes ctx rate 1 =
      ([], Normal {| buf_sampleRate := rate;
                     buf_length := (length bytes / 2)%nat;
                     buf_channels := [channel] |})
    ∧ decode (data (createBlob channel)) = Normal bytes.
Proof.
  intros He Hlen H32 Hmax Hrate. exists (decodeSamples bytes).
  split; [apply decodeAudioData_mono; assumption|].
  rewrite <- (encodeSamples_decodeSamples bytes He) at 2.
  apply decode_encode_bytes.
Qed.

Lemma decodeAudioData_createBlob_witness :
  ∃ channel,
    decodeAudioData [x01; x80; xff; x7f] minimalContext 16000 1 =
      ([], Normal {| buf_sampleRate := 16000; buf_length := 2;
                     buf_channels := [channel] |})
    ∧ decode (data (createBlob channel)) = Normal [x01; x80; xff; x7f].
Proof.
  apply (decodeAudioData_createBlob [x01; x80; xff; x7f] minimalContext 16000).
  - reflexivity.
  - simpl. lia.
  - simpl. lia.
  - simpl. lia.
  - split; unfold Qle; simpl; lia.
Defined.

(** X6: the two halves of the codec compose.  The text [createBlob] makes
    of a non-empty sample array decodes to bytes from which
    [decodeAudioData], asked for one channel, builds without a warning a
    buffer of as many frames, whose channel holds each sample's 16-bit
    value divided by 32768. *)
Theorem createBlob_decodeAudioData (samples : list number)
    (ctx : AudioContext) (rate : Q) :
  samples <> [] -> Z.of_nat (length samples) < 4294967296 ->
  1 <= maxNumberOfChannels ctx ->
  (minSampleRate ctx <= rate <= maxSampleRate ctx)%Q ->
  ∃ bytes, decode (data (createBlob samples)) = Normal bytes
    ∧ decodeAudioData bytes ctx rate 1 =
      ([], Normal {| buf_sampleRate := rate; buf_length := length samples;
                     buf_channels :=
                       [map (fun s => Num (inject_Z (quantize s) / 32768))
                          samples] |}).
Proof.
  intros Hne H32 Hmax Hrate. exists (encodeSamples samples).
  split; [apply decode_encode_bytes|].
  assert (Hlen : length (encodeSamples samples) = (2 * length samples)%nat).
  { unfold encodeSamples, int16_of_samples.
    rewrite Uint8Array_of_buffer_length, length_map. reflexivity. }
  assert (Hhalf : (length (encodeSamples samples) / 2)%nat = length samples).
  { rewrite Hlen, Nat.mul_comm, Nat.div_mul; lia. }
  rewrite decodeAudioData_mono; try assumption.
  - rewrite Hhalf, decode_encode. reflexivity.
  - rewrite Hlen. destruct samples; [congruence|]. simpl. lia.
  - rewrite Hhalf. exact H32.
Qed.

Lemma createBlob_decodeAudioData_witness :
  ∃ bytes, decode (data (createBlob [Num (1 # 2); NaN])) = Normal bytes
    ∧ decodeAudioData bytes minimalContext 16000 1 =
      ([], Normal {| buf_sampleRate := 16000; buf_length := 2;
                     buf_channels := [[Num (16384 / 32768); Num (0 / 32768)]]
                  |}).
Proof.
  apply (createBlob_decodeAudioData [Num (1 # 2); NaN] minimalContext 16000).
  - discriminate.
  - simpl. lia.
  - simpl. lia.
  - split; unfold Qle; simpl; lia.
Defined.

(** X7: input without a whole frame.  For fewer than two bytes and a
    channel count the context supports, [decodeAudioData] logs the warning
    of empty data and returns one frame of silence in each of the asked
    channels, at the asked rate. *)
Theorem decodeAudioData_without_frame (bytes : list byte)
    (ctx : AudioContext) (rate : Q) (numChannels : positive) :
  (length bytes < 2)%nat ->
  Z.pos numChannels <= maxNumberOfChannels ctx ->
  Z.pos numChannels < 4294967296 ->
  (minSampleRate ctx <= rate <= maxSampleRate ctx)%Q ->
  decodeAudioData bytes ctx rate (Z.pos numChannels) =
  (["Received empty or malformed audio data for decoding."%string],
   Normal {| buf_sampleRate := rate; buf_length := 1;
             buf_channels := replicate (Pos.to_nat numChannels) [Num 0] |}).
Proof. apply decodeAudioData_empty. Qed.

Lemma decodeAudioData_without_frame_witness :
  decodeAudioData [x7f] minimalContext 48000 2 =
  (["Received empty or malformed audio data for decoding."%string],
   Normal {| buf_sampleRate := 48000; buf_length := 1;
             buf_channels := [[Num 0]; [Num 0]] |}).
Proof.
  apply (decodeAudioData_without_frame [x7f] minimalContext 48000 2).
  - simpl. lia.
  - simpl. lia.
  - lia.
  - split; unfold Qle; simpl; lia.
Defined.

(** X8: an odd trailing byte is ignored.  Appending one byte to an input
    of even length changes nothing in what [decodeAudioData] logs and
    returns, whatever the channel count. *)
Theorem decodeAudioData_ignores_odd_byte (bytes : list byte) (b : byte)
    (ctx : AudioContext) (rate : Q) (numChannels : Z) :
  Nat.even (length bytes) = true ->
  decodeAudioData (bytes ++ [b]) ctx rate numChannels
  = decodeAudioData bytes ctx rate numChannels.
Proof.
  intros He. unfold decodeAudioData.
  rewrite Int16Array_of_buffer_trailing by exact He.
  rewrite length_app. cbn [length].
  pose proof He as Hk. apply Nat.even_spec in Hk as [k Hk].
  assert (E1 : (Z.of_nat (length bytes + 1) mod 2 =? 0) = false).
  { apply Z.eqb_neq. rewrite Hk.
    replace (Z.of_nat (2 * k + 1)) with (1 + Z.of_nat k * 2) by lia.
    rewrite Z.mod_add by lia. discriminate. }
  assert (E2 : (Z.of_nat (length bytes) mod 2 =? 0) = true).
  { apply Z.eqb_eq. rewrite Hk.
    replace (Z.of_nat (2 * k)) with (0 + Z.of_nat k * 2) by lia.
    rewrite Z.mod_add by lia. reflexivity. }
  rewrite E1, E2.
  replace (Z.of_nat (length bytes + 1) - 1) with (Z.of_nat (length bytes))
    by lia.
  reflexivity.
Qed.

Lemma decodeAudioData_ignores_odd_byte_witness :
  decodeAudioData ([x01; x00; x02; x00] ++ [xff]) minimalContext 48000 2
  = decodeAudioData [x01; x00; x02; x00] minimalContext 48000 2.
Proof. apply decodeAudioData_ignores_odd_byte. reflexivity. Defined.

Section SampleRange.

Let unit_sample (x : number) : Prop := ∃ q, x = Num q ∧ (-1 <= q < 1)%Q.

Lemma zero_unit_sample : unit_sample (Num 0).
Proof. exists 0%Q. split; [reflexivity|]. split; [discriminate|reflexivity]. Qed.

Lemma createBuffer_unit_samples (ctx : AudioContext) (a b : number)
    (rate : Q) (buf : AudioBuffer) :
  createBuffer ctx a b rate = Normal buf ->
  Forall (Forall unit_sample) (buf_channels buf).
Proof.
  intros H. apply createBuffer_Normal in H as (-> & _). simpl.
  apply Forall_replicate, Forall_replicate, zero_unit_sample.
Qed.

Lemma decodeSamples_unit_samples (data : list byte) :
  Forall unit_sample (decodeSamples data).
Proof.
  unfold decodeSamples, wireSamples. rewrite float32_of_int16_finite.
  apply Forall_map.
  eapply Forall_impl; [apply Int16Array_of_buffer_int16|].
  intros v [Hlo Hhi]. exists (inject_Z v / 32768)%Q.
  split; [reflexivity|]. rewrite Qdiv_32768.
  rewrite Zle_Qle in Hlo, Hhi.
  change (inject_Z (-32768)) with (-32768)%Q in Hlo.
  change (inject_Z 32767) with 32767%Q in Hhi. lra.
Qed.

Lemma copyToChannel_unit_samples (buf buf' : AudioBuffer)
    (source : list number) (c : nat) :
  Forall unit_sample source ->
  Forall (Forall unit_sample) (buf_channels buf) ->
  copyToChannel buf source c = Normal buf' ->
  Forall (Forall unit_sample) (buf_channels buf').
Proof.
  intros Hs Hb H. apply copyToChannel_Normal in H as (old & Ho & _ & _ & ->).
  apply Forall_insert; [exact Hb|].
  apply Forall_app. split; [apply Forall_take, Hs|].
  apply Forall_drop. rewrite Forall_lookup in Hb. exact (Hb _ _ Ho).
Qed.

Lemma decodeAudioData_unit_samples (data : list byte) (ctx : AudioContext)
    (rate : Q) (n : Z) (lines : list string) (buf : AudioBuffer) :
  decodeAudioData data ctx rate n = (lines, Normal buf) ->
  Forall (Forall unit_sample) (buf_channels buf).
Proof.
  intros H0. pose proof H0 as H.
  destruct (Z.eq_dec n 0) as [->|Hn].
  { rewrite decodeAudioData_zero_channels in H. discriminate. }
  rewrite decodeAudioData_nonzero in H by exact Hn.
  destruct (Qeq_bool (frameCount data n) 0) eqn:Hz.
  { unfold Js.bind, warn, lift in H.
    destruct (createBuffer ctx _ (ofZ 1) rate) as [b|e] eqn:Ecb;
      [|discriminate].
    injection H as _ <-. eapply createBuffer_unit_samples, Ecb. }
  unfold Js.bind at 1 in H. unfold lift at 1 in H.
  destruct (createBuffer ctx (ofZ n) _ rate) as [buffer|e] eqn:Ecb;
    [|discriminate].
  destruct (n =? 1) eqn:H1.
  { unfold lift in H.
    destruct (copyToChannel buffer (decodeSamples data) 0) as [b|e] eqn:Ec;
      [|discriminate].
    injection H as _ <-.
    eapply copyToChannel_unit_samples; [| |exact Ec].
    - apply decodeSamples_unit_samples.
    - eapply createBuffer_unit_samples, Ecb. }
  destruct (1 <? n) eqn:H2.
  { clear H. apply Z.ltb_lt in H2.
    destruct n as [|p|p]; try lia.
    assert (Hlen : (2 <= length data)%nat).
    { destruct (le_lt_dec 2 (length data)) as [|Hlt]; [assumption|].
      apply (frameCount_zero data (Z.pos p)) in Hlt; [|lia]. congruence. }
    destruct (decodeAudioData_channels data ctx rate p lines buf H2 Hlen H0)
      as (_ & _ & _ & _ & Hrect & Hch & Hall).
    apply Forall_lookup. intros c chan Hc.
    apply Forall_lookup. intros j x Hj.
    assert (Hc' : (c < Pos.to_nat p)%nat).
    { apply lookup_lt_Some in Hc.
      pose proof (Z.mod_le (Z.pos p) 4294967296 ltac:(lia) ltac:(lia)). lia. }
    assert (Hj' : (j < buf_length buf)%nat).
    { unfold rectangular in Hrect. rewrite Forall_lookup in Hrect.
      rewrite <- (Hrect _ _ Hc). eapply lookup_lt_Some, Hj. }
    destruct (Hall c j Hc' Hj') as (chan' & v & Hc2 & Hv & Hx).
    rewrite Hc in Hc2. injection Hc2 as <-. rewrite Hj in Hx.
    injection Hx as ->.
    pose proof (decodeSamples_unit_samples data) as Hd.
    rewrite Forall_lookup in Hd.
    apply (Hd (j * Pos.to_nat p + c)%nat).
    unfold decodeSamples. rewrite float32_of_int16_finite.
    change (map ?f ?l) with (f <$> l). rewrite list_lookup_fmap, Hv.
    reflexivity. }
  unfold Js.bind, warn, lift in H.
  destruct (createBuffer ctx (ofZ 1) (ofZ 1) rate) as [b|e] eqn:Ecb1;
    [|discriminate].
  injection H as _ <-. eapply createBuffer_unit_samples, Ecb1.
Qed.

End SampleRange.

(** X9: whatever the bytes and the channel count, every sample of a buffer
    [decodeAudioData] returns is a finite number at least -1 and less
    than 1 (never NaN or an infinity). *)
Theorem decodeAudioData_samples_in_range (bytes : list byte)
    (ctx : AudioContext) (rate : Q) (numChannels : Z) (lines : list string)
    (buf : AudioBuffer) (c j : nat) (chan : list number) (x : number) :
  decodeAudioData bytes ctx rate numChannels = (lines, Normal buf) ->
  getChannelData buf c = Some chan -> chan !! j = Some x ->
  ∃ q, x = Num q ∧ (-1 <= q < 1)%Q.
Proof.
  intros H Hc Hj. apply decodeAudioData_unit_samples in H.
  rewrite Forall_lookup in H. specialize (H _ _ Hc).
  rewrite Forall_lookup in H. exact (H _ _ Hj).
Qed.

Lemma decodeAudioData_samples_in_range_witness :
  ∃ q, Num (-32768 / 32768) = Num q ∧ (-1 <= q < 1)%Q.
Proof.
  apply (decodeAudioData_samples_in_range
           [x01; x00; x00; x80; x02; x00; xff; x7f] minimalContext 48000 2 []
           {| buf_sampleRate := 48000; buf_length := 2;
              buf_channels :=
                [[Num (1 / 32768); Num (2 / 32768)];
                 [Num (-32768 / 32768); Num (32767 / 32768)]] |}
           1 0 [Num (-32768 / 32768); Num (32767 / 32768)]).
  - reflexivity.
  - reflexivity.
  - reflexivity.
Defined.

(** X30: less than one whole frame.  An input that holds at least one
    sample but fewer samples than channels passes the guard against empty
    data (its frame count is a fraction, not 0); [decodeAudioData] then
    asks [createBuffer] for a buffer of that length, which is 0 frames,
    and throws a [NotSupportedError] without logging a warning. *)
Theorem decodeAudioData_partial_frame_throws (bytes : list byte)
    (ctx : AudioContext) (rate : Q) (numChannels : positive) :
  (2 <= length bytes)%nat ->
  Z.of_nat (length bytes / 2) < Z.pos numChannels ->
  decodeAudioData bytes ctx rate (Z.pos numChannels)
  = ([], Throw NotSupportedError).
Proof. apply decodeAudioData_short_frame. Qed.

Lemma decodeAudioData_partial_frame_throws_witness :
  decodeAudioData [x01; x00; x02] minimalContext 48000 2
  = ([], Throw NotSupportedError).
Proof.
  apply (decodeAudioData_partial_frame_throws [x01; x00; x02]
           minimalContext 48000 2).
  - simpl. lia.
  - simpl. lia.
Defined.

End WireFacts.

(** ** More on the scheduler and the session callbacks *)
Module PlaybackFacts.
Import Js Utils Scheduler SchedulerFacts.

(** What [onSegmentDecoded] does to every field. *)
Lemma onSegmentDecoded_effect (b : AudioBuffer) (dj : PromptDj) :
  let dj' := onSegmentDecoded b dj in
  (∃ s, started dj' = started dj ++ [s]
        ∧ destination s = outputNode dj ∧ buffer s = b
        ∧ (currentTime (audioContext dj) <= when s)%Q
        ∧ (Qeq_bool (nextStartTime dj) 0 = true ∨ underrun dj = true ->
           when s = (currentTime (audioContext dj) + bufferTime)%Q))
  ∧ outputNode dj' = outputNode dj
  ∧ audioContext dj' = audioContext dj
  ∧ (playbackState dj' = playbackState dj ∨ playbackState dj' = loading)
  ∧ sent dj' = sent dj
  ∧ filteredPrompts dj' = filteredPrompts dj
  ∧ prompts dj' = prompts dj
  ∧ session dj' = session dj
  ∧ connectionError dj' = connectionError dj
  ∧ toasts dj' = toasts dj.
Proof.
  intros dj'. subst dj'.
  pose proof (currentTime_nonneg (audioContext dj)) as Hnow.
  destruct (Qeq_bool (nextStartTime dj) 0) eqn:H0.
  - rewrite onSegmentDecoded_first by (apply Qeq_bool_iff, H0). fields.
    split; [|repeat split; auto].
    eexists. split; [reflexivity|]. cbn [destination buffer when].
    repeat split; auto. unfold bufferTime. lra.
  - destruct (underrun dj) eqn:Hu.
    + rewrite onSegmentDecoded_underrun by exact Hu. fields.
      split; [|repeat split; auto].
      eexists. split; [reflexivity|]. cbn [destination buffer when].
      repeat split; auto. unfold bufferTime. lra.
    + rewrite onSegmentDecoded_steady by assumption. fields.
      split; [|repeat split; auto].
      eexists. split; [reflexivity|]. cbn [destination buffer when].
      repeat split; auto.
      * unfold underrun in Hu. rewrite H0 in Hu. simpl in Hu.
        apply Qlt_bool_false in Hu. exact Hu.
      * intros [H|H]; discriminate.
Qed.

(** What [onmessage] leaves alone. *)
Lemma onmessage_keeps (e : LiveMusicServerMessage) (dj : PromptDj) :
  let dj' := onmessage e dj in
  sent dj' = sent dj
  ∧ prompts dj' = prompts dj
  ∧ session dj' = session dj
  ∧ filteredPrompts dj ⊆ filteredPrompts dj'
  ∧ outputNode dj' = outputNode dj
  ∧ audioContext dj' = audioContext dj.
Proof.
  intros dj'. subst dj'. unfold onmessage.
  set (dj1 := log _ dj).
  set (dj2 := if setupComplete e then _ else dj1).
  set (dj3 := match filteredPrompt e with Some fp => _ | None => dj2 end).
  assert (H3 : sent dj3 = sent dj ∧ prompts dj3 = prompts dj
               ∧ session dj3 = session dj
               ∧ filteredPrompts dj ⊆ filteredPrompts dj3
               ∧ outputNode dj3 = outputNode dj
               ∧ audioContext dj3 = audioContext dj).
  { subst dj3 dj2 dj1.
    destruct (setupComplete e), (filteredPrompt e) as [fp|]; fields;
      repeat split; try reflexivity; set_solver. }
  clearbody dj3. clear dj1 dj2.
  destruct H3 as (Hs & Hp & Hse & Hf & Ho & Ha).
  destruct (audioChunks e) as [[|chunk chunks]|]; try (repeat split; assumption);
    destruct (playbackState dj3); try (repeat split; assumption);
    destruct (decode chunk) as [bytes|err]; try (repeat split; assumption);
    destruct (decodeAudioData bytes (audioContext dj3) sampleRate 2)
      as [lines [b|err]]; fields; try (repeat split; assumption);
    match goal with |- context [onSegmentDecoded ?b ?x] =>
      destruct (onSegmentDecoded_effect b x)
        as (_ & -> & -> & _ & -> & -> & -> & -> & _) end;
    fields; repeat split; assumption.
Qed.

(** Case analysis on the tests a handler makes. *)
Ltac crunch :=
  repeat (fields;
          match goal with
          | |- context [if ?c then _ else _] => destruct c eqn:?
          | |- context [match ?c with _ => _ end] => destruct c eqn:?
          end);
  fields.

Ltac handlers :=
  cbn [step];
  unfold onerror, onclose, setWeightedPromptsRejected,
    setMusicGenerationConfigRejected, setSessionPrompts, updateSettings,
    throttle, sendSessionPrompts, sendSettings;
  unfold stopAudio, pauseAudio, loadAudio, runTimer, sessionUsable.

Lemma onmessage_started (e : LiveMusicServerMessage) (dj : PromptDj) :
  started (onmessage e dj) = started dj
  ∨ ∃ s, started (onmessage e dj) = started dj ++ [s]
         ∧ destination s = outputNode dj
         ∧ (currentTime (audioContext dj) <= when s)%Q.
Proof.
  destruct (accepting dj) eqn:Ha.
  - destruct (decodedBuffer e dj) as [b|] eqn:Hd.
    + right.
      destruct (onmessage_decoded e dj b Ha Hd) as (dj0 & -> & Hs & _).
      unfold schedule in Hs. injection Hs as Hc Ho _ _ _ Hst.
      destruct (onSegmentDecoded_effect b dj0)
        as ((s & Hs1 & Hs2 & _ & Hs3 & _) & _).
      exists s. rewrite Hs1, Hst, Hs2, Ho. rewrite Hc in Hs3. auto.
    + left. pose proof (onmessage_not_decoded e dj (or_intror Hd)) as Hs.
      unfold schedule in Hs. injection Hs as _ _ _ _ _ Hs. exact Hs.
  - left. pose proof (onmessage_not_decoded e dj (or_introl Ha)) as Hs.
    unfold schedule in Hs. injection Hs as _ _ _ _ _ Hs. exact Hs.
Qed.


Lemma idle_cursor_step (ev : Event) (dj : PromptDj) :
  (accepting dj = false -> nextStartTime dj = 0%Q) ->
  accepting (step ev dj) = false -> nextStartTime (step ev dj) = 0%Q.
Proof.
  intros H.
  destruct ev as [e| | |k|quanta| | | |now ps|now e|msg|msg].
  - cbn [step]. destruct (accepting dj) eqn:Ha.
    + destruct (decodedBuffer e dj) as [b|] eqn:Hd.
      * destruct (onmessage_decoded e dj b Ha Hd) as (dj0 & -> & Hs & _).
        unfold schedule in Hs. injection Hs as _ _ _ Hp _ _.
        destruct (onSegmentDecoded_effect b dj0)
          as (_ & _ & _ & [Hq|Hq] & _);
          unfold accepting in *; rewrite Hq; [rewrite Hp|];
          destruct (playbackState dj); discriminate.
      * pose proof (onmessage_not_decoded e dj (or_intror Hd)) as Hs.
        unfold schedule in Hs. injection Hs as _ _ Hn Hp _ _.
        unfold accepting in *. rewrite Hp, Hn. intros Hf.
        rewrite Ha in Hf. discriminate.
    + pose proof (onmessage_not_decoded e dj (or_introl Ha)) as Hs.
      unfold schedule in Hs. injection Hs as _ _ Hn Hp _ _.
      rewrite Hn. intros _. apply H. reflexivity.
  - handlers. crunch; reflexivity.
  - handlers. unfold accepting in *. crunch; intros; auto; try reflexivity;
      try discriminate;
      apply H; repeat match goal with E : playbackState _ = _ |- _ =>
                        rewrite E end; reflexivity.
  - handlers. unfold accepting in *.
    destruct (timers dj !! k) as [t|]; [|exact H]. destruct (callback t).
    fields. destruct (playbackState dj) eqn:Hp; cbn [PlaybackState_eqb];
      fields; try rewrite Hp; auto; discriminate.
  - exact H.
  - handlers. crunch; reflexivity.
  - handlers. unfold accepting. crunch; discriminate.
  - handlers. crunch; reflexivity.
  - cbn [step].
    pose proof (setSessionPrompts_schedule now (set_prompts ps dj)) as Hs.
    unfold schedule in Hs. injection Hs as _ _ Hn Hp _ _.
    unfold accepting in *. rewrite Hp, Hn. exact H.
  - cbn [step].
    pose proof (updateSettings_schedule now e dj) as Hs.
    unfold schedule in Hs. injection Hs as _ _ Hn Hp _ _.
    unfold accepting in *. rewrite Hp, Hn. exact H.
  - handlers. crunch; reflexivity.
  - handlers. unfold accepting in *. fields. exact H.
Qed.

Lemma step_outputNode (ev : Event) (dj : PromptDj) :
  (∀ e, ev <> OnMessage e) ->
  (outputNode dj <= outputNode (step ev dj))%nat
  ∧ ((ev = PauseAudio ∨ ev = StopAudio ∨ ev = OnError
      ∨ ∃ message, ev = PromptsRejected message) ->
     outputNode (step ev dj) = S (outputNode dj)).
Proof.
  intros Hev.
  destruct ev as [e| | |k|quanta| | | |now ps|now e|msg|msg];
    try (exfalso; eapply Hev; reflexivity);
    (split; [handlers; crunch; lia|]);
    intros [H|[H|[H|[m H]]]]; try discriminate;
    handlers; crunch; reflexivity.
Qed.

Lemma old_destinations_step (ev : Event) (dj : PromptDj) :
  Forall (fun s => (destination s <= outputNode dj)%nat) (started dj) ->
  Forall (fun s => (destination s <= outputNode (step ev dj))%nat)
    (started (step ev dj)).
Proof.
  intros H.
  destruct (match ev with OnMessage e => Some e | _ => None end) as [e|] eqn:E.
  - destruct ev; try discriminate. injection E as ->. cbn [step].
    destruct (onmessage_keeps e dj) as (_ & _ & _ & _ & -> & _).
    destruct (onmessage_started e dj) as [->|(s & -> & Hs & _)]; [exact H|].
    apply Forall_app. split; [exact H|]. constructor; [lia|constructor].
  - assert (Hev : ∀ e, ev <> OnMessage e)
      by (intros e ->; discriminate).
    rewrite step_started by (intros e He; destruct (Hev e He)).
    destruct (step_outputNode ev dj Hev) as [Hle _].
    eapply Forall_impl; [exact H|]. intros s Hs. simpl in Hs. lia.
Qed.

Lemma old_destinations_run (evs : list Event) (ctx : AudioContext)
    (initialPrompts : list Prompt) :
  let dj := run evs (init ctx initialPrompts) in
  Forall (fun s => (destination s <= outputNode dj)%nat) (started dj).
Proof.
  intros dj. subst dj. unfold run.
  induction evs as [|ev evs IH] using rev_ind; [constructor|].
  rewrite fold_left_app. cbn [fold_left]. apply old_destinations_step, IH.
Qed.

(** X12: once playback is paused or stopped (by the user, by a connection
    error, or by a rejected prompt update), no source started before is
    connected to the current output node: what was scheduled ahead can no
    longer be heard. *)
Theorem silenced_sources_stay_on_old_node (evs : list Event) (ev : Event)
    (ctx : AudioContext) (initialPrompts : list Prompt) :
  ev = PauseAudio ∨ ev = StopAudio ∨ ev = OnError
  ∨ (∃ message, ev = PromptsRejected message) ->
  let dj := run (evs ++ [ev]) (init ctx initialPrompts) in
  Forall (fun s => destination s <> outputNode dj) (started dj).
Proof.
  intros Hev dj. subst dj. unfold run. rewrite fold_left_app.
  cbn [fold_left]. fold (run evs (init ctx initialPrompts)).
  set (dj := run evs (init ctx initialPrompts)).
  assert (Hm : ∀ e, ev <> OnMessage e).
  { intros e ->. destruct Hev as [H|[H|[H|[m H]]]]; discriminate. }
  rewrite step_started by (intros e He; destruct (Hm e He)).
  destruct (step_outputNode ev dj Hm) as [_ Hs]. rewrite (Hs Hev).
  eapply Forall_impl; [apply old_destinations_run|].
  intros s Hle. simpl in Hle. fold dj in Hle. lia.
Qed.

Lemma silenced_sources_stay_on_old_node_witness :
  Forall (fun s => destination s
                   <> outputNode
                        (run ([LoadAudio; OnMessage (audioMessage "AQACAA==")]
                              ++ [PauseAudio]) (init minimalContext [])))
    (started (run ([LoadAudio; OnMessage (audioMessage "AQACAA==")]
                   ++ [PauseAudio]) (init minimalContext []))).
Proof.
  apply (silenced_sources_stay_on_old_node
           [LoadAudio; OnMessage (audioMessage "AQACAA==")] PauseAudio
           minimalContext []).
  left. reflexivity.
Defined.

Lemma promptsToSend_In (filtered : gset string) (ps : list Prompt)
    (p : Prompt) :
  In p (promptsToSend filtered ps) ->
  In p ps ∧ (text p ∉ filtered) ∧ ¬ (weight p == 0)%Q.
Proof.
  unfold promptsToSend. intros H. apply filter_In in H as [Hin H].
  apply andb_true_iff in H as [H1 H2].
  apply negb_true_iff in H1, H2.
  split; [exact Hin|]. split.
  - intros Hf. apply bool_decide_eq_false in H1. contradiction.
  - apply Qeq_bool_false, H2.
Qed.

(** What an event adds to the commands sent. *)
Lemma step_sent (ev : Event) (dj : PromptDj) :
  filteredPrompts dj ⊆ filteredPrompts (step ev dj)
  ∧ ∃ new, sent (step ev dj) = sent dj ++ new
      ∧ ∀ ps p, In (SetWeightedPrompts ps) new -> In p ps ->
          (text p ∉ filteredPrompts dj) ∧ ¬ (weight p == 0)%Q.
Proof.
  destruct ev as [e| | |k|quanta| | | |now ps|now e|msg|msg].
  - cbn [step]. destruct (onmessage_keeps e dj) as (-> & _ & _ & Hf & _).
    split; [exact Hf|]. exists []. rewrite app_nil_r.
    split; [reflexivity|]. intros ps p [].
  - split; [handlers; crunch; reflexivity|].
    handlers; crunch;
      [exists [Stop] | exists []; rewrite app_nil_r];
      (split; [reflexivity|]); intros ps p H; simpl in H;
      intuition discriminate.
  - split; [handlers; crunch; reflexivity|].
    handlers; crunch;
      first [exists [Stop]; split; [reflexivity|]
            | exists []; rewrite app_nil_r; split; [reflexivity|]];
      intros ps p H; simpl in H; intuition discriminate.
  - split; [handlers; crunch; reflexivity|].
    handlers; crunch; exists []; rewrite app_nil_r;
      (split; [reflexivity|]); intros ps p [].
  - split; [reflexivity|]. exists []. rewrite app_nil_r.
    split; [reflexivity|]. intros ps p [].
  - split; [handlers; crunch; reflexivity|].
    handlers; crunch;
      first [exists [Pause]; split; [reflexivity|]
            | exists []; rewrite app_nil_r; split; [reflexivity|]];
      intros ps p H; simpl in H; intuition discriminate.
  - split; [handlers; crunch; reflexivity|].
    handlers; crunch;
      first [exists [Play]; split; [reflexivity|]
            | exists []; rewrite app_nil_r; split; [reflexivity|]];
      intros ps p H; simpl in H; intuition discriminate.
  - split; [handlers; crunch; reflexivity|].
    handlers; crunch;
      first [exists [Stop]; split; [reflexivity|]
            | exists []; rewrite app_nil_r; split; [reflexivity|]];
      intros ps p H; simpl in H; intuition discriminate.
  - split; [handlers; crunch; reflexivity|].
    handlers; crunch;
      first [exists []; rewrite app_nil_r; split; [reflexivity|];
             intros ps' p []
            | eexists; split; [reflexivity|]].
    intros ps' p [H|[]] Hp. injection H as <-.
    apply promptsToSend_In in Hp as (_ & H1 & H2). auto.
  - split; [handlers; crunch; reflexivity|].
    handlers; crunch;
      first [exists []; rewrite app_nil_r; split; [reflexivity|];
             intros ps' p []
            | eexists; split; [reflexivity|]].
    intros ps' p [H|[]]. discriminate.
  - split; [handlers; crunch; reflexivity|].
    handlers; crunch;
      first [exists [Pause]; split; [reflexivity|]
            | exists []; rewrite app_nil_r; split; [reflexivity|]];
      intros ps p H; simpl in H; intuition discriminate.
  - split; [handlers; crunch; reflexivity|].
    handlers; crunch; exists []; rewrite app_nil_r;
      (split; [reflexivity|]); intros ps p [].
Qed.

(** X13: a prompt the server has flagged is never sent again, and a prompt
    of weight zero is never sent.  Whatever happens from a given state on,
    every prompt carried by a [setWeightedPrompts] call made from then on
    has a text outside the filtered set of that state and a weight other
    than 0; and the filtered set only grows. *)
Theorem filtered_prompts_are_never_sent (evs : list Event) (dj : PromptDj) :
  filteredPrompts dj ⊆ filteredPrompts (run evs dj)
  ∧ ∃ new, sent (run evs dj) = sent dj ++ new
      ∧ ∀ ps p, In (SetWeightedPrompts ps) new -> In p ps ->
          (text p ∉ filteredPrompts dj) ∧ ¬ (weight p == 0)%Q.
Proof.
  revert dj. induction evs as [|ev evs IH]; intros dj.
  - split; [reflexivity|]. exists []. rewrite app_nil_r.
    split; [reflexivity|]. intros ps p [].
  - cbn [run fold_left]. fold (run evs (step ev dj)).
    destruct (step_sent ev dj) as (Hf1 & new1 & Hs1 & Hn1).
    destruct (IH (step ev dj)) as (Hf2 & new2 & Hs2 & Hn2).
    split; [transitivity (filteredPrompts (step ev dj)); assumption|].
    exists (new1 ++ new2).
    split; [rewrite Hs2, Hs1, app_assoc; reflexivity|].
    intros ps p Hin Hp. apply in_app_or in Hin as [Hin|Hin].
    + exact (Hn1 ps p Hin Hp).
    + destruct (Hn2 ps p Hin Hp) as [H1 H2]. split; [|exact H2].
      intros Hin'. apply H1. rewrite elem_of_subseteq in Hf1.
      apply Hf1, Hin'.
Qed.

(** X14: losing the connection never talks to the session.  [onerror] and
    [onclose] send no command (not even [stop]: the error flag is raised
    first), leave playback in a state that drops audio, and from then on a
    prompt edit or a settings change sends nothing either. *)
Theorem connection_loss_sends_nothing (ev : Event) (dj : PromptDj) :
  ev = OnError ∨ ev = OnClose ->
  let dj' := step ev dj in
  sent dj' = sent dj
  ∧ connectionError dj' = true
  ∧ accepting dj' = false
  ∧ (∀ now ps, sent (step (PromptsEdited now ps) dj') = sent dj)
  ∧ (∀ now e, sent (step (SettingsChanged now e) dj') = sent dj).
Proof.
  intros [-> | ->] dj'; subst dj';
    repeat split; intros; handlers; unfold accepting; crunch;
    try reflexivity; exfalso;
    match goal with
    | H : _ && negb true = true |- _ =>
        rewrite andb_false_r in H; discriminate
    | H : negb _ || true = false |- _ =>
        rewrite orb_true_r in H; discriminate
    | _ => destruct (playbackState dj) eqn:Hp; fields; congruence
    end.
Qed.

Lemma connection_loss_sends_nothing_witness :
  sent (step OnClose (loadAudio (connected (init minimalContext []))))
  = [Play].
Proof.
  exact (proj1 (connection_loss_sends_nothing OnClose
                  (loadAudio (connected (init minimalContext [])))
                  (or_intror eq_refl))).
Defined.



End PlaybackFacts.

(** ** Colours and the prompts of a fresh page *)
Module PresetFacts.
Import Scheduler Presets.

Lemma randomIndex_lt (random : Q) (n : nat) :
  unit_interval random -> (0 < n)%nat -> (randomIndex random n < n)%nat.
Proof.
  intros [H0 H1] Hn. unfold randomIndex.
  set (x := (random * inject_Z (Z.of_nat n))%Q).
  assert (Hn' : (0 < inject_Z (Z.of_nat n))%Q).
  { change 0%Q with (inject_Z 0). rewrite <- Zlt_Qlt. lia. }
  assert (Hx0 : (0 <= x)%Q).
  { unfold x. apply Qmult_le_0_compat; [exact H0|apply Qlt_le_weak, Hn']. }
  assert (Hx1 : (x < inject_Z (Z.of_nat n))%Q).
  { unfold x. rewrite <- (Qmult_1_l (inject_Z (Z.of_nat n))) at 2.
    apply Qmult_lt_compat_r; assumption. }
  assert (0 <= Qfloor x)
    by (change 0 with (Qfloor 0); apply Qfloor_resp_le, Hx0).
  assert (Qfloor x < Z.of_nat n).
  { rewrite Zlt_Qlt. eapply Qle_lt_trans; [apply Qfloor_le|exact Hx1]. }
  lia.
Qed.

Lemma includes_In (usedColors : list string) (c : string) :
  includes usedColors c = true <-> In c usedColors.
Proof.
  unfold includes. rewrite existsb_exists. split.
  - intros (x & Hx & E). apply String.eqb_eq in E. subst x. exact Hx.
  - intros H. exists c. split; [exact H|apply String.eqb_refl].
Qed.

Lemma lookup_In {A : Type} (l : list A) (i : nat) (x : A) :
  l !! i = Some x -> In x l.
Proof.
  revert i. induction l as [|y l IH]; intros [|i] H; try discriminate.
  - injection H as ->. left. reflexivity.
  - right. exact (IH i H).
Qed.

Lemma getUnusedRandomColor_spec (random : Q) (usedColors : list string) :
  unit_interval random ->
  ∃ c, getUnusedRandomColor random usedColors = Some c ∧ In c COLORS
       ∧ ((∃ c', In c' COLORS ∧ ¬ In c' usedColors) -> ¬ In c usedColors).
Proof.
  intros Hr. unfold getUnusedRandomColor.
  set (available := List.filter _ COLORS).
  destruct (length available =? 0)%nat eqn:E.
  - apply Nat.eqb_eq in E.
    destruct (lookup_lt_is_Some_2 COLORS (randomIndex random (length COLORS)))
      as [c Hc]; [apply randomIndex_lt; [exact Hr|simpl; lia]|].
    exists c. split; [exact Hc|]. split; [eapply lookup_In, Hc|].
    intros (c' & Hc' & Hu). exfalso.
    assert (Hin : In c' available).
    { apply filter_In. split; [exact Hc'|]. apply negb_true_iff.
      apply not_true_iff_false. rewrite includes_In. exact Hu. }
    destruct available; [destruct Hin|discriminate].
  - apply Nat.eqb_neq in E.
    destruct (lookup_lt_is_Some_2 available
                (randomIndex random (length available)))
      as [c Hc]; [apply randomIndex_lt; [exact Hr|lia]|].
    exists c. split; [exact Hc|].
    apply lookup_In, filter_In in Hc as [Hc Hn]. split; [exact Hc|].
    intros _. apply negb_true_iff, not_true_iff_false in Hn.
    rewrite includes_In in Hn. exact Hn.
Qed.

(** X16: for a draw of [Math.random()] in [0, 1), [getUnusedRandomColor]
    returns a colour of the palette (never [undefined]), and one that is
    not among the used colours whenever the palette has such a colour. *)
Theorem getUnusedRandomColor_unused (random : Q) (usedColors : list string) :
  unit_interval random ->
  ∃ c, getUnusedRandomColor random usedColors = Some c ∧ In c COLORS
       ∧ ((∃ c', In c' COLORS ∧ ¬ In c' usedColors) -> ¬ In c usedColors).
Proof. apply getUnusedRandomColor_spec. Qed.

Lemma getUnusedRandomColor_unused_witness :
  ∃ c, getUnusedRandomColor (3 # 4) ["#9900ff"; "#ffdd28"]%string = Some c
       ∧ In c COLORS
       ∧ ((∃ c', In c' COLORS ∧ ¬ In c' ["#9900ff"; "#ffdd28"]%string) ->
          ¬ In c ["#9900ff"; "#ffdd28"]%string).
Proof.
  apply (getUnusedRandomColor_unused (3 # 4)).
  split; [discriminate|reflexivity].
Defined.

Lemma COLORS_NoDup : NoDup COLORS.
Proof. apply (bool_decide_unpack _). vm_compute. exact I. Qed.

Lemma PROMPT_TEXT_PRESETS_NoDup : NoDup PROMPT_TEXT_PRESETS.
Proof. apply (bool_decide_unpack _). vm_compute. exact I. Qed.

Lemma unused_colour_exists (usedColors : list string) :
  (length usedColors < length COLORS)%nat ->
  ∃ c', In c' COLORS ∧ ¬ In c' usedColors.
Proof.
  intros Hlt.
  destruct (List.filter (fun c => negb (includes usedColors c)) COLORS)
    as [|c' rest] eqn:E.
  - exfalso.
    assert (Hincl : incl COLORS usedColors).
    { intros c Hc. destruct (includes usedColors c) eqn:Hi;
        [apply includes_In, Hi|].
      assert (H : In c (List.filter (fun c => negb (includes usedColors c))
                          COLORS))
        by (apply filter_In; rewrite Hi; auto).
      rewrite E in H. destruct H. }
    pose proof (NoDup_incl_length
                  (proj1 (NoDup_ListNoDup COLORS) COLORS_NoDup) Hincl).
    lia.
  - exists c'.
    assert (H : In c' (List.filter (fun c => negb (includes usedColors c))
                         COLORS))
      by (rewrite E; left; reflexivity).
    apply filter_In in H as [H1 H2]. split; [exact H1|].
    apply negb_true_iff, not_true_iff_false in H2.
    rewrite includes_In in H2. exact H2.
Qed.

Lemma defaultPromptsFrom_spec (shuffled : list string) (random : nat -> Q) :
  (∀ i, unit_interval (random i)) ->
  ∀ (n i : nat) (usedColors : list string) (acc : list Prompt),
    (i + n <= length shuffled)%nat ->
    (length usedColors + n <= length COLORS)%nat ->
    ∃ ps, defaultPromptsFrom shuffled random i n usedColors acc
          = Some (acc ++ ps)
      ∧ map promptId ps = map promptIdOf (seq i n)
      ∧ map text ps = take n (drop i shuffled)
      ∧ Forall (fun p => weight p = 0%Q) ps
      ∧ Forall (fun c => In c COLORS ∧ ¬ In c usedColors) (map color ps)
      ∧ NoDup (map color ps).
Proof.
  intros Hr. induction n as [|n IH]; intros i used acc Hi Hu.
  - exists []. cbn [defaultPromptsFrom]. rewrite app_nil_r.
    repeat split; constructor.
  - cbn [defaultPromptsFrom].
    destruct (lookup_lt_is_Some_2 shuffled i) as [t Ht]; [lia|].
    rewrite Ht.
    destruct (getUnusedRandomColor_spec (random i) used (Hr i))
      as (c & -> & Hc & Hfresh).
    assert (Hlt : (length used < length COLORS)%nat) by lia.
    specialize (Hfresh (unused_colour_exists used Hlt)).
    destruct (IH (S i) (used ++ [c])
                (acc ++ [{| promptId := promptIdOf i; color := c; text := t;
                            weight := 0 |}]))
      as (ps & -> & Hid & Htx & Hw & Hcol & Hnd);
      [lia | rewrite length_app; change (length [c]) with 1%nat; lia |].
    eexists (_ :: ps). rewrite <- app_assoc. split; [reflexivity|].
    cbn [map seq promptId text color]. rewrite Hid, Htx.
    rewrite (drop_S shuffled t i Ht). cbn [take].
    split; [reflexivity|]. split; [reflexivity|].
    split; [constructor; [reflexivity|exact Hw]|].
    split.
    + constructor; [split; assumption|].
      eapply Forall_impl; [exact Hcol|]. intros c' [H1 H2].
      split; [exact H1|]. intros H. apply H2, in_or_app. left. exact H.
    + apply NoDup_cons. split; [|exact Hnd].
      rewrite list_elem_of_In. intros H.
      rewrite Forall_forall in Hcol.
      apply list_elem_of_In, Hcol in H as [_ H]. apply H, in_or_app.
      right. left. reflexivity.
Qed.

(** X17: the prompts of a page with nothing stored.  Whatever the two
    random sorts and the colour draws give, [getStoredPrompts] builds four
    prompts [prompt-0] to [prompt-3], with the first four of the shuffled
    preset texts (pairwise distinct), four pairwise distinct colours of the
    palette, and exactly two of them at weight 1, the other two at
    weight 0. *)
Theorem presetPrompts_two_active (shuffledPresetTexts : list string)
    (random : nat -> Q) (order : list nat) :
  Permutation PROMPT_TEXT_PRESETS shuffledPresetTexts ->
  (∀ i, unit_interval (random i)) ->
  Permutation [0; 1; 2; 3]%nat order ->
  ∃ ps, presetPrompts shuffledPresetTexts random order = Some ps
    ∧ map promptId ps
      = ["prompt-0"; "prompt-1"; "prompt-2"; "prompt-3"]%string
    ∧ map text ps = take 4 shuffledPresetTexts
    ∧ NoDup (map text ps)
    ∧ NoDup (map color ps)
    ∧ Forall (fun c => In c COLORS) (map color ps)
    ∧ length (List.filter (fun p => Qeq_bool (weight p) 1) ps) = 2%nat
    ∧ length (List.filter (fun p => Qeq_bool (weight p) 0) ps) = 2%nat.
Proof.
  intros Hperm Hr Horder.
  assert (Hlen : length shuffledPresetTexts = 16%nat)
    by (rewrite <- (Permutation_length Hperm); reflexivity).
  assert (Hnd : NoDup (take 4 shuffledPresetTexts)).
  { eapply sublist_NoDup; [|apply sublist_take].
    rewrite <- Hperm. apply PROMPT_TEXT_PRESETS_NoDup. }
  unfold presetPrompts.
  change (Nat.min 4 (length PROMPT_TEXT_PRESETS)) with 4%nat.
  destruct (defaultPromptsFrom_spec shuffledPresetTexts random Hr 4 0 [] [])
    as (ps0 & -> & Hid & Htx & Hw & Hcol & Hcnd);
    [lia | simpl; lia |].
  cbn [app]. rewrite drop_0 in Htx.
  destruct ps0 as [|p0 [|p1 [|p2 [|p3 [|p4 rest]]]]]; try discriminate.
  assert (Ho : length order = 4%nat)
    by (rewrite <- (Permutation_length Horder); reflexivity).
  destruct order as [|a [|b [|c [|d [|x rest]]]]]; try discriminate.
  assert (Hond : NoDup [a; b; c; d]).
  { rewrite <- Horder. apply (bool_decide_unpack _). vm_compute. exact I. }
  assert (Ha : In a [0; 1; 2; 3]%nat)
    by (eapply Permutation_in; [symmetry; exact Horder|left; reflexivity]).
  assert (Hb : In b [0; 1; 2; 3]%nat)
    by (eapply Permutation_in;
        [symmetry; exact Horder|right; left; reflexivity]).
  assert (Hab : a <> b).
  { intros ->. apply NoDup_cons in Hond as [Hn _]. apply Hn.
    apply list_elem_of_In. left. reflexivity. }
  eexists. split; [reflexivity|].
  change (Nat.min 2 (length [p0; p1; p2; p3])) with 2%nat.
  cbn [seq fold_left activate lookup list_lookup].
  apply Forall_cons in Hw as [W0 Hw]. apply Forall_cons in Hw as [W1 Hw].
  apply Forall_cons in Hw as [W2 Hw]. apply Forall_cons in Hw as [W3 _].
  assert (Hcol' : Forall (fun c => In c COLORS)
                    (map color [p0; p1; p2; p3])).
  { eapply Forall_impl; [exact Hcol|]. intros c0 [H _]. exact H. }
  destruct p0 as [i0 c0 t0 w0], p1 as [i1 c1 t1 w1], p2 as [i2 c2 t2 w2],
    p3 as [i3 c3 t3 w3].
  cbn [weight] in W0, W1, W2, W3. subst w0 w1 w2 w3.
  rewrite <- Htx in Hnd |- *.
  simpl in Ha, Hb.
  destruct Ha as [<-|[<-|[<-|[<-|[]]]]];
    destruct Hb as [<-|[<-|[<-|[<-|[]]]]]; try (exfalso; apply Hab; reflexivity);
    cbn [alter list_alter set_weight map promptId color text weight] in *;
    (split; [exact Hid|]); (split; [reflexivity|]);
    (split; [exact Hnd|]); (split; [exact Hcnd|]);
    (split; [exact Hcol'|]); split; reflexivity.
Qed.

Lemma presetPrompts_two_active_witness :
  ∃ ps, presetPrompts PROMPT_TEXT_PRESETS (fun _ => 1 # 2) [1; 0; 2; 3]%nat
        = Some ps
    ∧ map promptId ps
      = ["prompt-0"; "prompt-1"; "prompt-2"; "prompt-3"]%string
    ∧ map text ps = take 4 PROMPT_TEXT_PRESETS
    ∧ NoDup (map text ps)
    ∧ NoDup (map color ps)
    ∧ Forall (fun c => In c COLORS) (map color ps)
    ∧ length (List.filter (fun p => Qeq_bool (weight p) 1) ps) = 2%nat
    ∧ length (List.filter (fun p => Qeq_bool (weight p) 0) ps) = 2%nat.
Proof.
  apply (presetPrompts_two_active PROMPT_TEXT_PRESETS (fun _ => 1 # 2)
           [1; 0; 2; 3]%nat).
  - reflexivity.
  - intros _. split; [discriminate|reflexivity].
  - apply perm_swap.
Defined.

End PresetFacts.

(** ** The prompt handlers and the transport buttons *)
Module ControlFacts.
Import Js Utils Scheduler Presets Controls SchedulerFacts PlaybackFacts
  PresetFacts.

Lemma Map_has_In (key : string) (m : list Prompt) :
  Map_has key m = true <-> In key (map promptId m).
Proof.
  unfold Map_has. rewrite existsb_exists, in_map_iff. split.
  - intros (p & Hp & E). apply String.eqb_eq in E. eauto.
  - intros (p & E & Hp). exists p. split; [exact Hp|].
    apply String.eqb_eq, E.
Qed.

Lemma Map_get_None (key : string) (m : list Prompt) :
  Map_get key m = None <-> ¬ In key (map promptId m).
Proof.
  unfold Map_get. induction m as [|p m IH]; [simpl; tauto|].
  cbn [find map In]. destruct (String.eqb_spec (promptId p) key) as [E|E].
  - split; [discriminate|]. intros H. exfalso. apply H. left. exact E.
  - rewrite IH. tauto.
Qed.

Lemma Map_get_Some (key : string) (m : list Prompt) (p : Prompt) :
  Map_get key m = Some p -> In p m ∧ promptId p = key.
Proof.
  unfold Map_get. intros H. apply find_some in H as [H E].
  apply String.eqb_eq in E. auto.
Qed.

Lemma Map_set_fresh (key : string) (v : Prompt) (m : list Prompt) :
  ¬ In key (map promptId m) -> Map_set key v m = m ++ [v].
Proof.
  induction m as [|p m IH]; intros H; [reflexivity|].
  cbn [Map_set app]. cbn [map In] in H.
  destruct (String.eqb_spec (promptId p) key) as [E|E]; [tauto|].
  rewrite IH by tauto. reflexivity.
Qed.

Lemma Map_set_ids (key : string) (v : Prompt) (m : list Prompt) :
  In key (map promptId m) -> promptId v = key ->
  map promptId (Map_set key v m) = map promptId m
  ∧ length (Map_set key v m) = length m.
Proof.
  intros Hin Hv. induction m as [|p m IH]; [destruct Hin|].
  cbn [Map_set]. destruct (String.eqb_spec (promptId p) key) as [E|E].
  - cbn [map length]. rewrite Hv, E. auto.
  - cbn [map length]. destruct Hin as [Hin|Hin]; [contradiction|].
    destruct (IH Hin) as (-> & ->). auto.
Qed.

Lemma Map_get_set (key key' : string) (v : Prompt) (m : list Prompt) :
  promptId v = key ->
  Map_get key' (Map_set key v m)
  = if String.eqb key' key then Some v else Map_get key' m.
Proof.
  intros Hv. unfold Map_get. induction m as [|p m IH].
  - cbn [Map_set find]. rewrite Hv, (String.eqb_sym key key').
    destruct (String.eqb key' key); reflexivity.
  - cbn [Map_set]. destruct (String.eqb_spec (promptId p) key) as [E|E].
    + cbn [find]. rewrite Hv, E, (String.eqb_sym key key').
      destruct (String.eqb key' key); reflexivity.
    + cbn [find]. destruct (String.eqb_spec (promptId p) key') as [E'|E'].
      * destruct (String.eqb_spec key' key) as [E2|E2]; [congruence|].
        reflexivity.
      * exact IH.
Qed.

Lemma Map_delete_fresh (key : string) (m : list Prompt) :
  ¬ In key (map promptId m) -> Map_delete key m = m.
Proof.
  unfold Map_delete. induction m as [|p m IH]; intros H; [reflexivity|].
  cbn [List.filter]. cbn [map In] in H.
  destruct (String.eqb_spec (promptId p) key) as [E|E]; [tauto|].
  cbn [negb]. rewrite IH by tauto. reflexivity.
Qed.

Lemma Map_delete_ids (key : string) (m : list Prompt) :
  ¬ In key (map promptId (Map_delete key m))
  ∧ (∀ p, In p (Map_delete key m) <-> In p m ∧ promptId p <> key)
  ∧ (NoDup (map promptId m) -> NoDup (map promptId (Map_delete key m))).
Proof.
  unfold Map_delete. split; [|split].
  - rewrite in_map_iff. intros (p & E & Hp). apply filter_In in Hp as [_ Hp].
    apply negb_true_iff, String.eqb_neq in Hp. contradiction.
  - intros p. rewrite filter_In, negb_true_iff, String.eqb_neq. tauto.
  - induction m as [|p m IH]; intros Hnd; [constructor|].
    cbn [map] in Hnd. apply NoDup_cons in Hnd as [Hp Hnd].
    cbn [List.filter]. destruct (negb (promptId p =? key)%string).
    + cbn [map]. apply NoDup_cons. split; [|exact (IH Hnd)].
      rewrite list_elem_of_In, in_map_iff. intros (q & E & Hq).
      apply filter_In in Hq as [Hq _]. apply Hp.
      rewrite list_elem_of_In, in_map_iff. eauto.
    + exact (IH Hnd).
Qed.

(** The throttled sender leaves all but the commands sent, the console and
    its own clock alone. *)
Lemma setSessionPrompts_keeps (now : Z) (d : PromptDj) :
  prompts (setSessionPrompts now d) = prompts d
  ∧ session (setSessionPrompts now d) = session d
  ∧ connectionError (setSessionPrompts now d) = connectionError d
  ∧ playbackState (setSessionPrompts now d) = playbackState d
  ∧ filteredPrompts (setSessionPrompts now d) = filteredPrompts d
  ∧ toasts (setSessionPrompts now d) = toasts d.
Proof.
  unfold setSessionPrompts, throttle, sendSessionPrompts.
  crunch; repeat split; reflexivity.
Qed.

Ltac page :=
  cbn [dj nextPromptId connecting adding resumeTimers contextResets
       promptsChanged with_dj set_connecting set_adding set_resumeTimers
       dispatchPromptsChange suspend] in *.

(** X18: a change for a prompt id the page does not hold.
    [handlePromptChanged] logs the error and does nothing else: the
    prompts stay, nothing is sent, the throttle clock is not touched, and
    no [prompts-changed] event is dispatched. *)
Theorem handlePromptChanged_unknown_prompt (now : Z) (detail : Prompt)
    (pg : Page) :
  ¬ In (promptId detail) (map promptId (prompts (dj pg))) ->
  let pg' := handlePromptChanged now detail pg in
  prompts (dj pg') = prompts (dj pg)
  ∧ sent (dj pg') = sent (dj pg)
  ∧ setSessionPrompts_lastCall (dj pg') = setSessionPrompts_lastCall (dj pg)
  ∧ promptsChanged pg' = promptsChanged pg
  ∧ console (dj pg') = console (dj pg) ++ ["prompt not found"%string].
Proof.
  intros H pg'. subst pg'. unfold handlePromptChanged.
  apply Map_get_None in H. rewrite H. page. fields.
  repeat split; reflexivity.
Qed.

Lemma handlePromptChanged_unknown_prompt_witness :
  prompts (dj (handlePromptChanged 1700000000000
                 {| promptId := "prompt-9"; color := "#9900ff";
                    text := "Funk"; weight := 1 |}
                 (construct minimalContext [bossaNova 1])))
  = [bossaNova 1].
Proof.
  refine (proj1 (handlePromptChanged_unknown_prompt 1700000000000
                   {| promptId := "prompt-9"; color := "#9900ff";
                      text := "Funk"; weight := 1 |}
                   (construct minimalContext [bossaNova 1]) _)).
  simpl. intros [H|[]]. discriminate H.
Defined.

(** X19: a change for a prompt the page holds.  After
    [handlePromptChanged] the prompt under that id has the text and the
    weight of the event and keeps its colour (the colour of the event is
    ignored); every other id maps to what it did, the order of the ids is
    the same, and the [prompts-changed] event dispatched last carries the
    new prompts. *)
Theorem handlePromptChanged_updates (now : Z) (detail old : Prompt)
    (pg : Page) :
  Map_get (promptId detail) (prompts (dj pg)) = Some old ->
  let pg' := handlePromptChanged now detail pg in
  Map_get (promptId detail) (prompts (dj pg'))
  = Some {| promptId := promptId detail; color := color old;
            text := text detail; weight := weight detail |}
  ∧ (∀ key, key <> promptId detail ->
       Map_get key (prompts (dj pg')) = Map_get key (prompts (dj pg)))
  ∧ map promptId (prompts (dj pg')) = map promptId (prompts (dj pg))
  ∧ last (promptsChanged pg') = Some (prompts (dj pg')).
Proof.
  intros H pg'. subst pg'. unfold handlePromptChanged. rewrite H.
  destruct (Map_get_Some _ _ _ H) as [Hin Hid].
  page.
  destruct (setSessionPrompts_keeps now
              (set_prompts
                 (Map_set (promptId detail)
                    {| promptId := promptId old; color := color old;
                       text := text detail; weight := weight detail |}
                    (prompts (dj pg))) (dj pg))) as (-> & _).
  fields. rewrite Hid.
  assert (Hids : In (promptId detail) (map promptId (prompts (dj pg)))).
  { apply in_map_iff. eauto. }
  split; [|split; [|split]].
  - rewrite Map_get_set by reflexivity. rewrite String.eqb_refl. reflexivity.
  - intros key Hk. rewrite Map_get_set by reflexivity.
    apply String.eqb_neq in Hk. rewrite Hk. reflexivity.
  - apply Map_set_ids; [exact Hids|reflexivity].
  - apply last_snoc.
Qed.

Lemma handlePromptChanged_updates_witness :
  Map_get "prompt-0"
    (prompts (dj (handlePromptChanged 1700000000000
                    {| promptId := "prompt-0"; color := "#000000";
                       text := "Funk"; weight := 1 # 2 |}
                    (construct minimalContext [bossaNova 1]))))
  = Some {| promptId := "prompt-0"; color := "#9900ff"; text := "Funk";
            weight := 1 # 2 |}.
Proof.
  exact (proj1 (handlePromptChanged_updates 1700000000000
                  {| promptId := "prompt-0"; color := "#000000";
                     text := "Funk"; weight := 1 # 2 |}
                  (bossaNova 1) (construct minimalContext [bossaNova 1])
                  eq_refl)).
Defined.

(** [handleAddPrompt] with draws in range. *)
Lemma handleAddPrompt_spec (now : Z) (randomText randomColor : Q)
    (pg : Page) :
  unit_interval randomText -> unit_interval randomColor ->
  ∃ t c,
    In t PROMPT_TEXT_PRESETS ∧ In c COLORS
    ∧ ((length (prompts (dj pg)) < length COLORS)%nat ->
       ¬ In c (map color (prompts (dj pg))))
    ∧ handleAddPrompt now randomText randomColor pg
      = Some
          {| dj :=
               setSessionPrompts now
                 (set_prompts
                    (Map_set (promptIdOf (nextPromptId pg))
                       {| promptId := promptIdOf (nextPromptId pg);
                          color := c; text := t; weight := 0 |}
                       (prompts (dj pg))) (dj pg));
             nextPromptId := S (nextPromptId pg);
             connecting := connecting pg; adding := S (adding pg);
             resumeTimers := resumeTimers pg;
             contextResets := contextResets pg;
             promptsChanged := promptsChanged pg |}.
Proof.
  intros Ht Hc. unfold handleAddPrompt.
  destruct (lookup_lt_is_Some_2 PROMPT_TEXT_PRESETS
              (randomIndex randomText (length PROMPT_TEXT_PRESETS)))
    as [t Hlt]; [apply randomIndex_lt; [exact Ht|simpl; lia]|].
  rewrite Hlt.
  destruct (getUnusedRandomColor_spec randomColor
              (map color (prompts (dj pg))) Hc) as (c & -> & Hin & Hfresh).
  exists t, c. split; [eapply lookup_In, Hlt|]. split; [exact Hin|].
  split; [|reflexivity].
  intros Hlen. apply Hfresh, unused_colour_exists.
  rewrite length_map. exact Hlen.
Qed.

(** X20: adding a prompt under a fresh id.  With draws in [0, 1) and no
    prompt yet under [prompt-<nextPromptId>], [handleAddPrompt] appends one
    prompt with that id, weight 0, a preset text and a palette colour (one
    no prompt uses, while fewer prompts than colours exist), and counts
    the id up; the prompts that a send carries are the same as before. *)
Theorem handleAddPrompt_appends (now : Z) (randomText randomColor : Q)
    (pg : Page) :
  unit_interval randomText -> unit_interval randomColor ->
  ¬ In (promptIdOf (nextPromptId pg)) (map promptId (prompts (dj pg))) ->
  ∃ pg' p, handleAddPrompt now randomText randomColor pg = Some pg'
    ∧ prompts (dj pg') = prompts (dj pg) ++ [p]
    ∧ promptId p = promptIdOf (nextPromptId pg)
    ∧ weight p = 0%Q
    ∧ In (text p) PROMPT_TEXT_PRESETS
    ∧ In (color p) COLORS
    ∧ ((length (prompts (dj pg)) < length COLORS)%nat ->
       ¬ In (color p) (map color (prompts (dj pg))))
    ∧ nextPromptId pg' = S (nextPromptId pg)
    ∧ promptsToSend (filteredPrompts (dj pg')) (prompts (dj pg'))
      = promptsToSend (filteredPrompts (dj pg)) (prompts (dj pg)).
Proof.
  intros Ht Hc Hfresh.
  destruct (handleAddPrompt_spec now randomText randomColor pg Ht Hc)
    as (t & c & Hin & Hcol & Hunused & ->).
  eexists. eexists. split; [reflexivity|]. page.
  match goal with |- context [setSessionPrompts now ?d] =>
    destruct (setSessionPrompts_keeps now d) as (-> & _ & _ & _ & -> & _) end.
  fields. rewrite Map_set_fresh by exact Hfresh.
  split; [reflexivity|]. cbn [promptId weight text color].
  repeat (split; [first [reflexivity | assumption]|]).
  unfold promptsToSend. rewrite List.filter_app. cbn [List.filter weight].
  rewrite andb_false_r. apply app_nil_r.
Qed.

Lemma handleAddPrompt_appends_witness :
  ∃ pg' p,
    handleAddPrompt 1700000000000 (1 # 3) (1 # 2)
      (construct minimalContext [bossaNova 1]) = Some pg'
    ∧ prompts (dj pg') = [bossaNova 1] ++ [p]
    ∧ promptId p = "prompt-1"%string.
Proof.
  destruct (handleAddPrompt_appends 1700000000000 (1 # 3) (1 # 2)
              (construct minimalContext [bossaNova 1]))
    as (pg' & p & H1 & H2 & H3 & _).
  - split; [discriminate|reflexivity].
  - split; [discriminate|reflexivity].
  - simpl. intros [H|[]]. discriminate H.
  - exists pg', p. auto.
Defined.

(** X21: adding a prompt under an id that is taken.  [nextPromptId] starts
    at the size of the map, so [prompt-<nextPromptId>] can be the id of a
    stored prompt; [handleAddPrompt] then replaces that prompt: the page
    holds as many prompts as before, under the same ids, and the one under
    that id is the new prompt of weight 0. *)
Theorem handleAddPrompt_overwrites (now : Z) (randomText randomColor : Q)
    (pg : Page) :
  unit_interval randomText -> unit_interval randomColor ->
  In (promptIdOf (nextPromptId pg)) (map promptId (prompts (dj pg))) ->
  ∃ pg' p, handleAddPrompt now randomText randomColor pg = Some pg'
    ∧ length (prompts (dj pg')) = length (prompts (dj pg))
    ∧ map promptId (prompts (dj pg')) = map promptId (prompts (dj pg))
    ∧ Map_get (promptIdOf (nextPromptId pg)) (prompts (dj pg')) = Some p
    ∧ weight p = 0%Q
    ∧ In (text p) PROMPT_TEXT_PRESETS.
Proof.
  intros Ht Hc Htaken.
  destruct (handleAddPrompt_spec now randomText randomColor pg Ht Hc)
    as (t & c & Hin & Hcol & Hunused & ->).
  eexists. eexists. split; [reflexivity|]. page.
  match goal with |- context [setSessionPrompts now ?d] =>
    destruct (setSessionPrompts_keeps now d) as (-> & _) end.
  fields.
  destruct (Map_set_ids (promptIdOf (nextPromptId pg))
              {| promptId := promptIdOf (nextPromptId pg); color := c;
                 text := t; weight := 0 |} (prompts (dj pg)) Htaken eq_refl)
    as [Hids Hlen].
  split; [exact Hlen|]. split; [exact Hids|].
  rewrite Map_get_set by reflexivity. rewrite String.eqb_refl.
  split; [reflexivity|]. split; [reflexivity|exact Hin].
Qed.

Lemma handleAddPrompt_overwrites_witness :
  ∃ pg' p,
    handleAddPrompt 1700000000000 (1 # 3) (1 # 2)
      (construct minimalContext
         [{| promptId := "prompt-1"; color := "#9900ff"; text := "Funk";
             weight := 1 |}]) = Some pg'
    ∧ length (prompts (dj pg')) = 1%nat
    ∧ Map_get "prompt-1" (prompts (dj pg')) = Some p
    ∧ weight p = 0%Q.
Proof.
  destruct (handleAddPrompt_overwrites 1700000000000 (1 # 3) (1 # 2)
              (construct minimalContext
                 [{| promptId := "prompt-1"; color := "#9900ff";
                     text := "Funk"; weight := 1 |}]))
    as (pg' & p & H1 & H2 & _ & H3 & H4 & _).
  - split; [discriminate|reflexivity].
  - split; [discriminate|reflexivity].
  - left. reflexivity.
  - exists pg', p. auto.
Defined.

(** X22: removing the prompt just added undoes the addition.  After
    [handleAddPrompt] under a fresh id, [handlePromptRemoved] for that id
    leaves the prompts the page had before, in the same order. *)
Theorem handlePromptRemoved_undoes_add (now now' : Z)
    (randomText randomColor : Q) (pg pg' : Page) :
  ¬ In (promptIdOf (nextPromptId pg)) (map promptId (prompts (dj pg))) ->
  handleAddPrompt now randomText randomColor pg = Some pg' ->
  prompts (dj (handlePromptRemoved now' (promptIdOf (nextPromptId pg)) pg'))
  = prompts (dj pg).
Proof.
  intros Hfresh Hadd. unfold handleAddPrompt in Hadd.
  destruct (PROMPT_TEXT_PRESETS !! _) as [t|]; [|discriminate].
  destruct (getUnusedRandomColor _ _) as [c|]; [|discriminate].
  injection Hadd as <-. unfold handlePromptRemoved. page.
  match goal with |- context [setSessionPrompts now ?d] =>
    destruct (setSessionPrompts_keeps now d) as (-> & _) end.
  fields. rewrite Map_set_fresh by exact Hfresh.
  assert (Hhas : Map_has (promptIdOf (nextPromptId pg))
                   (prompts (dj pg)
                    ++ [{| promptId := promptIdOf (nextPromptId pg);
                           color := c; text := t; weight := 0 |}]) = true).
  { apply Map_has_In. rewrite map_app. apply in_or_app. right. left.
    reflexivity. }
  rewrite Hhas. page.
  match goal with |- context [setSessionPrompts now' ?d] =>
    destruct (setSessionPrompts_keeps now' d) as (-> & _) end.
  fields. unfold Map_delete. rewrite List.filter_app.
  fold (Map_delete (promptIdOf (nextPromptId pg)) (prompts (dj pg))).
  rewrite Map_delete_fresh by exact Hfresh.
  cbn [List.filter promptId]. rewrite String.eqb_refl. apply app_nil_r.
Qed.

Lemma handlePromptRemoved_undoes_add_witness :
  ∃ pg',
    handleAddPrompt 1700000000000 (1 # 3) (1 # 2)
      (construct minimalContext [bossaNova 1]) = Some pg'
    ∧ prompts (dj (handlePromptRemoved 1700000000500 "prompt-1" pg'))
      = [bossaNova 1].
Proof.
  destruct (handleAddPrompt 1700000000000 (1 # 3) (1 # 2)
              (construct minimalContext [bossaNova 1])) as [pg'|] eqn:E.
  - exists pg'. split; [reflexivity|].
    refine (handlePromptRemoved_undoes_add 1700000000000 1700000000500
              (1 # 3) (1 # 2) (construct minimalContext [bossaNova 1]) pg'
              _ E).
    simpl. intros [H|[]]. discriminate H.
  - vm_compute in E. discriminate E.
Defined.

Ltac controls :=
  cbn [act];
  unfold handlePromptChanged, handleAddPrompt_updated, handlePromptRemoved,
    handlePlayPause, handleReset, firstUpdated, resume, resumeIfPaused,
    connectToSession_settled.

Ltac simp_page := repeat (progress (page; fields)).

Ltac crunch_page :=
  repeat (simp_page;
          match goal with
          | |- context [if ?c then _ else _] => destruct c eqn:?
          | |- context [match ?c with _ => _ end] => destruct c eqn:?
          end);
  simp_page.

(** What an event of the scheduler leaves alone. *)
Lemma step_keeps (ev : Event) (d : PromptDj) :
  session (step ev d) = session d
  ∧ ((∀ now ps, ev <> PromptsEdited now ps) ->
     prompts (step ev d) = prompts d)
  ∧ (session d = false -> sent (step ev d) = sent d).
Proof.
  destruct ev as [e| | |k|quanta| | | |now ps|now e|msg|msg].
  - cbn [step]. destruct (onmessage_keeps e d) as (-> & -> & -> & _). auto.
  - split; [handlers; crunch; reflexivity|].
    split; [intros _; handlers; crunch; reflexivity|].
    intros Hs. handlers. fields. rewrite ?Hs. cbn [andb orb negb].
    crunch; reflexivity.
  - split; [handlers; crunch; reflexivity|].
    split; [intros _; handlers; crunch; reflexivity|].
    intros Hs. handlers. fields. rewrite ?Hs. cbn [andb orb negb].
    crunch; reflexivity.
  - split; [handlers; crunch; reflexivity|].
    split; [intros _; handlers; crunch; reflexivity|].
    intros Hs. handlers. fields. rewrite ?Hs. cbn [andb orb negb].
    crunch; reflexivity.
  - auto.
  - split; [handlers; crunch; reflexivity|].
    split; [intros _; handlers; crunch; reflexivity|].
    intros Hs. handlers. fields. rewrite ?Hs. cbn [andb orb negb].
    crunch; reflexivity.
  - split; [handlers; crunch; reflexivity|].
    split; [intros _; handlers; crunch; reflexivity|].
    intros Hs. handlers. fields. rewrite ?Hs. cbn [andb orb negb].
    crunch; reflexivity.
  - split; [handlers; crunch; reflexivity|].
    split; [intros _; handlers; crunch; reflexivity|].
    intros Hs. handlers. fields. rewrite ?Hs. cbn [andb orb negb].
    crunch; reflexivity.
  - split; [handlers; crunch; reflexivity|].
    split; [intros H; destruct (H now ps eq_refl)|].
    intros Hs. handlers. fields. rewrite ?Hs. cbn [andb orb negb].
    crunch; reflexivity.
  - split; [handlers; crunch; reflexivity|].
    split; [intros _; handlers; crunch; reflexivity|].
    intros Hs. handlers. fields. rewrite ?Hs. cbn [andb orb negb].
    crunch; reflexivity.
  - split; [handlers; crunch; reflexivity|].
    split; [intros _; handlers; crunch; reflexivity|].
    intros Hs. handlers. fields. rewrite ?Hs. cbn [andb orb negb].
    crunch; reflexivity.
  - split; [handlers; crunch; reflexivity|].
    split; [intros _; handlers; crunch; reflexivity|].
    intros Hs. handlers. fields. rewrite ?Hs. cbn [andb orb negb].
    crunch; reflexivity.
Qed.

Lemma handleReset_connected_keeps (now : Z) (pg : Page) :
  let pg' := handleReset_connected now pg in
  prompts (dj pg') = prompts (dj pg)
  ∧ session (dj pg') = session (dj pg)
  ∧ promptsChanged pg' = promptsChanged pg
  ∧ adding pg' = adding pg
  ∧ connecting pg' = connecting pg
  ∧ nextPromptId pg' = nextPromptId pg
  ∧ (session (dj pg) = false ->
     sent (dj pg') = sent (dj pg) ∧ contextResets pg' = contextResets pg).
Proof.
  intros pg'. subst pg'. unfold handleReset_connected. page.
  set (e := {| musicGenerationConfig := defaultConfig;
               showSpectrogram := true |}).
  change (updateSettings now e (pauseAudio (dj pg)))
    with (step (SettingsChanged now e) (step PauseAudio (dj pg))).
  change (pauseAudio (dj pg)) with (step PauseAudio (dj pg)).
  destruct (step_keeps (SettingsChanged now e) (step PauseAudio (dj pg)))
    as (Hs2 & Hp2 & Hn2).
  destruct (step_keeps PauseAudio (dj pg)) as (Hs1 & Hp1 & Hn1).
  rewrite Hs2, Hs1, Hp2, Hp1 by (intros ? ? ?; discriminate).
  repeat (split; [reflexivity|]).
  intros Hs. rewrite Hn2, Hn1 by congruence. split; [reflexivity|].
  unfold sessionUsable. rewrite Hs1, Hs. reflexivity.
Qed.

(** Only the prompt handlers touch the prompts, and only they and the
    resumed [handleAddPrompt] dispatch [prompts-changed]. *)
Lemma act_prompts (a : Action) (pg : Page) :
  edits_prompts a = false ->
  prompts (dj (act a pg)) = prompts (dj pg)
  ∧ (a <> AddPromptUpdated ->
     promptsChanged (act a pg) = promptsChanged pg
     ∧ adding (act a pg) = adding pg).
Proof.
  intros Ha.
  destruct a as [|k ok now|e| | |k| |quanta|now detail|now rt rc| |now id|
                 |now|now e|msg|msg]; try discriminate Ha; cbn [act].
  - split; [reflexivity|]. intros _. split; reflexivity.
  - destruct (connecting pg !! k) as [caller|]; [|auto].
    destruct caller, ok; controls;
      try (destruct (connectionError _);
           [|match goal with |- context [handleReset_connected ?n ?x] =>
               destruct (handleReset_connected_keeps n x)
                 as (-> & _ & -> & -> & _) end]);
      (split; [|intros _; split]); page; handlers; crunch_page;
      reflexivity.
  - page. destruct (step_keeps (OnMessage e) (dj pg)) as (_ & -> & _);
      [auto|intros ? ? ?; discriminate].
  - page. destruct (step_keeps OnError (dj pg)) as (_ & -> & _);
      [auto|intros ? ? ?; discriminate].
  - page. destruct (step_keeps OnClose (dj pg)) as (_ & -> & _);
      [auto|intros ? ? ?; discriminate].
  - page. destruct (step_keeps (TimerFires k) (dj pg)) as (_ & -> & _);
      [auto|intros ? ? ?; discriminate].
  - destruct (resumeTimers pg); [auto|]. controls.
    (split; [|intros _; split]); page; handlers; crunch_page; reflexivity.
  - page. auto.
  - unfold handleAddPrompt_updated.
    destruct (adding pg); page; (split; [reflexivity|]); intros H;
      destruct (H eq_refl).
  - controls.
    (split; [|intros _; split]); page; handlers; crunch_page; reflexivity.
  - unfold handleReset. destruct (_ || _).
    + page. auto.
    + destruct (handleReset_connected_keeps now pg)
        as (-> & _ & -> & -> & _). auto.
  - page. destruct (step_keeps (SettingsChanged now e) (dj pg))
      as (_ & -> & _); [auto|intros ? ? ?; discriminate].
  - page. destruct (step_keeps (PromptsRejected msg) (dj pg))
      as (_ & -> & _); [auto|intros ? ? ?; discriminate].
  - page. destruct (step_keeps (SettingsRejected msg) (dj pg))
      as (_ & -> & _); [auto|intros ? ? ?; discriminate].
Qed.

Lemma act_ids (a : Action) (pg : Page) :
  NoDup (map promptId (prompts (dj pg))) ->
  NoDup (map promptId (prompts (dj (act a pg)))).
Proof.
  intros H. destruct (edits_prompts a) eqn:E.
  - destruct a as [|k ok now|e| | |k| |quanta|now detail|now rt rc| |now id|
                   |now|now e|msg|msg]; try discriminate E; cbn [act].
    + unfold handlePromptChanged.
      destruct (Map_get (promptId detail) (prompts (dj pg))) as [old|] eqn:G;
        page; [|exact H].
      match goal with |- context [setSessionPrompts now ?d] =>
        destruct (setSessionPrompts_keeps now d) as (-> & _) end.
      fields. destruct (Map_get_Some _ _ _ G) as [Hin Hid].
      assert (Hids : In (promptId detail) (map promptId (prompts (dj pg))))
        by (apply in_map_iff; eauto).
      destruct (Map_set_ids (promptId detail)
                  {| promptId := promptId old; color := color old;
                     text := text detail; weight := weight detail |}
                  (prompts (dj pg)) Hids Hid) as [-> _].
      exact H.
    + destruct (handleAddPrompt now rt rc pg) as [pg'|] eqn:Hadd;
        [|exact H].
      cbn [default from_option id]. unfold handleAddPrompt in Hadd.
      destruct (PROMPT_TEXT_PRESETS !! _) as [t|]; [|discriminate].
      destruct (getUnusedRandomColor _ _) as [c|]; [|discriminate].
      injection Hadd as <-. page.
      match goal with |- context [setSessionPrompts now ?d] =>
        destruct (setSessionPrompts_keeps now d) as (-> & _) end.
      fields.
      destruct (in_dec string_dec (promptIdOf (nextPromptId pg))
                  (map promptId (prompts (dj pg)))) as [Hin|Hout].
      * destruct (Map_set_ids (promptIdOf (nextPromptId pg))
                    {| promptId := promptIdOf (nextPromptId pg); color := c;
                       text := t; weight := 0 |}
                    (prompts (dj pg)) Hin eq_refl) as [-> _].
        exact H.
      * rewrite Map_set_fresh by exact Hout. rewrite map_app.
        apply NoDup_app. split; [exact H|]. split; [|apply NoDup_singleton].
        intros x Hx Hx'. apply list_elem_of_singleton in Hx'. subst x.
        apply Hout, list_elem_of_In, Hx.
    + unfold handlePromptRemoved.
      destruct (Map_has id (prompts (dj pg))); page; [|exact H].
      match goal with |- context [setSessionPrompts now ?d] =>
        destruct (setSessionPrompts_keeps now d) as (-> & _) end.
      fields. apply Map_delete_ids, H.
  - rewrite (proj1 (act_prompts a pg E)). exact H.
Qed.

(** X23: prompt ids stay distinct.  If the prompts the page is built with
    have pairwise distinct ids, so have the prompts after any sequence of
    clicks, edits, session callbacks and timers. *)
Theorem prompt_ids_stay_distinct (actions : list Action)
    (ctx : AudioContext) (initialPrompts : list Prompt) :
  NoDup (map promptId initialPrompts) ->
  NoDup (map promptId
           (prompts (dj (interact actions (construct ctx initialPrompts))))).
Proof.
  intros H. unfold interact.
  induction actions as [|a actions IH] using rev_ind; [exact H|].
  rewrite fold_left_app. cbn [fold_left]. apply act_ids, IH.
Qed.

Lemma prompt_ids_stay_distinct_witness :
  NoDup (map promptId
           (prompts (dj (interact
                           [AddPromptClicked 1700000000000 (1 # 3) (1 # 2);
                            PromptRemoved 1700000000500 "prompt-0"]
                           (construct minimalContext [bossaNova 1]))))).
Proof.
  apply (prompt_ids_stay_distinct
           [AddPromptClicked 1700000000000 (1 # 3) (1 # 2);
            PromptRemoved 1700000000500 "prompt-0"]
           minimalContext [bossaNova 1]).
  apply (bool_decide_unpack _). vm_compute. exact I.
Defined.

Lemma synced_step (initialPrompts : list Prompt) (a : Action) (pg : Page) :
  (adding pg = 0%nat ->
   last (promptsChanged pg) = Some (prompts (dj pg))
   ∨ (promptsChanged pg = [] ∧ prompts (dj pg) = initialPrompts)) ->
  adding (act a pg) = 0%nat ->
  last (promptsChanged (act a pg)) = Some (prompts (dj (act a pg)))
  ∨ (promptsChanged (act a pg) = []
     ∧ prompts (dj (act a pg)) = initialPrompts).
Proof.
  intros H. destruct (edits_prompts a) eqn:E.
  - destruct a as [|k ok now|e| | |k| |quanta|now detail|now rt rc| |now id|
                   |now|now e|msg|msg]; try discriminate E; cbn [act].
    + unfold handlePromptChanged.
      destruct (Map_get (promptId detail) (prompts (dj pg))) as [old|];
        page; [|fields; exact H].
      intros _. left. apply last_snoc.
    + destruct (handleAddPrompt now rt rc pg) as [pg'|] eqn:Hadd;
        [|exact H].
      cbn [default from_option id]. unfold handleAddPrompt in Hadd.
      destruct (PROMPT_TEXT_PRESETS !! _) as [t|]; [|discriminate].
      destruct (getUnusedRandomColor _ _) as [c|]; [|discriminate].
      injection Hadd as <-. page. discriminate.
    + unfold handlePromptRemoved.
      destruct (Map_has id (prompts (dj pg))); page; [|fields; exact H].
      intros _. left. apply last_snoc.
  - destruct (act_prompts a pg E) as [Hp Hc].
    destruct a as [|k ok now|e| | |k| |quanta|now detail|now rt rc| |now id|
                   |now|now e|msg|msg];
      try (destruct Hc as [Hc1 Hc2]; [discriminate|];
           rewrite Hp, Hc1, Hc2; exact H).
    cbn [act]. unfold handleAddPrompt_updated.
    destruct (adding pg) as [|n]; [intros _; apply H; reflexivity|].
    page. intros _. left. apply last_snoc.
Qed.

(** X24: what is dispatched is what the page holds.  Whenever no
    [handleAddPrompt] call is waiting for the page to update, the
    [prompts-changed] event dispatched last (which the page's listener
    stores) carries the current prompts; or none was dispatched and the
    prompts are those the page was built with. *)
Theorem last_dispatch_carries_current_prompts (actions : list Action)
    (ctx : AudioContext) (initialPrompts : list Prompt) :
  let pg := interact actions (construct ctx initialPrompts) in
  adding pg = 0%nat ->
  last (promptsChanged pg) = Some (prompts (dj pg))
  ∨ (promptsChanged pg = [] ∧ prompts (dj pg) = initialPrompts).
Proof.
  intros pg. subst pg. unfold interact.
  induction actions as [|a actions IH] using rev_ind.
  - intros _. right. split; reflexivity.
  - rewrite fold_left_app. cbn [fold_left]. apply synced_step, IH.
Qed.

Lemma last_dispatch_carries_current_prompts_witness :
  last (promptsChanged
          (interact [AddPromptClicked 1700000000000 (1 # 3) (1 # 2);
                     PromptRemoved 1700000000500 "prompt-0";
                     AddPromptUpdated]
             (construct minimalContext [bossaNova 1])))
  = Some (prompts
            (dj (interact [AddPromptClicked 1700000000000 (1 # 3) (1 # 2);
                           PromptRemoved 1700000000500 "prompt-0";
                           AddPromptUpdated]
                   (construct minimalContext [bossaNova 1]))))
  ∨ (promptsChanged
       (interact [AddPromptClicked 1700000000000 (1 # 3) (1 # 2);
                  PromptRemoved 1700000000500 "prompt-0";
                  AddPromptUpdated]
          (construct minimalContext [bossaNova 1])) = []
     ∧ prompts
         (dj (interact [AddPromptClicked 1700000000000 (1 # 3) (1 # 2);
                        PromptRemoved 1700000000500 "prompt-0";
                        AddPromptUpdated]
                (construct minimalContext [bossaNova 1])))
       = [bossaNova 1]).
Proof.
  apply (last_dispatch_carries_current_prompts
           [AddPromptClicked 1700000000000 (1 # 3) (1 # 2);
            PromptRemoved 1700000000500 "prompt-0"; AddPromptUpdated]
           minimalContext [bossaNova 1]).
  reflexivity.
Defined.

Ltac crunch_offline Hs :=
  repeat (simp_page; rewrite ?Hs; cbn [andb orb negb];
          match goal with
          | |- context [if ?c then _ else _] => destruct c eqn:?
          | |- context [match ?c with _ => _ end] => destruct c eqn:?
          end);
  simp_page; rewrite ?Hs; cbn [andb orb negb].

Lemma setSessionPrompts_offline (now : Z) (d : PromptDj) :
  session d = false -> sent (setSessionPrompts now d) = sent d.
Proof.
  intros Hs. unfold setSessionPrompts, throttle, sendSessionPrompts.
  rewrite Hs. cbn [negb orb]. crunch; reflexivity.
Qed.

(** Without a session object, no action but a connection that succeeds
    makes the page call the session. *)
Lemma act_offline (a : Action) (pg : Page) :
  connects a = false -> session (dj pg) = false ->
  session (dj (act a pg)) = false
  ∧ sent (dj (act a pg)) = sent (dj pg)
  ∧ contextResets (act a pg) = contextResets pg.
Proof.
  intros Ha Hs.
  destruct a as [|k ok now|e| | |k| |quanta|now detail|now rt rc| |now id|
                 |now|now e|msg|msg]; cbn [act].
  - page. auto.
  - destruct ok; [discriminate Ha|].
    destruct (connecting pg !! k) as [caller|]; [|auto].
    destruct caller; controls; page; fields.
    + destruct (setSessionPrompts_keeps now
                  (set_playbackState stopped
                     (show "Failed to connect to music generation service."
                        (set_connectionError true
                           (log "Failed to connect to session:" (dj pg))))))
        as (_ & -> & _).
      rewrite setSessionPrompts_offline by (fields; exact Hs). fields. auto.
    + page. fields. auto.
    + page. fields. auto.
  - page. destruct (step_keeps (OnMessage e) (dj pg)) as (-> & _ & ->); auto.
  - page. destruct (step_keeps OnError (dj pg)) as (-> & _ & ->); auto.
  - page. destruct (step_keeps OnClose (dj pg)) as (-> & _ & ->); auto.
  - page. destruct (step_keeps (TimerFires k) (dj pg)) as (-> & _ & ->); auto.
  - destruct (resumeTimers pg); [auto|]. controls. page. handlers.
    crunch_offline Hs; auto.
  - page. auto.
  - unfold handlePromptChanged.
    destruct (Map_get (promptId detail) (prompts (dj pg))); page;
      [|fields; auto].
    match goal with |- context [setSessionPrompts now ?d] =>
      destruct (setSessionPrompts_keeps now d) as (_ & -> & _);
      rewrite (setSessionPrompts_offline now d) by (fields; exact Hs) end.
    fields. auto.
  - destruct (handleAddPrompt now rt rc pg) as [pg'|] eqn:Hadd; [|auto].
    cbn [default from_option id]. unfold handleAddPrompt in Hadd.
    destruct (PROMPT_TEXT_PRESETS !! _) as [t|]; [|discriminate].
    destruct (getUnusedRandomColor _ _) as [c|]; [|discriminate].
    injection Hadd as <-. page.
    match goal with |- context [setSessionPrompts now ?d] =>
      destruct (setSessionPrompts_keeps now d) as (_ & -> & _);
      rewrite (setSessionPrompts_offline now d) by (fields; exact Hs) end.
    fields. auto.
  - unfold handleAddPrompt_updated. destruct (adding pg); page; auto.
  - unfold handlePromptRemoved.
    destruct (Map_has id (prompts (dj pg))); page; [|fields; auto].
    match goal with |- context [setSessionPrompts now ?d] =>
      destruct (setSessionPrompts_keeps now d) as (_ & -> & _);
      rewrite (setSessionPrompts_offline now d) by (fields; exact Hs) end.
    fields. auto.
  - controls. page. handlers. crunch_offline Hs; auto.
  - unfold handleReset. rewrite Hs. cbn [negb]. rewrite orb_true_r.
    page. fields. auto.
  - page. destruct (step_keeps (SettingsChanged now e) (dj pg))
      as (-> & _ & ->); auto.
  - page. destruct (step_keeps (PromptsRejected msg) (dj pg))
      as (-> & _ & ->); auto.
  - page. destruct (step_keeps (SettingsRejected msg) (dj pg))
      as (-> & _ & ->); auto.
Qed.

(** X25: nothing is sent before a connection has succeeded.  From the
    constructed page, as long as no [connect] call has been fulfilled,
    whatever the user clicks and edits, the page makes no call on the
    session: no command is sent and no context reset is asked for. *)
Theorem nothing_sent_before_connected (actions : list Action)
    (ctx : AudioContext) (initialPrompts : list Prompt) :
  Forall (fun a => connects a = false) actions ->
  let pg := interact actions (construct ctx initialPrompts) in
  sent (dj pg) = [] ∧ contextResets pg = [] ∧ session (dj pg) = false.
Proof.
  intros H pg. subst pg. unfold interact.
  induction actions as [|a actions IH] using rev_ind.
  - repeat split.
  - apply Forall_app in H as [H1 H2]. apply Forall_cons in H2 as [Ha _].
    destruct (IH H1) as (Hs & Hr & Hse).
    rewrite fold_left_app. cbn [fold_left].
    destruct (act_offline a _ Ha Hse) as (-> & -> & ->). auto.
Qed.

Lemma nothing_sent_before_connected_witness :
  sent (dj (interact [FirstUpdate; PlayPauseClicked;
                      ConnectSettles 0 false 1700000000000;
                      PromptChanged 1700000000500 (bossaNova (1 # 2));
                      ResetClicked 1700000001000]
              (construct minimalContext [bossaNova 1]))) = [].
Proof.
  refine (proj1 (nothing_sent_before_connected
                   [FirstUpdate; PlayPauseClicked;
                    ConnectSettles 0 false 1700000000000;
                    PromptChanged 1700000000500 (bossaNova (1 # 2));
                    ResetClicked 1700000001000]
                   minimalContext [bossaNova 1] _)).
  repeat constructor.
Defined.

Ltac crunch_bool :=
  repeat (simp_page; cbn [andb orb negb];
          match goal with
          | |- context [if ?c then _ else _] => destruct c eqn:?
          | |- context [match ?c with _ => _ end] => destruct c eqn:?
          end);
  simp_page; cbn [andb orb negb].

Lemma suspended_lookup (caller : Caller) (pg : Page) :
  (connecting pg ++ [caller]) !! length (connecting pg) = Some caller
  ∧ delete (length (connecting pg)) (connecting pg ++ [caller])
    = connecting pg.
Proof.
  split; [apply list_lookup_middle; reflexivity|].
  rewrite delete_middle. apply app_nil_r.
Qed.

(** X26: pressing play without a usable session connects first.  From
    [paused] or [stopped], with no session or a connection error, the
    click only shows [loading] and sends nothing.  When the connection
    succeeds, playback is asked for: the state stays [loading], the session
    is usable and the command sent last is [play].  When it fails, the
    state is [stopped], nothing has been sent, and the toast says so. *)
Theorem play_connects_first (ok : bool) (now : Z) (pg : Page) :
  playbackState (dj pg) = paused ∨ playbackState (dj pg) = stopped ->
  connectionError (dj pg) = true ∨ session (dj pg) = false ->
  let pg1 := act PlayPauseClicked pg in
  let pg2 := act (ConnectSettles (length (connecting pg)) ok now) pg1 in
  playbackState (dj pg1) = loading
  ∧ sent (dj pg1) = sent (dj pg)
  ∧ connecting pg2 = connecting pg
  ∧ if ok
    then playbackState (dj pg2) = loading
         ∧ last (sent (dj pg2)) = Some Play
         ∧ sessionUsable (dj pg2) = true
    else playbackState (dj pg2) = stopped
         ∧ sent (dj pg2) = sent (dj pg)
         ∧ connectionError (dj pg2) = true
         ∧ last (toasts (dj pg2))
           = Some "Failed to connect to music generation service."%string.
Proof.
  intros Hstate Hoff pg1 pg2.
  assert (Hcond : connectionError (dj pg) || negb (session (dj pg)) = true).
  { destruct Hoff as [-> | ->]; [reflexivity|apply orb_true_r]. }
  assert (Hpg1 : pg1 = suspend HandlePlayPause
                         (with_dj (set_playbackState loading) pg)).
  { subst pg1. cbn [act]. unfold handlePlayPause.
    destruct Hstate as [-> | ->]; rewrite Hcond; reflexivity. }
  subst pg2. rewrite Hpg1. clear Hpg1 pg1.
  destruct (suspended_lookup HandlePlayPause pg) as [Hl Hd].
  cbn [act]. page. rewrite Hl, Hd.
  split; [reflexivity|]. split; [reflexivity|].
  destruct ok; controls; page; fields.
  - split; [reflexivity|]. handlers. crunch_bool;
      try (cbn [andb orb negb] in *; discriminate);
      (split; [reflexivity|]); (split; [apply last_snoc|reflexivity]).
  - repeat split; try reflexivity. apply last_snoc.
Qed.

Lemma play_connects_first_witness :
  playbackState
    (dj (act (ConnectSettles 0 true 1700000000000)
           (act PlayPauseClicked (construct minimalContext [bossaNova 1]))))
  = loading.
Proof.
  pose proof (play_connects_first true 1700000000000
                (construct minimalContext [bossaNova 1])
                (or_intror eq_refl) (or_introl eq_refl)) as H.
  exact (proj1 (proj2 (proj2 (proj2 H)))).
Defined.

(** X27: a reset pressed without a usable session starts playback.
    Whatever the playback state, when the connection the reset waits for
    succeeds, the page pauses, asks the session to reset its context, and
    arms the timer that resumes; when that timer fires, the state is
    [loading] and the command sent last is [play]. *)
Theorem reset_while_disconnected_starts_playback (now now' : Z) (pg : Page) :
  connectionError (dj pg) = true ∨ session (dj pg) = false ->
  let pg' :=
    interact [ResetClicked now;
              ConnectSettles (length (connecting pg)) true now';
              ResumeTimerFires] pg in
  playbackState (dj pg') = loading
  ∧ last (sent (dj pg')) = Some Play
  ∧ In Pause (sent (dj pg'))
  ∧ length (contextResets pg') = S (length (contextResets pg))
  ∧ resumeTimers pg' = resumeTimers pg
  ∧ connecting pg' = connecting pg.
Proof.
  intros Hoff pg'. subst pg'.
  assert (Hcond : connectionError (dj pg) || negb (session (dj pg)) = true).
  { destruct Hoff as [-> | ->]; [reflexivity|apply orb_true_r]. }
  destruct (suspended_lookup HandleReset pg) as [Hl Hd].
  unfold interact. cbn [fold_left act]. unfold handleReset.
  rewrite Hcond. page. rewrite Hl, Hd.
  controls. page. fields. unfold handleReset_connected. page. fields.
  handlers. crunch_bool;
    try (cbn [andb orb negb] in *; discriminate);
    (split; [reflexivity|]); (split; [apply last_snoc|]);
    (split; [|repeat split; rewrite ?length_app; simpl; lia]);
    rewrite !in_app_iff; simpl; tauto.
Qed.

Lemma reset_while_disconnected_starts_playback_witness :
  playbackState
    (dj (interact [ResetClicked 1700000000000;
                   ConnectSettles 0 true 1700000000300; ResumeTimerFires]
           (construct minimalContext [bossaNova 1]))) = loading.
Proof.
  exact (proj1 (reset_while_disconnected_starts_playback 1700000000000
                  1700000000300 (construct minimalContext [bossaNova 1])
                  (or_introl eq_refl))).
Defined.

(** *** The cursor of an idle page *)

Lemma setSessionPrompts_cursor (now : Z) (d : PromptDj) :
  accepting (setSessionPrompts now d) = accepting d
  ∧ nextStartTime (setSessionPrompts now d) = nextStartTime d.
Proof.
  pose proof (setSessionPrompts_schedule now d) as Hs.
  unfold schedule in Hs. injection Hs as _ _ Hn Hp _ _.
  unfold accepting. rewrite Hp, Hn. auto.
Qed.

Lemma updateSettings_cursor (now : Z) (e : SettingsControllerState)
    (d : PromptDj) :
  accepting (updateSettings now e d) = accepting d
  ∧ nextStartTime (updateSettings now e d) = nextStartTime d.
Proof.
  pose proof (updateSettings_schedule now e d) as Hs.
  unfold schedule in Hs. injection Hs as _ _ Hn Hp _ _.
  unfold accepting. rewrite Hp, Hn. auto.
Qed.

Lemma act_idle_cursor (a : Action) (pg : Page) :
  connect_fails a = false ->
  (accepting (dj pg) = false -> nextStartTime (dj pg) = 0%Q) ->
  accepting (dj (act a pg)) = false -> nextStartTime (dj (act a pg)) = 0%Q.
Proof.
  intros Hok H.
  destruct a as [|k ok now|e| | |k| |quanta|now detail|now rt rc| |now id|
                 |now|now e|msg|msg]; cbn [act].
  - exact H.
  - destruct ok; [|discriminate].
    destruct (connecting pg !! k) as [caller|]; [|exact H].
    destruct caller; unfold resume, connectToSession_settled; simp_page.
    + match goal with |- context [setSessionPrompts now ?d] =>
        destruct (setSessionPrompts_cursor now d) as [-> ->] end.
      exact H.
    + unfold accepting.
      match goal with |- context [loadAudio ?d] =>
        destruct (loadAudio_fields d) as (-> & _) end.
      discriminate.
    + unfold handleReset_connected. simp_page.
      match goal with |- context [updateSettings now ?e ?d] =>
        destruct (updateSettings_cursor now e d) as [-> ->] end.
      intros _.
      match goal with |- context [pauseAudio ?d] =>
        destruct (pauseAudio_fields d) as (_ & -> & _) end.
      reflexivity.
  - simp_page. apply idle_cursor_step, H.
  - simp_page. apply idle_cursor_step, H.
  - simp_page. apply idle_cursor_step, H.
  - simp_page. apply idle_cursor_step, H.
  - destruct (resumeTimers pg) as [|n]; [exact H|]. simp_page.
    unfold resumeIfPaused.
    destruct (PlaybackState_eqb (playbackState (dj pg)) paused); [|exact H].
    unfold accepting. destruct (loadAudio_fields (dj pg)) as (-> & _).
    discriminate.
  - simp_page. apply idle_cursor_step, H.
  - unfold handlePromptChanged.
    destruct (Map_get (promptId detail) (prompts (dj pg))); simp_page;
      [|exact H].
    match goal with |- context [setSessionPrompts now ?d] =>
      destruct (setSessionPrompts_cursor now d) as [-> ->] end.
    exact H.
  - unfold handleAddPrompt.
    destruct (PROMPT_TEXT_PRESETS !! _); [|exact H].
    destruct (getUnusedRandomColor _ _); [|exact H].
    cbn [default from_option id]. simp_page.
    match goal with |- context [setSessionPrompts now ?d] =>
      destruct (setSessionPrompts_cursor now d) as [-> ->] end.
    exact H.
  - unfold handleAddPrompt_updated.
    destruct (adding pg); simp_page; exact H.
  - unfold handlePromptRemoved.
    destruct (Map_has id (prompts (dj pg))); simp_page; [|exact H].
    match goal with |- context [setSessionPrompts now ?d] =>
      destruct (setSessionPrompts_cursor now d) as [-> ->] end.
    exact H.
  - unfold handlePlayPause.
    destruct (playbackState (dj pg)) eqn:Hp; simp_page.
    + destruct (connectionError (dj pg) || negb (session (dj pg)));
        simp_page; unfold accepting; fields; [discriminate|].
      destruct (loadAudio_fields (dj pg)) as (-> & _). discriminate.
    + intros _. apply pauseAudio_fields.
    + intros _. apply stopAudio_fields.
    + destruct (connectionError (dj pg) || negb (session (dj pg)));
        simp_page; unfold accepting; fields; [discriminate|].
      destruct (loadAudio_fields (dj pg)) as (-> & _). discriminate.
  - unfold handleReset.
    destruct (connectionError (dj pg) || negb (session (dj pg))); simp_page.
    + unfold accepting. fields. discriminate.
    + unfold handleReset_connected. simp_page.
      match goal with |- context [updateSettings now ?e ?d] =>
        destruct (updateSettings_cursor now e d) as [-> ->] end.
      intros _. apply pauseAudio_fields.
  - simp_page. apply idle_cursor_step, H.
  - simp_page. apply idle_cursor_step, H.
  - simp_page. apply idle_cursor_step, H.
Qed.

(** X11: as long as no connection attempt has failed, whenever the page is
    [paused] or [stopped] the cursor [nextStartTime] is 0, so that the next
    buffer accepted is treated as the first of a run.  (The [catch] branch
    of [connectToSession] writes [stopped] and leaves the cursor as it
    is.) *)
Theorem idle_cursor_is_zero (actions : list Action) (ctx : AudioContext)
    (initialPrompts : list Prompt) :
  forallb (fun a => negb (connect_fails a)) actions = true ->
  let pg := interact actions (construct ctx initialPrompts) in
  accepting (dj pg) = false -> nextStartTime (dj pg) = 0%Q.
Proof.
  intros Hok pg. subst pg. unfold interact.
  induction actions as [|a actions IH] using rev_ind; [reflexivity|].
  rewrite forallb_app in Hok. apply andb_true_iff in Hok as [Hok Ha].
  cbn [forallb] in Ha. rewrite andb_true_r in Ha. apply negb_true_iff in Ha.
  rewrite fold_left_app. cbn [fold_left].
  apply act_idle_cursor; [exact Ha|]. apply IH, Hok.
Qed.

Lemma idle_cursor_is_zero_witness :
  let chunk := audioMessage "AQACAA==" in
  nextStartTime
    (dj (interact [FirstUpdate; ConnectSettles 0 true 1700000000000;
                   PlayPauseClicked; SessionMessage chunk; PlayPauseClicked]
           (construct minimalContext []))) = 0%Q.
Proof.
  intros chunk.
  apply (idle_cursor_is_zero
           [FirstUpdate; ConnectSettles 0 true 1700000000000;
            PlayPauseClicked; SessionMessage chunk; PlayPauseClicked]
           minimalContext []);
    reflexivity.
Defined.

(** After a failed connection attempt the page is [stopped] with the cursor
    where the last run left it: the page plays, the connection is lost with
    an error, the user presses play, audio of the old session still
    arrives, and the new attempt fails. *)
Lemma failed_connect_keeps_cursor :
  let chunk := audioMessage "AQACAA==" in
  let pg := interact [FirstUpdate; ConnectSettles 0 true 1700000000000;
                      PlayPauseClicked; SessionError; PlayPauseClicked;
                      SessionMessage chunk;
                      ConnectSettles 0 false 1700000001000]
              (construct minimalContext []) in
  playbackState (dj pg) = stopped ∧ ¬ (nextStartTime (dj pg) == 0)%Q.
Proof.
  vm_compute. split; [reflexivity|]. intros H. discriminate H.
Qed.

End ControlFacts.

(** ** The settings panel *)
Module SettingsFacts.
Import Settings.

Lemma has_key_In (key : string) (o : object) :
  has_key key o = true <-> In key (map fst o).
Proof.
  unfold has_key. rewrite existsb_exists, in_map_iff. split.
  - intros (kv & H & E). apply String.eqb_eq in E. eauto.
  - intros (kv & E & H). exists kv. split; [exact H|].
    apply String.eqb_eq, E.
Qed.

Lemma put_keys (key : string) (v : value) (o : object) (k : string) :
  In k (map fst (put key v o)) <-> k = key ∨ In k (map fst o).
Proof.
  induction o as [|[k0 v0] o IH]; cbn [put map fst In].
  - intuition.
  - destruct (String.eqb_spec k0 key) as [E|E]; cbn [map fst In].
    + subst k0. intuition.
    + rewrite IH. intuition.
Qed.

Lemma get_put (key key' : string) (v : value) (o : object) :
  get key' (put key v o)
  = if String.eqb key' key then v else get key' o.
Proof.
  unfold get. induction o as [|[k0 v0] o IH]; cbn [put find fst snd].
  - rewrite (String.eqb_sym key key').
    destruct (String.eqb key' key); reflexivity.
  - destruct (String.eqb_spec k0 key) as [E|E]; cbn [find fst snd].
    + subst k0. rewrite (String.eqb_sym key key').
      destruct (String.eqb key' key); reflexivity.
    + destruct (String.eqb_spec k0 key') as [E'|E'].
      * destruct (String.eqb_spec key' key) as [E2|E2]; [congruence|].
        reflexivity.
      * exact IH.
Qed.

(** The keys of the config stay among [configKeys]. *)
Lemma handle_keys (ev : PanelEvent) (sc : SettingsController) :
  Forall (fun k => In k configKeys) (map fst (config sc)) ->
  Forall (fun k => In k configKeys) (map fst (config (handle ev sc)))
  ∧ ∃ new, dispatched (handle ev sc) = dispatched sc ++ new
      ∧ Forall (fun d => Forall (fun k => In k configKeys) (map fst (fst d)))
          new.
Proof.
  intros H.
  assert (Hput : ∀ key v, In key configKeys ->
            Forall (fun k => In k configKeys)
              (map fst (put key v (config sc)))).
  { intros key v Hk. apply Forall_forall. intros k Hin.
    apply list_elem_of_In, put_keys in Hin as [->|Hin]; [exact Hk|].
    rewrite Forall_forall in H. apply H, list_elem_of_In, Hin. }
  destruct ev as [target| |]; cbn [handle].
  - unfold handleInputChange, dispatchSettingsChange.
    set (v := match type (input target) with
              | range | number => _
              | checkbox => _
              | select_one => _
              end).
    clearbody v.
    destruct (String.eqb (id (input target)) "showSpectrogram");
      [|destruct (String.eqb (id (input target)) "auto-density");
        [|destruct (String.eqb (id (input target)) "auto-brightness");
          [|destruct (has_key (id (input target)) (config sc)) eqn:Hk]]];
      cbn [config dispatched fst];
      (split; [|eexists; split; [reflexivity|]; constructor;
                [cbn [fst]|constructor]]);
      try exact H;
      try (apply Hput; simpl; tauto);
      apply Hput; rewrite Forall_forall in H;
      apply H, list_elem_of_In, has_key_In, Hk.
  - unfold resetToDefaults, dispatchSettingsChange. cbn [config dispatched].
    assert (Hd : Forall (fun k => In k configKeys) (map fst defaultConfig))
      by (repeat constructor; simpl; tauto).
    split; [exact Hd|]. eexists. split; [reflexivity|].
    constructor; [exact Hd|constructor].
  - unfold toggleAdvancedSettings. cbn [config dispatched].
    split; [exact H|]. exists []. rewrite app_nil_r.
    split; [reflexivity|constructor].
Qed.

Lemma operate_keys (evs : list PanelEvent) :
  Forall (fun k => In k configKeys) (map fst (config (operate evs initial)))
  ∧ Forall (fun d => Forall (fun k => In k configKeys) (map fst (fst d)))
      (dispatched (operate evs initial)).
Proof.
  unfold operate. induction evs as [|ev evs [IH1 IH2]] using rev_ind.
  - split; [repeat constructor; simpl; tauto|constructor].
  - rewrite fold_left_app. cbn [fold_left].
    destruct (handle_keys ev _ IH1) as (H1 & new & -> & H2).
    split; [exact H1|]. apply Forall_app. auto.
Qed.

(** X28: the advanced inputs never reach the config.  The config starts
    with the keys [temperature], [topK] and [guidance], and
    [handleInputChange] stores a value only under a key the config already
    has (or under [density] and [brightness], through their auto boxes).
    So whatever the user does with the panel, no [settings-changed] event
    carries a [seed], a [bpm], a [scale] or one of the three mute
    switches. *)
Theorem advanced_inputs_never_reach_the_config (evs : list PanelEvent)
    (i : Input) (cfg : object) (spectrogram : bool) :
  In i [seed; bpm; scale; muteBass; muteDrums; onlyBassAndDrums] ->
  In (cfg, spectrogram) (dispatched (operate evs initial)) ->
  has_key (id i) cfg = false.
Proof.
  intros Hi Hin. destruct (operate_keys evs) as [_ H].
  rewrite Forall_forall in H. apply list_elem_of_In, H in Hin.
  cbn [fst] in Hin. rewrite Forall_forall in Hin.
  apply not_true_iff_false. intros Hk.
  apply has_key_In, list_elem_of_In, Hin in Hk.
  simpl in Hi, Hk.
  destruct Hi as [<-|[<-|[<-|[<-|[<-|[<-|[]]]]]]];
    simpl in Hk; intuition discriminate.
Qed.

Lemma advanced_inputs_never_reach_the_config_witness :
  has_key "bpm"
    [("temperature"%string, Number (Js.Num (11 # 10)));
     ("topK"%string, Number (Js.Num 40));
     ("guidance"%string, Number (Js.Num 4))] = false.
Proof.
  apply (advanced_inputs_never_reach_the_config
           [InputChanged (slider bpm "120" (Js.Num 120))] bpm _ true).
  - right. left. reflexivity.
  - left. reflexivity.
Defined.

(** X29: the auto box remembers the density.  Once the config has a
    [density] key, a density set on the slider survives the auto box:
    checking the box removes the value from the config ([undefined]), and
    unchecking it puts the same value back. *)
Theorem auto_density_restores_density (sc : SettingsController)
    (text : string) (n : Js.number) :
  has_key "density" (config sc) = true -> text <> ""%string ->
  let set := InputChanged (slider density text n) in
  let auto := fun on => InputChanged (box auto_density on) in
  get "density" (config (operate [set] sc)) = Number n
  ∧ get "density" (config (operate [set; auto true] sc)) = Undefined
  ∧ get "density" (config (operate [set; auto true; auto false] sc))
    = Number n
  ∧ autoDensity (operate [set; auto true; auto false] sc) = false.
Proof.
  intros Hk Ht set auto. subst set auto.
  apply String.eqb_neq in Ht.
  assert (H1 : config (operate [InputChanged (slider density text n)] sc)
               = put "density" (Number n) (config sc)
               ∧ lastDefinedDensity
                   (operate [InputChanged (slider density text n)] sc)
                 = Number n).
  { unfold operate. cbn [fold_left handle].
    unfold handleInputChange, dispatchSettingsChange.
    cbn [slider input id type target_value target_number].
    rewrite Ht.
    change (String.eqb "density" "showSpectrogram") with false.
    change (String.eqb "density" "auto-density") with false.
    change (String.eqb "density" "auto-brightness") with false.
    change (String.eqb "density" "density") with true.
    cbn iota. rewrite Hk. cbn [config lastDefinedDensity].
    rewrite get_put. change (String.eqb "density" "density") with true.
    cbn iota. split; reflexivity. }
  destruct H1 as [Hc Hl].
  assert (Hstep : ∀ evs ev, operate (evs ++ [ev]) sc
                            = handle ev (operate evs sc)).
  { intros evs ev. unfold operate. rewrite fold_left_app. reflexivity. }
  change [InputChanged (slider density text n);
          InputChanged (box auto_density true);
          InputChanged (box auto_density false)]
    with (([InputChanged (slider density text n)]
           ++ [InputChanged (box auto_density true)])
          ++ [InputChanged (box auto_density false)]).
  change [InputChanged (slider density text n);
          InputChanged (box auto_density true)]
    with ([InputChanged (slider density text n)]
          ++ [InputChanged (box auto_density true)]).
  rewrite !Hstep.
  set (sc1 := operate [InputChanged (slider density text n)] sc) in *.
  clearbody sc1.
  cbn [handle]. unfold handleInputChange, dispatchSettingsChange.
  cbn [box input id type checked toBoolean config lastDefinedDensity
       autoDensity].
  change (String.eqb "auto-density" "showSpectrogram") with false.
  change (String.eqb "auto-density" "auto-density") with true.
  cbn iota. cbn [config lastDefinedDensity autoDensity].
  rewrite !get_put, Hc, Hl, get_put.
  change (String.eqb "density" "density") with true. cbn iota.
  repeat split; reflexivity.
Qed.

Lemma auto_density_restores_density_witness :
  get "density"
    (config (operate [InputChanged (slider density "0.8" (Js.Num (4 # 5)));
                      InputChanged (box auto_density true);
                      InputChanged (box auto_density false)]
               (operate [InputChanged (box auto_density false)] initial)))
  = Number (Js.Num (4 # 5)).
Proof.
  refine (proj1 (proj2 (proj2
            (auto_density_restores_density
               (operate [InputChanged (box auto_density false)] initial)
               "0.8" (Js.Num (4 # 5)) eq_refl _)))).
  discriminate.
Defined.

End SettingsFacts.
